(** * TikTokAnalyzer (src/analysis/tiktokAnalyzer.js)

    A shallow embedding of the analyzer class and of the parts of the
    ECMAScript library it relies on.

    - JavaScript Numbers are IEEE 754 binary64 values: they are Rocq's
      primitive [float]s, whose operations are specified by
      [FloatAxioms] over [SpecFloat].
    - Plain objects used as accumulation tables are ordered lists of
      string-keyed own properties, read through the prototype chain
      and enumerated by [Object_entries] in the own-property-key
      order of the language (array indices first, ascending; then
      the other keys in creation order).
    - A method is a computation over the realm (the built-in objects
      every object literal inherits from) that returns a value or
      throws. *)

From Stdlib Require Import ZArith NArith List Bool String Ascii Floats Lia.
From Stdlib Require Import DecimalString DecimalN Permutation Sorted.
Import ListNotations.

Set Warnings "-inexact-float".

Local Open Scope string_scope.
Local Open Scope float_scope.

(** ** ECMAScript Numbers and strings *)

(** The Number value for a mathematical integer (round to nearest, ties
    to even). *)
Definition Number_of_Z (z : Z) : float :=
  SF2Prim (binary_normalize prec emax z 0 false).

(** The decimal digits of a natural number, without leading zeros. *)
Definition decimal (n : N) : string := NilEmpty.string_of_uint (N.to_uint n).

(** [Math.floor(x)]. *)
Definition Math_floor (x : float) : float :=
  match Prim2SF x with
  | S754_finite s m e =>
      if (0 <=? e)%Z then x
      else
        let q := (Zpos m / 2 ^ (- e))%Z in
        if s then
          if (Zpos m mod 2 ^ (- e) =? 0)%Z
          then - Number_of_Z q
          else - Number_of_Z (q + 1)
        else Number_of_Z q
  | _ => x
  end.

(** The integer part of a finite Number (rounding towards zero). *)
Definition truncate (x : float) : option Z :=
  match Prim2SF x with
  | S754_zero _ => Some 0%Z
  | S754_finite s m e =>
      Some (cond_Zopp s
              (if (0 <=? e)%Z then Zpos m * 2 ^ e else Zpos m / 2 ^ (- e)))%Z
  | _ => None
  end.

(** The digits of [Number::toString]: for the positive finite value
    [v = m * 2^e], the integers [n], [k], [s] such that [s * 10^(n-k)]
    rounds to [v], with [k] as small as possible and [s] as close to [v]
    as possible. *)
Section Shortest.
Variables (m : positive) (e : Z).
Local Open Scope Z_scope.

(** Bounds are kept as integers, scaled by [2^sh]. *)
Definition sh := if 2 <=? e then 0 else 2 - e.
Definition scaled_v := Zpos m * 2 ^ (e + sh).
Definition scaled_lo :=
  scaled_v - (if (Zpos m =? 2 ^ 52) && (-1074 <? e)
              then 2 ^ (e + sh - 2) else 2 ^ (e + sh - 1)).
Definition scaled_hi := scaled_v + 2 ^ (e + sh - 1).

(** [s * 10^p] against the bound [b / 2^sh]. *)
Definition cmp_dec (s p b : Z) : comparison :=
  if 0 <=? p then (s * 10 ^ p * 2 ^ sh ?= b) else (s * 2 ^ sh ?= b * 10 ^ (- p)).

Definition rounds_to_v (s p : Z) : bool :=
  match cmp_dec s p scaled_lo, cmp_dec s p scaled_hi with
  | Gt, Lt => true
  | Eq, Lt | Gt, Eq => Z.even (Zpos m)
  | _, _ => false
  end.

(** The least [n] with [v < 10^n]. *)
Definition decimal_exponent : Z :=
  let below n := match cmp_dec 1 n scaled_v with Gt => true | _ => false end in
  let estimate := (Zpos (digits2_pos m) + e) * 1233 / 4096 in
  match find below (map (fun i => estimate - 2 + Z.of_nat i) (seq 0 6)) with
  | Some n => n
  | None => estimate
  end.

Definition floor_scaled (p : Z) : Z :=
  if 0 <=? p then scaled_v / (2 ^ sh * 10 ^ p) else (scaled_v * 10 ^ (- p)) / 2 ^ sh.

Definition dist (s p : Z) : Z :=
  if 0 <=? p then Z.abs (s * 10 ^ p * 2 ^ sh - scaled_v)
  else Z.abs (s * 2 ^ sh - scaled_v * 10 ^ (- p)).

Definition pick (n k : Z) : option Z :=
  let p := n - k in
  let s0 := floor_scaled p in
  match rounds_to_v s0 p, rounds_to_v (s0 + 1) p with
  | true, false => Some s0
  | false, true => Some (s0 + 1)
  | true, true =>
      match dist s0 p ?= dist (s0 + 1) p with
      | Lt => Some s0
      | Gt => Some (s0 + 1)
      | Eq => Some (if Z.even s0 then s0 else s0 + 1)
      end
  | false, false => None
  end.

Definition shortest : Z * Z * Z :=
  let n := decimal_exponent in
  let fix go (ks : list Z) :=
    match ks with
    | [] => (n, 17, floor_scaled (n - 17))
    | k :: ks' =>
        match pick n k with
        | Some s => if s =? 10 ^ k then (n + 1, k, 10 ^ (k - 1)) else (n, k, s)
        | None => go ks'
        end
    end in
  go (map Z.of_nat (seq 1 17)).
End Shortest.

Fixpoint zeros (n : nat) : string :=
  match n with O => "" | S n' => String "0" (zeros n') end.

Definition format_digits (n k s : Z) : string :=
  let digits := decimal (Z.to_N s) in
  if ((k <=? n) && (n <=? 21))%Z then digits ++ zeros (Z.to_nat (n - k))
  else if ((0 <? n) && (n <=? 21))%Z then
    substring 0 (Z.to_nat n) digits ++ "."
      ++ substring (Z.to_nat n) (Z.to_nat (k - n)) digits
  else if ((-6 <? n) && (n <=? 0))%Z then "0." ++ zeros (Z.to_nat (- n)) ++ digits
  else
    let e' := (n - 1)%Z in
    let mant :=
      if (k =? 1)%Z then digits
      else substring 0 1 digits ++ "." ++ substring 1 (Z.to_nat (k - 1)) digits in
    mant ++ "e" ++ (if (0 <=? e')%Z then "+" else "-") ++ decimal (Z.to_N (Z.abs e')).

(** [Number::toString(x)] in radix 10, the conversion applied to a Number
    used as a property key or interpolated in a template literal.  An
    integer below [2^53] prints as its decimal digits, which is what the
    digit rule gives for it. *)
Definition Number_toString (x : float) : string :=
  match Prim2SF x with
  | S754_nan => "NaN"
  | S754_zero _ => "0"
  | S754_infinity s => if s then "-Infinity" else "Infinity"
  | S754_finite s m e =>
      (if s then "-" else "") ++
      (if ((e <=? 0) && (Zpos m mod 2 ^ (- e) =? 0))%Z
       then decimal (Z.to_N (Zpos m / 2 ^ (- e)))
       else let '(n, k, d) := shortest m e in format_digits n k d)
  end.

Definition is_digit (c : ascii) : bool :=
  ((48 <=? N_of_ascii c) && (N_of_ascii c <=? 57))%N.

Fixpoint digit_prefix (s : string) : string :=
  match s with
  | String c s' => if is_digit c then String c (digit_prefix s') else ""
  | EmptyString => ""
  end.

(** [parseInt(string)] with the default radix, for a string with no
    leading white space and no [0x] prefix (no property key built from a
    Number has either). *)
Definition parseInt (s : string) : float :=
  let '(neg, body) :=
    match s with
    | String "-" s' => (true, s')
    | String "+" s' => (false, s')
    | _ => (false, s)
    end in
  match digit_prefix body with
  | EmptyString => nan
  | ds =>
      match NilEmpty.uint_of_string ds with
      | Some d =>
          let n := Z.of_N (N.of_uint d) in
          if neg then (if (n =? 0)%Z then neg_zero else Number_of_Z (- n))
          else Number_of_Z n
      | None => nan
      end
  end.

(** The array index a property key denotes, if any: the key is the
    canonical decimal string of an integer in [0, 2^32 - 2]. *)
Definition array_index (k : string) : option N :=
  match NilEmpty.uint_of_string k with
  | Some d =>
      let n := N.of_uint d in
      if String.eqb (decimal n) k && (n <? 4294967295)%N then Some n else None
  | None => None
  end.

(** [ToBoolean] of a Number. *)
Definition truthy (v : float) : bool := negb (is_nan v || (v =? 0)).

(** ** Dates *)

Definition msPerDay : Z := 86400000.
Definition msPerHour : Z := 3600000.

Definition TimeClip (time : float) : option Z :=
  match truncate time with
  | Some t => if (Z.abs t <=? 8640000000000000)%Z then Some t else None
  | None => None
  end.

(** [new Date(value)] for a Number [value]: the time value of the date,
    [None] for an invalid date. *)
Definition Date_new (value : float) : option Z := TimeClip value.

(** ** Arrays *)

Fixpoint insert {A} (comparefn : A -> A -> float) (x : A) (l : list A) : list A :=
  match l with
  | [] => [x]
  | y :: l' => if 0 <? comparefn x y then y :: insert comparefn x l' else x :: l
  end.

(** [Array.prototype.sort(comparefn)]: a stable sort, here by insertion.
    [x] is moved behind [y] only when [comparefn(x, y) > 0]; a [NaN]
    result counts as [0]. *)
Definition Array_sort {A} (comparefn : A -> A -> float) (l : list A) : list A :=
  fold_right (insert comparefn) [] l.

(** [Array.prototype.slice(0, n)]. *)
Definition Array_slice0 {A} (n : nat) (l : list A) : list A := firstn n l.

(** [a[k]] for a Number [k]. *)
Definition Array_get {A} (a : list A) (k : float) : option A :=
  match array_index (Number_toString k) with
  | Some i => nth_error a (N.to_nat i)
  | None => None
  end.

(** ** Objects, the realm, and computations *)

(** A plain object: its own string-keyed properties in creation order. *)
Definition JSObject (V : Type) : Type := list (string * V).

Fixpoint own_get {V} (o : JSObject V) (k : string) : option V :=
  match o with
  | [] => None
  | (k', v) :: o' => if String.eqb k k' then Some v else own_get o' k
  end.

Fixpoint own_set {V} (o : JSObject V) (k : string) (v : V) : JSObject V :=
  match o with
  | [] => [(k, v)]
  | (k', v') :: o' =>
      if String.eqb k k' then (k', v) :: o' else (k', v') :: own_set o' k v
  end.

Fixpoint insert_index {V} (i : N) (p : string * V) (l : list (N * (string * V)))
    : list (N * (string * V)) :=
  match l with
  | [] => [(i, p)]
  | (j, q) :: l' => if (i <? j)%N then (i, p) :: l else (j, q) :: insert_index i p l'
  end.

(** The properties whose key is an array index, each with its index, in
    ascending order of index. *)
Definition indexed_entries {V} (o : JSObject V) : list (N * (string * V)) :=
  fold_right
    (fun p acc =>
       match array_index (fst p) with
       | Some i => insert_index i p acc
       | None => acc
       end) [] o.

Definition is_index (k : string) : bool :=
  match array_index k with Some _ => true | None => false end.

(** [Object.entries(o)]: the properties whose key is an array index, in
    ascending numeric order, then the others in creation order. *)
Definition Object_entries {V} (o : JSObject V) : list (string * V) :=
  (map snd (indexed_entries o) ++ filter (fun p => negb (is_index (fst p))) o)%list.

(** The built-in objects a plain object inherits from: [Object.prototype],
    and the function objects that are its members. *)
Inductive builtin := ObjectPrototype | PrototypeMember (name : string).

Definition builtin_eqb (a b : builtin) : bool :=
  match a, b with
  | ObjectPrototype, ObjectPrototype => true
  | PrototypeMember x, PrototypeMember y => String.eqb x y
  | _, _ => false
  end.

Definition Object_prototype_members : list string :=
  [ "constructor"; "__defineGetter__"; "__defineSetter__"; "hasOwnProperty";
    "__lookupGetter__"; "__lookupSetter__"; "isPrototypeOf";
    "propertyIsEnumerable"; "toString"; "valueOf"; "toLocaleString" ].

(** The realm keeps the Number-valued properties that have been added to
    the built-in objects; it outlives a call. *)
Definition Realm : Type := list (builtin * string * float).

Definition pristine : Realm := [].

Fixpoint realm_own (r : Realm) (b : builtin) (p : string) : option float :=
  match r with
  | [] => None
  | (b', p', v) :: r' =>
      if builtin_eqb b b' && String.eqb p p' then Some v else realm_own r' b p
  end.

(** [b[p]] read through the prototype chain, which ends at
    [Object.prototype]. *)
Definition realm_get (r : Realm) (b : builtin) (p : string) : option float :=
  match realm_own r b p with
  | Some v => Some v
  | None =>
      match b with
      | ObjectPrototype => None
      | PrototypeMember _ => realm_own r ObjectPrototype p
      end
  end.

Definition realm_set (r : Realm) (b : builtin) (p : string) (v : float) : Realm :=
  (b, p, v) :: r.

(** [ToNumber(b[p])]. *)
Definition realm_number (r : Realm) (b : builtin) (p : string) : float :=
  match realm_get r b p with Some v => v | None => nan end.

(** What [o[k]] evaluates to when [o] has no own property [k]. *)
Inductive inherited := Undefined | Primitive (v : float) | Builtin (b : builtin).

Definition inherited_get (r : Realm) (k : string) : inherited :=
  if String.eqb k "__proto__" then Builtin ObjectPrototype
  else if existsb (String.eqb k) Object_prototype_members
  then Builtin (PrototypeMember k)
  else match realm_own r ObjectPrototype k with
       | Some v => Primitive v
       | None => Undefined
       end.

Inductive exn := TypeError.

Inductive outcome (A : Type) := Returns (a : A) | Throws (e : exn).
Arguments Returns {A} a.
Arguments Throws {A} e.

(** A computation reads and updates the realm, and returns or throws. *)
Definition M (A : Type) : Type := Realm -> Realm * outcome A.

Definition ret {A} (a : A) : M A := fun r => (r, Returns a).

Definition throw {A} (e : exn) : M A := fun r => (r, Throws e).

Definition bind {A B} (c : M A) (f : A -> M B) : M B :=
  fun r =>
    match c r with
    | (r', Returns a) => f a r'
    | (r', Throws e) => (r', Throws e)
    end.

Notation "x <- c ;; k" := (bind c (fun x => k))
  (at level 61, c at next level, right associativity).

(** [l.forEach(x => body)], where the body updates the table [s] that
    the callback closes over. *)
Fixpoint forEach {A S} (l : list A) (body : S -> A -> M S) (s : S) : M S :=
  match l with
  | [] => ret s
  | x :: l' => s' <- body s x ;; forEach l' body s'
  end.

(** The body shared by the accumulation loops:
<<
    if (!table[key]) { table[key] = init; }
    table[key].f1 op= ...; ...; [table[key].videos.push(...)]
>>
    [step] is the effect of the updates on the group.  When [table[key]]
    resolves to a built-in object the updates land on that object
    ([foreign] lists the Number fields and their updates), and
    [.videos.push] throws since no built-in has a [videos] array; when it
    resolves to a truthy primitive the first update throws (strict
    mode). *)
Definition accumulate {G} (table : JSObject G) (key : string)
    (init : G) (step : G -> G)
    (foreign : list (string * (float -> float))) (pushes : bool)
    : M (JSObject G) :=
  fun r =>
    match own_get table key with
    | Some g => (r, Returns (own_set table key (step g)))
    | None =>
        match inherited_get r key with
        | Undefined => (r, Returns (own_set table key (step init)))
        | Primitive v =>
            if truthy v then (r, Throws TypeError)
            else (r, Returns (own_set table key (step init)))
        | Builtin b =>
            let r' :=
              fold_left
                (fun r '(p, f) => realm_set r b p (f (realm_number r b p)))
                foreign r in
            if pushes then (r', Throws TypeError) else (r', Returns table)
        end
    end.

(** ** The analyzer *)

Record Stats := {
  likes : float;
  comments : float;
  shares : float;
  views : float
}.

(** A video record.  [createTime] is the Number handed to [new Date]. *)
Record Video := {
  id : string;
  stats : Stats;
  duration : float;
  createTime : float;
  hashtags : list string;
  music : string
}.

Module Thresholds.
Record t := { high : float; medium : float; low : float }.
End Thresholds.

(** [this.engagementThresholds], set by the constructor and read by no
    method. *)
Definition engagementThresholds : Thresholds.t :=
  {| Thresholds.high := 0.15; Thresholds.medium := 0.08; Thresholds.low := 0.03 |}.

(** [calculateEngagementRate(video)]. *)
Definition calculateEngagementRate (video : Video) : float :=
  let '{| likes := likes; comments := comments; shares := shares; views := views |} :=
    video.(stats) in
  let engagementActions := likes + comments + shares in
  if 0 <? views then engagementActions / views else 0.

(** The groups of [durationGroups]. *)
Module DurationGroup.
Record t := { count : float; totalEngagement : float; videos : list Video }.
End DurationGroup.

(** The value of [bestDuration]; the placeholder it starts from has no
    [sampleSize]. *)
Module BestDuration.
Record t := { duration : float; avgEngagement : float; sampleSize : option float }.
End BestDuration.

(** The groups of [timeSlots]. *)
Module TimeSlotGroup.
Record t := { count : float; totalEngagement : float; day : float; hour : float }.
End TimeSlotGroup.

(** An element of the result of [analyzePostingTimes]:
    [{...data, avgEngagement}]. *)
Module TimeSlot.
Record t := {
  count : float;
  totalEngagement : float;
  day : float;
  hour : float;
  avgEngagement : float
}.
End TimeSlot.

(** The groups of [hashtagStats] and of [musicStats]. *)
Module TagStats.
Record t := {
  count : float;
  totalEngagement : float;
  totalViews : float;
  videos : list string
}.
End TagStats.

Module HashtagResult.
Record t := {
  tag : string;
  avgEngagement : float;
  totalViews : float;
  useCount : float;
  performanceScore : float
}.
End HashtagResult.

Module MusicResult.
Record t := {
  music : string;
  avgEngagement : float;
  totalViews : float;
  useCount : float;
  performanceScore : float
}.
End MusicResult.

Module AnalysisResults.
Record t := {
  optimalDuration : BestDuration.t;
  bestPostingTimes : list TimeSlot.t;
  topHashtags : list HashtagResult.t;
  topMusic : list MusicResult.t
}.
End AnalysisResults.

Module Timing.
Record t := { bestTimes : list TimeSlot.t; recommendation : string }.
End Timing.

Module DurationAdvice.
Record t := { optimal : BestDuration.t; recommendation : string }.
End DurationAdvice.

Module HashtagAdvice.
Record t := { recommended : list HashtagResult.t; recommendation : string }.
End HashtagAdvice.

Module MusicAdvice.
Record t := { trending : list MusicResult.t; recommendation : string }.
End MusicAdvice.

Module Recommendations.
Record t := {
  timing : Timing.t;
  duration : DurationAdvice.t;
  hashtags : HashtagAdvice.t;
  music : MusicAdvice.t
}.
End Recommendations.

Module Batch.
Record t := {
  analysisResults : AnalysisResults.t;
  recommendations : Recommendations.t
}.
End Batch.

(** [analyzeDuration(videos)]: the grouping loop. *)
Definition durationGroups (videos : list Video) : M (JSObject DurationGroup.t) :=
  forEach videos
    (fun durationGroups video =>
       let duration := Math_floor video.(duration) in
       let engagement := calculateEngagementRate video in
       accumulate durationGroups (Number_toString duration)
         {| DurationGroup.count := 0;
            DurationGroup.totalEngagement := 0;
            DurationGroup.videos := [] |}
         (fun g =>
            {| DurationGroup.count := g.(DurationGroup.count) + 1;
               DurationGroup.totalEngagement :=
                 g.(DurationGroup.totalEngagement) + engagement;
               DurationGroup.videos := (g.(DurationGroup.videos) ++ [video])%list |})
         [ ("count", fun c => c + 1);
           ("totalEngagement", fun t => t + engagement) ]
         true)
    [].

Definition bestDuration_init : BestDuration.t :=
  {| BestDuration.duration := 0;
     BestDuration.avgEngagement := 0;
     BestDuration.sampleSize := None |}.

(** [analyzeDuration(videos)]: one step of the selection loop. *)
Definition bestDuration_step (bestDuration : BestDuration.t)
    (entry : string * DurationGroup.t) : BestDuration.t :=
  let '(duration, data) := entry in
  let avgEngagement :=
    data.(DurationGroup.totalEngagement) / data.(DurationGroup.count) in
  if bestDuration.(BestDuration.avgEngagement) <? avgEngagement then
    {| BestDuration.duration := parseInt duration;
       BestDuration.avgEngagement := avgEngagement;
       BestDuration.sampleSize := Some data.(DurationGroup.count) |}
  else bestDuration.

(** [analyzeDuration(videos)]. *)
Definition analyzeDuration (videos : list Video) : M BestDuration.t :=
  durationGroups <- durationGroups videos ;;
  ret (fold_left bestDuration_step (Object_entries durationGroups) bestDuration_init).

Section Host.

(** The offset of local time from UTC, in milliseconds, at a UTC time
    value: the host's time zone. *)
Variable LocalTZA : Z -> Z.

(** The host's approximation of the base-10 logarithm, where the
    language leaves the result to the implementation. *)
Variable log10_approx : float -> float.

Definition LocalTime (t : Z) : Z := (t + LocalTZA t)%Z.

(** [Date.prototype.getHours()]. *)
Definition getHours (date : option Z) : float :=
  match date with
  | None => nan
  | Some t => Number_of_Z ((LocalTime t / msPerHour) mod 24)
  end.

(** [Date.prototype.getDay()]. *)
Definition getDay (date : option Z) : float :=
  match date with
  | None => nan
  | Some t => Number_of_Z ((LocalTime t / msPerDay + 4) mod 7)
  end.

(** [Math.log10(x)]. *)
Definition Math_log10 (x : float) : float :=
  if is_nan x || (x =? infinity) then x
  else if x =? 1 then 0
  else if x =? 0 then neg_infinity
  else if x <? 0 then nan
  else log10_approx x.

(** [analyzePostingTimes(videos)]: the grouping loop. *)
Definition timeSlots (videos : list Video) : M (JSObject TimeSlotGroup.t) :=
  forEach videos
    (fun timeSlots video =>
       let postTime := Date_new video.(createTime) in
       let hour := getHours postTime in
       let dayOfWeek := getDay postTime in
       let timeSlotKey := Number_toString dayOfWeek ++ "-" ++ Number_toString hour in
       let engagement := calculateEngagementRate video in
       accumulate timeSlots timeSlotKey
         {| TimeSlotGroup.count := 0;
            TimeSlotGroup.totalEngagement := 0;
            TimeSlotGroup.day := dayOfWeek;
            TimeSlotGroup.hour := hour |}
         (fun g =>
            {| TimeSlotGroup.count := g.(TimeSlotGroup.count) + 1;
               TimeSlotGroup.totalEngagement :=
                 g.(TimeSlotGroup.totalEngagement) + engagement;
               TimeSlotGroup.day := g.(TimeSlotGroup.day);
               TimeSlotGroup.hour := g.(TimeSlotGroup.hour) |})
         [ ("count", fun c => c + 1);
           ("totalEngagement", fun t => t + engagement) ]
         false)
    [].

Definition timeSlot_of_entry (entry : string * TimeSlotGroup.t) : TimeSlot.t :=
  let '(key, data) := entry in
  {| TimeSlot.count := data.(TimeSlotGroup.count);
     TimeSlot.totalEngagement := data.(TimeSlotGroup.totalEngagement);
     TimeSlot.day := data.(TimeSlotGroup.day);
     TimeSlot.hour := data.(TimeSlotGroup.hour);
     TimeSlot.avgEngagement :=
       data.(TimeSlotGroup.totalEngagement) / data.(TimeSlotGroup.count) |}.

Definition by_avgEngagement (a b : TimeSlot.t) : float :=
  b.(TimeSlot.avgEngagement) - a.(TimeSlot.avgEngagement).

(** [analyzePostingTimes(videos)]. *)
Definition analyzePostingTimes (videos : list Video) : M (list TimeSlot.t) :=
  timeSlots <- timeSlots videos ;;
  ret (Array_slice0 5
         (Array_sort by_avgEngagement
            (map timeSlot_of_entry (Object_entries timeSlots)))).

Definition tagStats_init : TagStats.t :=
  {| TagStats.count := 0;
     TagStats.totalEngagement := 0;
     TagStats.totalViews := 0;
     TagStats.videos := [] |}.

(** The updates of one use of a hashtag or of a music track by [video]. *)
Definition tagStats_step (video : Video) (g : TagStats.t) : TagStats.t :=
  let engagement := calculateEngagementRate video in
  {| TagStats.count := g.(TagStats.count) + 1;
     TagStats.totalEngagement := g.(TagStats.totalEngagement) + engagement;
     TagStats.totalViews := g.(TagStats.totalViews) + video.(stats).(views);
     TagStats.videos := (g.(TagStats.videos) ++ [video.(id)])%list |}.

Definition tagStats_foreign (video : Video) : list (string * (float -> float)) :=
  let engagement := calculateEngagementRate video in
  [ ("count", fun c => c + 1);
    ("totalEngagement", fun t => t + engagement);
    ("totalViews", fun t => t + video.(stats).(views)) ].

(** [analyzeHashtags(videos)]: the grouping loops. *)
Definition hashtagStats (videos : list Video) : M (JSObject TagStats.t) :=
  forEach videos
    (fun hashtagStats video =>
       forEach video.(hashtags)
         (fun hashtagStats tag =>
            accumulate hashtagStats tag tagStats_init (tagStats_step video)
              (tagStats_foreign video) true)
         hashtagStats)
    [].

Definition hashtag_of_entry (entry : string * TagStats.t) : HashtagResult.t :=
  let '(tag, stats) := entry in
  {| HashtagResult.tag := tag;
     HashtagResult.avgEngagement :=
       stats.(TagStats.totalEngagement) / stats.(TagStats.count);
     HashtagResult.totalViews := stats.(TagStats.totalViews);
     HashtagResult.useCount := stats.(TagStats.count);
     HashtagResult.performanceScore :=
       (stats.(TagStats.totalEngagement) / stats.(TagStats.count))
       * Math_log10 stats.(TagStats.totalViews) |}.

Definition by_hashtag_score (a b : HashtagResult.t) : float :=
  b.(HashtagResult.performanceScore) - a.(HashtagResult.performanceScore).

(** [analyzeHashtags(videos)]. *)
Definition analyzeHashtags (videos : list Video) : M (list HashtagResult.t) :=
  hashtagStats <- hashtagStats videos ;;
  ret (Array_sort by_hashtag_score
         (map hashtag_of_entry (Object_entries hashtagStats))).

(** [analyzeMusic(videos)]: the grouping loop. *)
Definition musicStats (videos : list Video) : M (JSObject TagStats.t) :=
  forEach videos
    (fun musicStats video =>
       accumulate musicStats video.(music) tagStats_init (tagStats_step video)
         (tagStats_foreign video) true)
    [].

Definition music_of_entry (entry : string * TagStats.t) : MusicResult.t :=
  let '(music, stats) := entry in
  {| MusicResult.music := music;
     MusicResult.avgEngagement :=
       stats.(TagStats.totalEngagement) / stats.(TagStats.count);
     MusicResult.totalViews := stats.(TagStats.totalViews);
     MusicResult.useCount := stats.(TagStats.count);
     MusicResult.performanceScore :=
       (stats.(TagStats.totalEngagement) / stats.(TagStats.count))
       * Math_log10 stats.(TagStats.totalViews) |}.

Definition by_music_score (a b : MusicResult.t) : float :=
  b.(MusicResult.performanceScore) - a.(MusicResult.performanceScore).

(** [analyzeMusic(videos)]. *)
Definition analyzeMusic (videos : list Video) : M (list MusicResult.t) :=
  musicStats <- musicStats videos ;;
  ret (Array_sort by_music_score
         (map music_of_entry (Object_entries musicStats))).

Definition days : list string :=
  [ "dimanche"; "lundi"; "mardi"; "mercredi"; "jeudi"; "vendredi"; "samedi" ].

(** A value interpolated in a template literal; [undefined] prints as
    its name. *)
Definition interpolate (s : option string) : string :=
  match s with Some s => s | None => "undefined" end.

(** [formatTimeRecommendation(timeSlot)]; [None] is [undefined], whose
    [day] cannot be read. *)
Definition formatTimeRecommendation (timeSlot : option TimeSlot.t) : M string :=
  match timeSlot with
  | None => throw TypeError
  | Some timeSlot =>
      ret (interpolate (Array_get days timeSlot.(TimeSlot.day))
           ++ " à " ++ Number_toString timeSlot.(TimeSlot.hour) ++ "h00")
  end.

(** [generateRecommendations(analysisResults)]. *)
Definition generateRecommendations (analysisResults : AnalysisResults.t)
    : M Recommendations.t :=
  let bestPostingTimes := analysisResults.(AnalysisResults.bestPostingTimes) in
  let optimalDuration := analysisResults.(AnalysisResults.optimalDuration) in
  let bestTimes := Array_slice0 3 bestPostingTimes in
  formatted <- formatTimeRecommendation (nth_error bestPostingTimes 0) ;;
  ret {| Recommendations.timing :=
           {| Timing.bestTimes := bestTimes;
              Timing.recommendation := "Postez vos vidéos " ++ formatted |};
         Recommendations.duration :=
           {| DurationAdvice.optimal := optimalDuration;
              DurationAdvice.recommendation :=
                "Visez une durée de "
                ++ Number_toString optimalDuration.(BestDuration.duration)
                ++ " secondes pour un engagement optimal" |};
         Recommendations.hashtags :=
           {| HashtagAdvice.recommended :=
                Array_slice0 5 analysisResults.(AnalysisResults.topHashtags);
              HashtagAdvice.recommendation :=
                "Utilisez une combinaison de ces hashtags performants" |};
         Recommendations.music :=
           {| MusicAdvice.trending :=
                Array_slice0 3 analysisResults.(AnalysisResults.topMusic);
              MusicAdvice.recommendation :=
                "Ces musiques ont généré le plus d'engagement" |} |}.

(** [analyzeVideoBatch(videos)]; a thrown exception is the rejection of
    the promise the method returns. *)
Definition analyzeVideoBatch (videos : list Video) : M Batch.t :=
  optimalDuration <- analyzeDuration videos ;;
  bestPostingTimes <- analyzePostingTimes videos ;;
  topHashtags <- analyzeHashtags videos ;;
  topMusic <- analyzeMusic videos ;;
  let analysisResults :=
    {| AnalysisResults.optimalDuration := optimalDuration;
       AnalysisResults.bestPostingTimes := bestPostingTimes;
       AnalysisResults.topHashtags := topHashtags;
       AnalysisResults.topMusic := topMusic |} in
  recommendations <- generateRecommendations analysisResults ;;
  ret {| Batch.analysisResults := analysisResults;
         Batch.recommendations := recommendations |}.

End Host.

(** A host in the UTC time zone whose logarithm is exact on the powers of
    ten below [10^16] and the integer part of the logarithm elsewhere. *)
Definition utc (t : Z) : Z := 0%Z.

Definition log10_digits (x : float) : float :=
  match truncate x with
  | Some z =>
      if (1 <=? z)%Z
      then Number_of_Z (Z.of_nat (String.length (decimal (Z.to_N z))) - 1)
      else nan
  | None => nan
  end.

(** ** Reference definitions

    What the statements below compare the methods with: the tables and
    entries written out as plain functions of the input list. *)

(** A key that no plain object inherits a built-in under. *)
Definition safe_key (k : string) : bool :=
  negb (String.eqb k "__proto__")
  && negb (existsb (String.eqb k) Object_prototype_members).

(** No inherited name starts with a character below ["_"]. *)
Definition head_ok (s : string) : bool :=
  match s with
  | String c _ => (N_of_ascii c <? 95)%N
  | EmptyString => true
  end.

(** The update of a table by one pass through the loop body, when the
    key resolves to an own group or to nothing. *)
Definition upsert {G} (table : JSObject G) (key : string) (init : G) (step : G -> G)
    : JSObject G :=
  own_set table key (step (match own_get table key with Some g => g | None => init end)).

(** Every Number the realm holds is [NaN]: the state of the built-ins
    after any number of runs of the analyzer in a fresh realm. *)
Definition realm_ok (r : Realm) : bool :=
  forallb (fun '(_, _, v) => is_nan v) r.

(** A computation is steady when, from a realm the analyzer alone has
    run in, it leaves such a realm and has the outcome it has in a fresh
    realm. *)
Definition steady {A} (c : M A) : Prop :=
  forall r, realm_ok r = true ->
    realm_ok (fst (c r)) = true /\ snd (c r) = snd (c pristine).

Definition has_key {V} (o : JSObject V) (k : string) : bool :=
  match own_get o k with Some _ => true | None => false end.

Definition index_le {V} (a b : N * (string * V)) : Prop := (fst a <= fst b)%N.

(** *** Grouping *)

(** The distinct elements of a list of keys, in order of first
    occurrence. *)
Fixpoint first_seen (l : list string) : list string :=
  match l with
  | [] => []
  | k :: l' => k :: filter (fun k' => negb (String.eqb k' k)) (first_seen l')
  end.

Section Firsts.

Context {A : Type}.
Variable key : A -> string.

(** The elements that are the first of their key, in input order. *)
Fixpoint firsts (l : list A) : list A :=
  match l with
  | [] => []
  | x :: l' => x :: filter (fun y => negb (String.eqb (key y) (key x))) (firsts l')
  end.

End Firsts.

(** One pass through a loop body that groups [x] under [key x]. *)
Definition group_step {A G} (key : A -> string) (init : A -> G) (step : A -> G -> G)
    (table : JSObject G) (x : A) : JSObject G :=
  upsert table (key x) (init x) (step x).

(** The elements of the group of [k], in input order. *)
Definition members {A} (key : A -> string) (k : string) (l : list A) : list A :=
  filter (fun x => String.eqb (key x) k) l.

(** The group accumulated over a list of members: it starts from the
    initial group of the first one. *)
Definition group_of {A G} (init : A -> G) (step : A -> G -> G) (l : list A) : option G :=
  match l with
  | [] => None
  | x0 :: _ => Some (fold_left (fun g x => step x g) l (init x0))
  end.

(** The table of a whole pass over [l]. *)
Definition groups {A G} (key : A -> string) (init : A -> G) (step : A -> G -> G)
    (l : list A) : JSObject G :=
  fold_left (group_step key init step) l [].

(** *** Ranking *)

(** The comparator [(a, b) => score(b) - score(a)]. *)
Definition descending {A} (score : A -> float) (a b : A) : float := score b - score a.

(** [a] may stand before [b] in a list sorted by non-increasing score. *)
Definition ge_score {A} (score : A -> float) (a b : A) : Prop :=
  (score b <=? score a) = true.

(** *** Sums and counts *)

(** [0] incremented once per element. *)
Definition count_of {A} (l : list A) : float := fold_left (fun c _ => c + 1) l 0.

(** The engagement rates of the videos added up from [0], in order. *)
Definition sum_engagement (l : list Video) : float :=
  fold_left (fun a v => a + calculateEngagementRate v) l 0.

(** The view counts of the videos added up from [0], in order. *)
Definition sum_views (l : list Video) : float :=
  fold_left (fun a v => a + v.(stats).(views)) l 0.

(** The average engagement of a group of videos. *)
Definition average_engagement (l : list Video) : float :=
  sum_engagement l / count_of l.

(** A counter is well formed when it is a finite Number that is not
    negative. *)
Definition counter_ok (x : float) : bool := (0 <=? x) && (x <? infinity).

(** A video is well formed when its four counters are. *)
Definition well_formed (video : Video) : bool :=
  counter_ok video.(stats).(likes)
  && counter_ok video.(stats).(comments)
  && counter_ok video.(stats).(shares)
  && counter_ok video.(stats).(views).

(** *** Durations *)

(** The key of a video in [durationGroups]. *)
Definition duration_key (video : Video) : string :=
  Number_toString (Math_floor video.(duration)).

Definition durationGroup_init : DurationGroup.t :=
  {| DurationGroup.count := 0;
     DurationGroup.totalEngagement := 0;
     DurationGroup.videos := [] |}.

Definition durationGroup_step (video : Video) (g : DurationGroup.t) : DurationGroup.t :=
  {| DurationGroup.count := g.(DurationGroup.count) + 1;
     DurationGroup.totalEngagement :=
       g.(DurationGroup.totalEngagement) + calculateEngagementRate video;
     DurationGroup.videos := (g.(DurationGroup.videos) ++ [video])%list |}.

(** The table [durationGroups] after the grouping loop. *)
Definition duration_table (videos : list Video) : JSObject DurationGroup.t :=
  groups duration_key (fun _ => durationGroup_init) durationGroup_step videos.

Definition group_average (g : DurationGroup.t) : float :=
  g.(DurationGroup.totalEngagement) / g.(DurationGroup.count).

(** The value [bestDuration] takes when the group of an entry is
    selected. *)
Definition selected (entry : string * DurationGroup.t) : BestDuration.t :=
  {| BestDuration.duration := parseInt (fst entry);
     BestDuration.avgEngagement := group_average (snd entry);
     BestDuration.sampleSize := Some (snd entry).(DurationGroup.count) |}.

(** What the selection loop has established after a list of entries. *)
Definition selection (best : BestDuration.t) (entries : list (string * DurationGroup.t))
    : Prop :=
  (best = bestDuration_init
   /\ forall h, In h entries -> (0 <? group_average (snd h)) = false)
  \/
  (exists E1 e E2,
     entries = (E1 ++ e :: E2)%list
     /\ best = selected e
     /\ (0 <? group_average (snd e)) = true
     /\ (forall h, In h E1 -> (group_average (snd e) <=? group_average (snd h)) = false)
     /\ (forall h, In h E2 -> (group_average (snd e) <? group_average (snd h)) = false)).

(** The videos filed under the key of [video] in [durationGroups]. *)
Definition duration_group (videos : list Video) (video : Video) : list Video :=
  members duration_key (duration_key video) videos.

(** The videos of the same whole second as [video], in input order. *)
Definition same_second (videos : list Video) (video : Video) : list Video :=
  filter (fun v => Math_floor v.(duration) =? Math_floor video.(duration)) videos.

(** A duration from [0] to below [2^32 - 1]: its whole second is an
    array index. *)
Definition whole_second_index (video : Video) : bool :=
  (0 <=? video.(duration)) && (video.(duration) <? 4294967295).

(** The selection over the groups in the order in which they were first
    encountered: what the tie rule "the first group encountered wins"
    describes. *)
Definition analyzeDuration_first_encountered (videos : list Video) : BestDuration.t :=
  fold_left bestDuration_step (duration_table videos) bestDuration_init.

(** *** Posting times *)

(** The key of a video in [timeSlots]. *)
Definition slot_key (LocalTZA : Z -> Z) (video : Video) : string :=
  let postTime := Date_new video.(createTime) in
  Number_toString (getDay LocalTZA postTime) ++ "-"
    ++ Number_toString (getHours LocalTZA postTime).

Definition timeSlotGroup_init (LocalTZA : Z -> Z) (video : Video) : TimeSlotGroup.t :=
  let postTime := Date_new video.(createTime) in
  {| TimeSlotGroup.count := 0;
     TimeSlotGroup.totalEngagement := 0;
     TimeSlotGroup.day := getDay LocalTZA postTime;
     TimeSlotGroup.hour := getHours LocalTZA postTime |}.

Definition timeSlotGroup_step (video : Video) (g : TimeSlotGroup.t) : TimeSlotGroup.t :=
  {| TimeSlotGroup.count := g.(TimeSlotGroup.count) + 1;
     TimeSlotGroup.totalEngagement :=
       g.(TimeSlotGroup.totalEngagement) + calculateEngagementRate video;
     TimeSlotGroup.day := g.(TimeSlotGroup.day);
     TimeSlotGroup.hour := g.(TimeSlotGroup.hour) |}.

(** The table [timeSlots] after the grouping loop. *)
Definition slot_table (LocalTZA : Z -> Z) (videos : list Video)
    : JSObject TimeSlotGroup.t :=
  groups (slot_key LocalTZA) (timeSlotGroup_init LocalTZA) timeSlotGroup_step videos.

(** The entry of the slot that [video] is the first to fall in: day and
    hour of the video, count, summed and average engagement of the slot's
    videos. *)
Definition slot_entry (LocalTZA : Z -> Z) (videos : list Video) (video : Video)
    : TimeSlot.t :=
  let postTime := Date_new video.(createTime) in
  let l := members (slot_key LocalTZA) (slot_key LocalTZA video) videos in
  {| TimeSlot.count := count_of l;
     TimeSlot.totalEngagement := sum_engagement l;
     TimeSlot.day := getDay LocalTZA postTime;
     TimeSlot.hour := getHours LocalTZA postTime;
     TimeSlot.avgEngagement := sum_engagement l / count_of l |}.

(** The entries of the slots, in order of first occurrence of the slot. *)
Definition slot_entries (LocalTZA : Z -> Z) (videos : list Video) : list TimeSlot.t :=
  map (slot_entry LocalTZA videos) (firsts (slot_key LocalTZA) videos).

(** The slot of a video: day of the week and hour of its post time. *)
Definition slot_of_video (LocalTZA : Z -> Z) (video : Video) : float * float :=
  let postTime := Date_new video.(createTime) in
  (getDay LocalTZA postTime, getHours LocalTZA postTime).

Definition slot_of_entry (e : TimeSlot.t) : float * float :=
  (e.(TimeSlot.day), e.(TimeSlot.hour)).

(** *** Hashtags and music *)

(** The uses of hashtags in a batch: a video once for each element of its
    tag list. *)
Definition tag_uses (videos : list Video) : list (Video * string) :=
  flat_map (fun v => map (pair v) v.(hashtags)) videos.

(** The table [hashtagStats] after the grouping loops. *)
Definition hashtag_table (videos : list Video) : JSObject TagStats.t :=
  groups snd (fun _ => tagStats_init) (fun u => tagStats_step (fst u)) (tag_uses videos).

(** The table [musicStats] after the grouping loop. *)
Definition music_table (videos : list Video) : JSObject TagStats.t :=
  groups music (fun _ => tagStats_init) tagStats_step videos.

(** The videos that use a hashtag, in input order, each as many times as
    its tag list holds the hashtag. *)
Definition uses_of (tag : string) (videos : list Video) : list Video :=
  flat_map (fun v => repeat v (count_occ string_dec v.(hashtags) tag)) videos.

(** The videos that play a music track, in input order. *)
Definition plays_of (track : string) (videos : list Video) : list Video :=
  filter (fun v => String.eqb v.(music) track) videos.

(** The statistics of a group of uses, as the loop accumulates them. *)
Definition tally (l : list Video) : TagStats.t :=
  {| TagStats.count := count_of l;
     TagStats.totalEngagement := sum_engagement l;
     TagStats.totalViews := sum_views l;
     TagStats.videos := map id l |}.

(** The entry the ranking is to hold for a hashtag: the average of the
    summed engagement over the number of uses, the summed views, the
    number of uses, and the score
    [avgEngagement * log10(totalViews)]. *)
Definition ranked_hashtag (log10_approx : float -> float) (videos : list Video)
    (tag : string) : HashtagResult.t :=
  let l := uses_of tag videos in
  {| HashtagResult.tag := tag;
     HashtagResult.avgEngagement := sum_engagement l / count_of l;
     HashtagResult.totalViews := sum_views l;
     HashtagResult.useCount := count_of l;
     HashtagResult.performanceScore :=
       (sum_engagement l / count_of l) * Math_log10 log10_approx (sum_views l) |}.

(** The entry the ranking is to hold for a music track. *)
Definition ranked_music (log10_approx : float -> float) (videos : list Video)
    (track : string) : MusicResult.t :=
  let l := plays_of track videos in
  {| MusicResult.music := track;
     MusicResult.avgEngagement := sum_engagement l / count_of l;
     MusicResult.totalViews := sum_views l;
     MusicResult.useCount := count_of l;
     MusicResult.performanceScore :=
       (sum_engagement l / count_of l) * Math_log10 log10_approx (sum_views l) |}.

(** *** Integers as binary64 values *)

(** The significand and exponent of a positive integer below [2^53]. *)
Definition int_mantissa (p : positive) : positive :=
  fst (shl_align p 0 (Zpos (digits2_pos p) - 53)%Z).

Definition int_exponent (p : positive) : Z := (Zpos (digits2_pos p) - 53)%Z.

Definition SFnonneg (x : spec_float) : Prop := SFleb (S754_zero false) x = true.

(** ** Sample inputs *)

(** The video of the scenario: posted on Monday 8 January 2024 at 14:00
    UTC. *)
Definition monday_video : Video :=
  {| id := "v1";
     stats := {| likes := 10; comments := 5; shares := 5; views := 100 |};
     duration := 15.4;
     createTime := 1704722400000;
     hashtags := ["a"; "b"];
     music := "trackX" |}.

Definition tuesday_video : Video :=
  {| id := "v2";
     stats := {| likes := 30; comments := 0; shares := 2; views := 1000 |};
     duration := 12.9;
     createTime := 1704790800000;
     hashtags := ["b"; "b"; "c"];
     music := "trackY" |}.

Definition unseen_video : Video :=
  {| id := "v0";
     stats := {| likes := 3; comments := 1; shares := 0; views := 0 |};
     duration := 15;
     createTime := 1704722400000;
     hashtags := ["a"];
     music := "trackX" |}.

Definition small_video : Video :=
  {| id := "x";
     stats := {| likes := 1; comments := 0; shares := 0; views := 100 |};
     duration := 30;
     createTime := 1704722400000;
     hashtags := ["x"];
     music := "x" |}.

Definition unseen_tagged_video : Video :=
  {| id := "y";
     stats := {| likes := 0; comments := 0; shares := 0; views := 0 |};
     duration := 30;
     createTime := 1704722400000;
     hashtags := ["y"];
     music := "y" |}.

Definition popular_video : Video :=
  {| id := "z";
     stats := {| likes := 100; comments := 0; shares := 0; views := 1000 |};
     duration := 30;
     createTime := 1704722400000;
     hashtags := ["z"];
     music := "z" |}.

Definition long_video : Video :=
  {| id := "long";
     stats := {| likes := 1; comments := 0; shares := 0; views := 2 |};
     duration := 20;
     createTime := 1704722400000;
     hashtags := [];
     music := "m" |}.

Definition short_video : Video :=
  {| id := "short";
     stats := {| likes := 1; comments := 0; shares := 0; views := 2 |};
     duration := 10;
     createTime := 1704722400000;
     hashtags := [];
     music := "m" |}.

(** A slot on a Monday at 14:00. *)
Definition monday_slot : TimeSlot.t :=
  {| TimeSlot.count := 1;
     TimeSlot.totalEngagement := 0.2;
     TimeSlot.day := 1;
     TimeSlot.hour := 14;
     TimeSlot.avgEngagement := 0.2 |}.

(** A video whose hashtag and music identifier name inherited
    properties. *)
Definition inherited_name_video : Video :=
  {| id := "w";
     stats := {| likes := 10; comments := 5; shares := 5; views := 100 |};
     duration := 1;
     createTime := 1704722400000;
     hashtags := ["constructor"];
     music := "__proto__" |}.

(** * Facts *)

(** ** Binary64 facts

    Facts about the primitive operations that the analysis of the
    program needs, each derived from the specification of the
    operation over [spec_float]. *)
Module F64.

Local Open Scope Z_scope.

Ltac sf_cases :=
  repeat match goal with
  | x : spec_float |- _ => destruct x as [[|]|[|]| |[|] ? ?]
  end.

Ltac cmp_cases :=
  repeat match goal with
  | |- context [Z.compare ?a ?b] => destruct (Z.compare_spec a b)
  | H : context [Z.compare ?a ?b] |- _ => destruct (Z.compare_spec a b)
  | |- context [Pos.compare_cont Eq ?a ?b] =>
      change (Pos.compare_cont Eq a b) with (Pos.compare a b);
      destruct (Pos.compare_spec a b)
  | H : context [Pos.compare_cont Eq ?a ?b] |- _ =>
      change (Pos.compare_cont Eq a b) with (Pos.compare a b) in H;
      destruct (Pos.compare_spec a b)
  end.

(** Closes a goal about comparisons of [spec_float]s by enumeration of
    the classes of the operands. *)
Ltac sf_order :=
  unfold SFeqb, SFleb, SFltb, SFcompare in *; sf_cases; intros;
  try discriminate; try reflexivity; try congruence;
  cmp_cases; simpl in *;
  try discriminate; try reflexivity; try congruence; try lia.

(** *** Order on [spec_float] *)

Lemma SFleb_trans x y z :
  SFleb x y = true -> SFleb y z = true -> SFleb x z = true.
Proof. sf_order. Qed.

Lemma SFltb_false_leb x y :
  x <> S754_nan -> y <> S754_nan -> SFltb x y = false -> SFleb y x = true.
Proof. sf_order. Qed.

Lemma SFltb_leb x y : SFltb x y = true -> SFleb x y = true.
Proof. sf_order. Qed.

Lemma SFeqb_class x y v :
  SFeqb x v = true -> SFeqb y v = true -> SFltb x y = false.
Proof. sf_order. Qed.

Lemma SFeqb_zero_not_gt x :
  SFeqb x (S754_zero false) = true -> SFltb (S754_zero false) x = false.
Proof. sf_order. Qed.

Lemma SFeqb_refl_iff x : SFeqb x x = match x with S754_nan => false | _ => true end.
Proof.
  destruct x as [[|]|[|]| |[|] m e]; try reflexivity;
    unfold SFeqb, SFcompare; rewrite Z.compare_refl;
    change (Pos.compare_cont Eq m m) with (Pos.compare m m);
    rewrite Pos.compare_refl; reflexivity.
Qed.

(** *** Rounding keeps the sign of an exact result *)

Lemma digits2_pos_spec (m : positive) :
  2 ^ (Zpos (digits2_pos m) - 1) <= Zpos m < 2 ^ Zpos (digits2_pos m).
Proof.
  induction m as [m IH|m IH|]; cbn [digits2_pos].
  - rewrite Pos2Z.inj_succ.
    replace (Z.succ (Zpos (digits2_pos m)) - 1)
      with (Z.succ (Zpos (digits2_pos m) - 1)) by lia.
    rewrite !Z.pow_succ_r by lia. lia.
  - rewrite Pos2Z.inj_succ.
    replace (Z.succ (Zpos (digits2_pos m)) - 1)
      with (Z.succ (Zpos (digits2_pos m) - 1)) by lia.
    rewrite !Z.pow_succ_r by lia. lia.
  - simpl. lia.
Qed.

Lemma canonical_bounds m e :
  canonical_mantissa prec emax m e = true ->
  Zpos m < 2 ^ 53 /\ -1074 <= e /\ (-1074 < e -> 2 ^ 52 <= Zpos m).
Proof.
  unfold canonical_mantissa, fexp, SpecFloat.emin, prec, emax. intros H.
  apply Z.eqb_eq in H.
  pose proof (digits2_pos_spec m) as [Hlo Hhi].
  set (d := Zpos (digits2_pos m)) in *.
  assert (Hd : d <= 53) by lia.
  repeat split.
  - eapply Z.lt_le_trans; [exact Hhi|]. apply Z.pow_le_mono_r; lia.
  - lia.
  - intros He. assert (E : d = 53) by lia. rewrite E in Hlo. exact Hlo.
Qed.

Lemma shl_align_fst m e e' :
  e' <= e -> Zpos (fst (shl_align m e e')) = Zpos m * 2 ^ (e - e').
Proof.
  intros H. unfold shl_align.
  destruct (e' - e) as [|d|d] eqn:E; try lia.
  - replace (e - e') with 0 by lia. simpl. lia.
  - cbn [fst]. replace (e - e') with (Zpos d) by lia.
    clear. revert m. induction d using Pos.peano_ind; intros m.
    + simpl. lia.
    + rewrite Pos.iter_succ. rewrite Pos2Z.inj_succ, Z.pow_succ_r by lia.
      rewrite Pos2Z.inj_xO, IHd. lia.
Qed.

Lemma shr_1_m mrs : 0 <= shr_m mrs -> shr_m (shr_1 mrs) = shr_m mrs / 2.
Proof.
  destruct mrs as [m r s]. cbn [shr_m]. intros H.
  destruct m as [|[p|p|]|p]; cbn [shr_1 shr_m]; try lia; try reflexivity.
  - apply Z.div_unique with 1; lia.
  - apply Z.div_unique with 0; lia.
Qed.

Lemma iter_shr_m p : forall mrs, 0 <= shr_m mrs ->
  shr_m (iter_pos shr_1 p mrs) = shr_m mrs / 2 ^ Zpos p.
Proof.
  induction p as [p IH|p IH|]; intros mrs H; cbn [iter_pos].
  - assert (H1 : 0 <= shr_m (shr_1 mrs))
      by (rewrite shr_1_m by assumption; apply Z.div_pos; lia).
    assert (H2 : 0 <= shr_m (iter_pos shr_1 p (shr_1 mrs)))
      by (rewrite IH by assumption; apply Z.div_pos; lia).
    rewrite IH, IH, shr_1_m by assumption.
    rewrite !Z.div_div by lia. f_equal.
    replace (Zpos p~1) with (1 + Zpos p + Zpos p) by lia.
    rewrite !Z.pow_add_r by lia. lia.
  - assert (H2 : 0 <= shr_m (iter_pos shr_1 p mrs))
      by (rewrite IH by assumption; apply Z.div_pos; lia).
    rewrite IH, IH by assumption.
    rewrite !Z.div_div by lia. f_equal.
    replace (Zpos p~0) with (Zpos p + Zpos p) by lia.
    rewrite !Z.pow_add_r by lia. lia.
  - rewrite shr_1_m by assumption. reflexivity.
Qed.

Lemma shr_record_of_loc_m m l : shr_m (shr_record_of_loc m l) = m.
Proof. destruct l as [|[]]; reflexivity. Qed.

Lemma Zdigits2_spec m : 0 < m -> 2 ^ (Zdigits2 m - 1) <= m < 2 ^ Zdigits2 m.
Proof. destruct m; try lia. intros _. apply digits2_pos_spec. Qed.

Lemma shr_fexp_nonneg m e l :
  0 <= m -> 0 <= shr_m (fst (shr_fexp prec emax m e l)).
Proof.
  intros H. unfold shr_fexp, shr.
  destruct (fexp prec emax (Zdigits2 m + e) - e) as [|p|p]; cbn [fst];
    rewrite ?iter_shr_m; rewrite ?shr_record_of_loc_m; try assumption.
  apply Z.div_pos; lia.
Qed.

(** No underflow to zero: at an exponent of the format a positive
    significand keeps at least its leading digit. *)
Lemma shr_fexp_pos m e l :
  0 < m -> -1074 <= e ->
  0 < shr_m (fst (shr_fexp prec emax m e l)) /\
  -1074 <= snd (shr_fexp prec emax m e l).
Proof.
  intros H He. unfold shr_fexp, shr.
  pose proof (Zdigits2_spec m H) as [Hlo Hhi].
  destruct (fexp prec emax (Zdigits2 m + e) - e) as [|p|p] eqn:E; cbn [fst snd];
    rewrite ?iter_shr_m; rewrite ?shr_record_of_loc_m; try lia.
  unfold fexp, SpecFloat.emin, prec, emax in E.
  assert (Hp : Zpos p = Zdigits2 m - 53) by lia.
  split; [|lia].
  apply Z.div_str_pos. split; [lia|].
  eapply Z.le_trans; [|exact Hlo]. apply Z.pow_le_mono_r; lia.
Qed.

Lemma round_nearest_even_ge m l : m <= round_nearest_even m l.
Proof. destruct l as [|[]]; simpl; try lia. destruct (Z.even m); lia. Qed.

Lemma binary_round_aux_sign s m e l :
  0 <= m ->
  match binary_round_aux prec emax s m e l with
  | S754_zero s' | S754_infinity s' | S754_finite s' _ _ => s' = s
  | S754_nan => False
  end.
Proof.
  intros H. unfold binary_round_aux.
  pose proof (shr_fexp_nonneg m e l H) as H1.
  destruct (shr_fexp prec emax m e l) as [mrs' e']. cbn [fst] in H1.
  pose proof (round_nearest_even_ge (shr_m mrs') (loc_of_shr_record mrs')) as H2.
  set (m2 := round_nearest_even (shr_m mrs') (loc_of_shr_record mrs')) in *.
  assert (H3 : 0 <= m2) by lia.
  pose proof (shr_fexp_nonneg m2 e' loc_Exact H3) as H4.
  destruct (shr_fexp prec emax m2 e' loc_Exact) as [mrs'' e'']. cbn [fst] in H4.
  destruct (shr_m mrs''); try lia; try reflexivity.
  destruct (e'' <=? emax - prec); reflexivity.
Qed.

Lemma binary_round_aux_pos s m e l :
  0 < m -> -1074 <= e ->
  match binary_round_aux prec emax s m e l with
  | S754_infinity s' | S754_finite s' _ _ => s' = s
  | _ => False
  end.
Proof.
  intros H He. unfold binary_round_aux.
  pose proof (shr_fexp_pos m e l H He) as [H1 He1].
  destruct (shr_fexp prec emax m e l) as [mrs' e']. cbn [fst snd] in H1, He1.
  pose proof (round_nearest_even_ge (shr_m mrs') (loc_of_shr_record mrs')) as H2.
  set (m2 := round_nearest_even (shr_m mrs') (loc_of_shr_record mrs')) in *.
  assert (H3 : 0 < m2) by lia.
  pose proof (shr_fexp_pos m2 e' loc_Exact H3 He1) as [H4 _].
  destruct (shr_fexp prec emax m2 e' loc_Exact) as [mrs'' e'']. cbn [fst] in H4.
  destruct (shr_m mrs''); try lia.
  destruct (e'' <=? emax - prec); reflexivity.
Qed.

Lemma binary_round_pos s m e :
  -1074 <= e ->
  match binary_round prec emax s m e with
  | S754_infinity s' | S754_finite s' _ _ => s' = s
  | _ => False
  end.
Proof.
  intros He. unfold binary_round.
  destruct (shl_align m e _) as [mz ez] eqn:E.
  apply binary_round_aux_pos; [lia|].
  unfold shl_align in E.
  destruct (fexp prec emax (Zpos (digits2_pos m) + e) - e) eqn:E2;
    inversion E; subst; try lia.
  unfold fexp, SpecFloat.emin, prec, emax. lia.
Qed.

Lemma SFltb_zero_normalize D e :
  -1074 <= e ->
  SFltb (S754_zero false) (binary_normalize prec emax D e false) = (0 <? D).
Proof.
  intros He. destruct D as [|p|p]; cbn [binary_normalize].
  - reflexivity.
  - pose proof (binary_round_pos false p e He) as H.
    destruct (binary_round prec emax false p e) as [| | |s m' e'];
      try contradiction; subst; reflexivity.
  - pose proof (binary_round_pos true p e He) as H.
    destruct (binary_round prec emax true p e) as [| | |s m' e'];
      try contradiction; subst; reflexivity.
Qed.

Lemma pow2_ge_2 n : 0 < n -> 2 <= 2 ^ n.
Proof. intros H. change 2 with (2 ^ 1) at 1. apply Z.pow_le_mono_r; lia. Qed.

(** The sign of the exact difference of two valid finite numbers agrees
    with their comparison. *)
Lemma aligned_diff_sign sx mx ex sy my ey :
  canonical_mantissa prec emax mx ex = true ->
  canonical_mantissa prec emax my ey = true ->
  let ez := Z.min ey ex in
  let D := cond_Zopp sy (Zpos (fst (shl_align my ey ez)))
           - cond_Zopp sx (Zpos (fst (shl_align mx ex ez))) in
  (0 <? D) = SFltb (S754_finite sx mx ex) (S754_finite sy my ey).
Proof.
  intros Hx Hy ez D.
  apply canonical_bounds in Hx, Hy.
  destruct Hx as (Hx1 & Hx2 & Hx3), Hy as (Hy1 & Hy2 & Hy3).
  assert (Ez : ez <= ex /\ ez <= ey) by (unfold ez; lia).
  subst D. rewrite !shl_align_fst by lia.
  unfold SFltb, SFcompare.
  change (Pos.compare_cont Eq mx my) with (Pos.compare mx my).
  destruct (Z.compare_spec ex ey) as [E|E|E].
  - subst ey. replace ez with ex by (unfold ez; lia).
    rewrite Z.sub_diag, !Z.mul_1_r.
    destruct (Pos.compare_spec mx my) as [M|M|M], sx, sy;
      cbn [cond_Zopp CompOpp];
      (apply Z.ltb_lt || apply Z.ltb_ge); subst; lia.
  - replace ez with ex by (unfold ez; lia). rewrite Z.sub_diag, Z.mul_1_r.
    pose proof (pow2_ge_2 (ey - ex) ltac:(lia)) as P.
    specialize (Hy3 ltac:(lia)).
    destruct sx, sy; cbn [cond_Zopp CompOpp];
      (apply Z.ltb_lt || apply Z.ltb_ge); nia.
  - replace ez with ey by (unfold ez; lia). rewrite Z.sub_diag, Z.mul_1_r.
    pose proof (pow2_ge_2 (ex - ey) ltac:(lia)) as P.
    specialize (Hx3 ltac:(lia)).
    destruct sx, sy; cbn [cond_Zopp CompOpp];
      (apply Z.ltb_lt || apply Z.ltb_ge); nia.
Qed.

Lemma SF64sub_sign x y :
  valid_binary x = true -> valid_binary y = true ->
  SFltb (S754_zero false) (SF64sub y x) = SFltb x y.
Proof.
  intros Hx Hy.
  destruct x as [sx|sx| |sx mx ex], y as [sy|sy| |sy my ey];
    try reflexivity;
    try (destruct sx; try destruct sy; reflexivity);
    try (destruct sy; try destruct sx; reflexivity).
  cbn [valid_binary] in Hx, Hy. unfold bounded in Hx, Hy.
  apply andb_true_iff in Hx, Hy. destruct Hx as [Hx _], Hy as [Hy _].
  unfold SF64sub, SFsub.
  pose proof (canonical_bounds _ _ Hx) as (_ & Bx & _).
  pose proof (canonical_bounds _ _ Hy) as (_ & By & _).
  rewrite SFltb_zero_normalize by lia.
  apply aligned_diff_sign; assumption.
Qed.

(** *** The primitive operations *)

Local Open Scope float_scope.

Ltac to_spec :=
  unfold is_nan in *;
  repeat first
    [ rewrite eqb_spec in * | rewrite ltb_spec in * | rewrite leb_spec in * ];
  repeat match goal with
  | |- context [Prim2SF ?x] =>
      is_var x; let s := fresh "s" in
      generalize (Prim2SF x); intros s; try clear x
  end.

(** [y - x] is positive exactly when [x < y]: a comparator written as a
    difference orders Numbers as [<] does. *)
Lemma sub_pos_iff (x y : float) : (0 <? y - x) = (x <? y).
Proof.
  rewrite !ltb_spec, sub_spec.
  apply SF64sub_sign; apply Prim2SF_valid.
Qed.

Lemma is_nan_spec x :
  is_nan x = match Prim2SF x with S754_nan => true | _ => false end.
Proof.
  unfold is_nan. rewrite eqb_spec, SFeqb_refl_iff.
  destruct (Prim2SF x); reflexivity.
Qed.

Lemma ltb_false_leb x y :
  is_nan x = false -> is_nan y = false -> (x <? y) = false -> (y <=? x) = true.
Proof.
  rewrite !is_nan_spec, ltb_spec, leb_spec. intros Hx Hy.
  apply SFltb_false_leb; intros E; rewrite E in *; discriminate.
Qed.

Lemma ltb_leb x y : (x <? y) = true -> (x <=? y) = true.
Proof. rewrite ltb_spec, leb_spec. apply SFltb_leb. Qed.

Lemma leb_trans x y z : (x <=? y) = true -> (y <=? z) = true -> (x <=? z) = true.
Proof. rewrite !leb_spec. apply SFleb_trans. Qed.

Lemma eqb_class x y v :
  (x =? v) = true -> (y =? v) = true -> (x <? y) = false.
Proof. rewrite !eqb_spec, ltb_spec. apply SFeqb_class. Qed.

Lemma eqb_zero_not_gt x : (x =? 0) = true -> (0 <? x) = false.
Proof. rewrite eqb_spec, ltb_spec. apply SFeqb_zero_not_gt. Qed.

Local Close Scope Z_scope.

(** *** More of the order *)

Lemma SFlt_not_lt_le a x h :
  SFltb a x = true -> SFltb a h = false -> SFleb x h = false.
Proof. sf_order. Qed.

Lemma SFlt_not_le_le e x h :
  SFltb e x = true -> SFleb e h = false -> SFleb x h = false.
Proof. sf_order. Qed.

Lemma SFlt_not_ge e x : SFltb e x = true -> SFleb x e = false.
Proof. sf_order. Qed.

Lemma SFlt_trans a b c : SFltb a b = true -> SFltb b c = true -> SFltb a c = true.
Proof. sf_order. Qed.

Lemma SFeqb_not_le_false x y : SFeqb x y = true -> SFleb y x = true.
Proof. sf_order. Qed.

Lemma lt_not_lt_le a x h :
  (a <? x) = true -> (a <? h) = false -> (x <=? h) = false.
Proof. rewrite !ltb_spec, leb_spec. apply SFlt_not_lt_le. Qed.

Lemma lt_not_le_le e x h :
  (e <? x) = true -> (e <=? h) = false -> (x <=? h) = false.
Proof. rewrite ltb_spec, !leb_spec. apply SFlt_not_le_le. Qed.

Lemma lt_not_ge e x : (e <? x) = true -> (x <=? e) = false.
Proof. rewrite ltb_spec, leb_spec. apply SFlt_not_ge. Qed.

Lemma ltb_trans a b c : (a <? b) = true -> (b <? c) = true -> (a <? c) = true.
Proof. rewrite !ltb_spec. apply SFlt_trans. Qed.

Lemma eqb_leb x y : (x =? y) = true -> (y <=? x) = true.
Proof. rewrite eqb_spec, leb_spec. apply SFeqb_not_le_false. Qed.

(** *** Zeros, infinities and [NaN] *)

Lemma Prim2SF_zero : Prim2SF 0 = S754_zero false.
Proof. reflexivity. Qed.

Lemma Prim2SF_infinity : Prim2SF infinity = S754_infinity false.
Proof. reflexivity. Qed.

Lemma Prim2SF_neg_infinity : Prim2SF neg_infinity = S754_infinity true.
Proof. reflexivity. Qed.

Lemma Prim2SF_one : Prim2SF 1 = S754_finite false 4503599627370496 (-52).
Proof. reflexivity. Qed.

(** The class of zeros is closed under addition. *)
Lemma add_zero a x : (a =? 0) = true -> (x =? 0) = true -> (a + x =? 0) = true.
Proof.
  rewrite !eqb_spec, add_spec, Prim2SF_zero.
  destruct (Prim2SF a) as [[|]|[|]| |[|] ? ?], (Prim2SF x) as [[|]|[|]| |[|] ? ?];
    try discriminate; reflexivity.
Qed.

(** A zero divided by anything is a zero or [NaN], never positive. *)
Lemma div_zero_not_pos t c : (t =? 0) = true -> (0 <? t / c) = false.
Proof.
  rewrite eqb_spec, ltb_spec, div_spec, Prim2SF_zero.
  destruct (Prim2SF t) as [[|]|[|]| |[|] ? ?], (Prim2SF c) as [[|]|[|]| |[|] ? ?];
    try discriminate; reflexivity.
Qed.

Lemma is_infinity_spec x :
  is_infinity x = match Prim2SF x with S754_infinity _ => true | _ => false end.
Proof.
  unfold is_infinity. rewrite eqb_spec, abs_spec, Prim2SF_infinity.
  destruct (Prim2SF x) as [[|]|[|]| |[|] ? ?]; reflexivity.
Qed.

(** A product by [-Infinity] is [NaN] or an infinity. *)
Lemma mul_neg_infinity_not_finite a : is_finite (a * neg_infinity) = false.
Proof.
  unfold is_finite. rewrite is_nan_spec, is_infinity_spec, mul_spec, Prim2SF_neg_infinity.
  destruct (Prim2SF a) as [[|]|[|]| |[|] ? ?]; reflexivity.
Qed.

Lemma eqb_zero_cases x :
  (x =? 0) = true ->
  is_nan x = false /\ (x =? infinity) = false /\ (x =? 1) = false.
Proof.
  rewrite is_nan_spec, !eqb_spec, Prim2SF_zero, Prim2SF_infinity, Prim2SF_one.
  destruct (Prim2SF x) as [[|]|[|]| |[|] ? ?]; try discriminate; auto.
Qed.

(** [NaN] is absorbing for addition. *)
Lemma add_nan_l a x : is_nan a = true -> is_nan (a + x) = true.
Proof.
  rewrite !is_nan_spec, add_spec.
  destruct (Prim2SF a) as [[|]|[|]| |[|] ? ?]; try discriminate; reflexivity.
Qed.

(** *** Strict order *)

Lemma SFleb_false_ltb x y : SFleb x y = false -> SFltb x y = false.
Proof. sf_order. Qed.

Lemma SFltb_irrefl x : SFltb x x = false.
Proof.
  destruct x as [[|]|[|]| |[|] m e]; try reflexivity;
    unfold SFltb, SFcompare; rewrite Z.compare_refl;
    change (Pos.compare_cont Eq m m) with (Pos.compare m m);
    rewrite Pos.compare_refl; reflexivity.
Qed.

Lemma leb_false_ltb x y : (x <=? y) = false -> (x <? y) = false.
Proof. rewrite leb_spec, ltb_spec. apply SFleb_false_ltb. Qed.

Lemma ltb_irrefl x : (x <? x) = false.
Proof. rewrite ltb_spec. apply SFltb_irrefl. Qed.

(** *** Integers below [2^53] *)

Local Open Scope Z_scope.

Lemma digits_unique a b m :
  2 ^ (a - 1) <= m < 2 ^ a -> 2 ^ (b - 1) <= m < 2 ^ b -> 0 < a -> 0 < b -> a = b.
Proof.
  intros [A1 A2] [B1 B2] Ha Hb.
  assert (a - 1 < b) by (apply (Z.pow_lt_mono_r_iff 2); lia).
  assert (b - 1 < a) by (apply (Z.pow_lt_mono_r_iff 2); lia).
  lia.
Qed.

Lemma digits2_pos_shift p k q :
  0 <= k -> Zpos q = Zpos p * 2 ^ k ->
  Zpos (digits2_pos q) = Zpos (digits2_pos p) + k.
Proof.
  intros Hk E.
  pose proof (digits2_pos_spec p) as [P1 P2]. pose proof (digits2_pos_spec q) as Q.
  assert (B : 2 ^ (Zpos (digits2_pos p) + k - 1) <= Zpos q
              < 2 ^ (Zpos (digits2_pos p) + k)).
  { rewrite E.
    replace (Zpos (digits2_pos p) + k - 1) with (Zpos (digits2_pos p) - 1 + k) by lia.
    rewrite !Z.pow_add_r by lia.
    split; [apply Z.mul_le_mono_nonneg_r|apply Z.mul_lt_mono_pos_r]; lia. }
  apply (digits_unique _ _ (Zpos q) Q B); lia.
Qed.

(** A canonical significand is left as it is by rounding. *)
Lemma binary_round_aux_canonical s m e :
  canonical_mantissa prec emax m e = true -> e <= 971 ->
  binary_round_aux prec emax s (Zpos m) e loc_Exact = S754_finite s m e.
Proof.
  unfold canonical_mantissa. intros C He. apply Z.eqb_eq in C.
  unfold binary_round_aux, shr_fexp. cbn [Zdigits2]. rewrite C, Z.sub_diag.
  cbn [shr shr_record_of_loc shr_m loc_of_shr_record round_nearest_even Zdigits2].
  rewrite C, Z.sub_diag. cbn [shr shr_m].
  replace (e <=? emax - prec) with true; [reflexivity|].
  symmetry. apply Z.leb_le. unfold emax, prec. lia.
Qed.

Lemma int_mantissa_value p :
  Zpos p < 2 ^ 53 ->
  Zpos (digits2_pos p) <= 53
  /\ Zpos (int_mantissa p) = Zpos p * 2 ^ (53 - Zpos (digits2_pos p)).
Proof.
  intros H. pose proof (digits2_pos_spec p) as [P1 P2].
  assert (D : Zpos (digits2_pos p) <= 53).
  { destruct (Z_le_gt_dec (Zpos (digits2_pos p)) 53) as [L|G]; [exact L|].
    exfalso. assert (2 ^ 53 <= 2 ^ (Zpos (digits2_pos p) - 1))
      by (apply Z.pow_le_mono_r; lia). lia. }
  split; [exact D|]. unfold int_mantissa. rewrite shl_align_fst by lia.
  f_equal. f_equal. lia.
Qed.

Lemma int_canonical p :
  Zpos p < 2 ^ 53 -> canonical_mantissa prec emax (int_mantissa p) (int_exponent p) = true.
Proof.
  intros H. destruct (int_mantissa_value p H) as [D E].
  unfold canonical_mantissa, int_exponent. apply Z.eqb_eq.
  rewrite (digits2_pos_shift p (53 - Zpos (digits2_pos p)) _ ltac:(lia) E).
  unfold fexp, SpecFloat.emin, prec, emax. lia.
Qed.

Lemma binary_normalize_int p :
  Zpos p < 2 ^ 53 ->
  binary_normalize prec emax (Zpos p) 0 false
  = S754_finite false (int_mantissa p) (int_exponent p).
Proof.
  intros H. destruct (int_mantissa_value p H) as [D E].
  cbn [binary_normalize]. unfold binary_round.
  replace (fexp prec emax (Zpos (digits2_pos p) + 0)) with (Zpos (digits2_pos p) - 53)
    by (unfold fexp, SpecFloat.emin, prec, emax; lia).
  assert (S : shl_align p 0 (Zpos (digits2_pos p) - 53)
              = (int_mantissa p, int_exponent p)).
  { unfold int_mantissa, int_exponent, shl_align.
    destruct (Zpos (digits2_pos p) - 53 - 0) eqn:Z0; cbn [fst]; f_equal; lia. }
  rewrite S. apply binary_round_aux_canonical; [apply int_canonical, H|].
  unfold int_exponent. lia.
Qed.

Lemma int_valid p :
  Zpos p < 2 ^ 53 ->
  valid_binary (S754_finite false (int_mantissa p) (int_exponent p)) = true.
Proof.
  intros H. cbn [valid_binary]. unfold bounded. rewrite (int_canonical p H). simpl.
  apply Z.leb_le. destruct (int_mantissa_value p H). unfold int_exponent, emax, prec. lia.
Qed.

Local Close Scope Z_scope.

(** *** Equality *)

Lemma SFeqb_ltb_l a a' b : SFeqb a a' = true -> SFltb a b = SFltb a' b.
Proof. sf_order. Qed.

Lemma SFeqb_ltb_r a b b' : SFeqb b b' = true -> SFltb a b = SFltb a b'.
Proof. sf_order. Qed.

Lemma SFeqb_sym a b : SFeqb a b = SFeqb b a.
Proof. sf_order. Qed.

Lemma SFeqb_trans a b c : SFeqb a b = true -> SFeqb b c = true -> SFeqb a c = true.
Proof. sf_order. Qed.

Lemma eqb_ltb_l a a' b : (a =? a') = true -> (a <? b) = (a' <? b).
Proof. rewrite eqb_spec, !ltb_spec. apply SFeqb_ltb_l. Qed.

Lemma eqb_ltb_r a b b' : (b =? b') = true -> (a <? b) = (a <? b').
Proof. rewrite eqb_spec, !ltb_spec. apply SFeqb_ltb_r. Qed.

Lemma eqb_sym a b : (a =? b) = (b =? a).
Proof. rewrite !eqb_spec. apply SFeqb_sym. Qed.

Lemma eqb_trans a b c : (a =? b) = true -> (b =? c) = true -> (a =? c) = true.
Proof. rewrite !eqb_spec. apply SFeqb_trans. Qed.

Lemma eqb_refl_number a : is_nan a = false -> (a =? a) = true.
Proof. unfold is_nan. intros H. apply negb_false_iff in H. exact H. Qed.

(** *** Adding one to an integer *)

Local Open Scope Z_scope.

Lemma shr_1_even X :
  0 <= X ->
  shr_1 {| shr_m := 2 * X; shr_r := false; shr_s := false |}
  = {| shr_m := X; shr_r := false; shr_s := false |}.
Proof. destruct X as [|q|q]; try lia; reflexivity. Qed.

(** A right shift that drops only zero bits is exact. *)
Lemma iter_shr_exact p : forall c,
  0 <= c ->
  iter_pos shr_1 p {| shr_m := 2 ^ Zpos p * c; shr_r := false; shr_s := false |}
  = {| shr_m := c; shr_r := false; shr_s := false |}.
Proof.
  induction p as [p IH|p IH|]; intros c Hc; cbn [iter_pos].
  - replace (2 ^ Zpos p~1 * c) with (2 * (2 ^ Zpos p * (2 ^ Zpos p * c))).
    + assert (P : 0 < 2 ^ Zpos p) by (apply Z.pow_pos_nonneg; lia).
      rewrite shr_1_even by nia. rewrite IH by nia. apply IH, Hc.
    + replace (Zpos p~1) with (1 + Zpos p + Zpos p) by lia.
      rewrite !Z.pow_add_r by lia. change (2 ^ 1) with 2. ring.
  - replace (2 ^ Zpos p~0 * c) with (2 ^ Zpos p * (2 ^ Zpos p * c)).
    + assert (P : 0 < 2 ^ Zpos p) by (apply Z.pow_pos_nonneg; lia).
      rewrite IH by nia. apply IH, Hc.
    + replace (Zpos p~0) with (Zpos p + Zpos p) by lia.
      rewrite !Z.pow_add_r by lia. ring.
  - change (2 ^ 1) with 2. apply shr_1_even, Hc.
Qed.

(** [k * 2^52] at exponent [-52] rounds to the integer [k]. *)
Lemma binary_round_int k M :
  Zpos k < 2 ^ 53 -> Zpos M = Zpos k * 2 ^ 52 ->
  binary_round prec emax false M (-52)
  = S754_finite false (int_mantissa k) (int_exponent k).
Proof.
  intros Hk EM. destruct (int_mantissa_value k Hk) as [D E].
  pose proof (int_canonical k Hk) as C.
  assert (DM : Zpos (digits2_pos M) = Zpos (digits2_pos k) + 52)
    by (apply (digits2_pos_shift k 52 M); [lia|exact EM]).
  assert (D1 : 1 <= Zpos (digits2_pos k)) by lia.
  unfold binary_round.
  replace (fexp prec emax (Zpos (digits2_pos M) + -52)) with (Zpos (digits2_pos k) - 53)
    by (rewrite DM; unfold fexp, SpecFloat.emin, prec, emax; lia).
  assert (S : shl_align M (-52) (Zpos (digits2_pos k) - 53) = (M, -52)).
  { unfold shl_align. destruct (Zpos (digits2_pos k) - 53 - -52) eqn:Z0; try reflexivity. lia. }
  rewrite S. unfold binary_round_aux.
  assert (F : shr_fexp prec emax (Zpos M) (-52) loc_Exact
              = ({| shr_m := Zpos (int_mantissa k); shr_r := false; shr_s := false |},
                 int_exponent k)).
  { unfold shr_fexp. cbn [Zdigits2 shr_record_of_loc].
    replace (fexp prec emax (Zpos (digits2_pos M) + -52) - -52)
      with (Zpos (digits2_pos k) - 1)
      by (rewrite DM; unfold fexp, SpecFloat.emin, prec, emax; lia).
    unfold shr, int_exponent.
    destruct (Zpos (digits2_pos k) - 1) as [|p|p] eqn:P; try lia.
    - f_equal; [|lia]. f_equal. rewrite E, EM.
      replace (Zpos (digits2_pos k)) with 1 by lia. reflexivity.
    - f_equal; [|lia].
      replace (Zpos M) with (2 ^ Zpos p * Zpos (int_mantissa k)).
      + apply iter_shr_exact. lia.
      + assert (X : 2 ^ 52 = 2 ^ Zpos p * 2 ^ (53 - Zpos (digits2_pos k))).
        { rewrite <- Z.pow_add_r by lia. f_equal. lia. }
        rewrite E, EM, X. ring. }
  rewrite F. cbn [shr_m loc_of_shr_record round_nearest_even].
  unfold canonical_mantissa in C. apply Z.eqb_eq in C.
  unfold shr_fexp. cbn [Zdigits2]. rewrite C, Z.sub_diag.
  cbn [shr shr_record_of_loc shr_m].
  replace (int_exponent k <=? emax - prec) with true; [reflexivity|].
  symmetry. apply Z.leb_le. unfold int_exponent, emax, prec. lia.
Qed.

Lemma SFadd_int_one n :
  Zpos n + 1 < 2 ^ 53 ->
  SF64add (S754_finite false (int_mantissa n) (int_exponent n))
          (S754_finite false 4503599627370496 (-52))
  = S754_finite false (int_mantissa (n + 1)) (int_exponent (n + 1)).
Proof.
  intros H. assert (Hn : Zpos n < 2 ^ 53) by lia.
  destruct (int_mantissa_value n Hn) as [D E].
  pose proof (digits2_pos_spec n) as [N1 N2].
  assert (D1 : 1 <= Zpos (digits2_pos n)) by lia.
  unfold SF64add, SFadd.
  replace (Z.min (int_exponent n) (-52)) with (-52) by (unfold int_exponent; lia).
  cbn [cond_Zopp].
  rewrite !shl_align_fst by (unfold int_exponent; lia).
  assert (S : Zpos (int_mantissa n) * 2 ^ (int_exponent n - -52)
              + 4503599627370496 * 2 ^ (-52 - -52)
              = Zpos (n + 1) * 2 ^ 52).
  { rewrite E. unfold int_exponent.
    rewrite <- Z.mul_assoc, <- Z.pow_add_r by lia.
    replace (53 - Zpos (digits2_pos n) + (Zpos (digits2_pos n) - 53 - -52)) with 52 by lia.
    rewrite Pos2Z.inj_add. change (2 ^ (-52 - -52)) with 1.
    change 4503599627370496 with (2 ^ 52). ring. }
  rewrite S.
  assert (P : 0 < Zpos (n + 1) * 2 ^ 52) by (apply Z.mul_pos_pos; [lia|reflexivity]).
  destruct (Zpos (n + 1) * 2 ^ 52) as [|M|M] eqn:EM; try lia.
  cbn [binary_normalize]. apply binary_round_int; [rewrite Pos2Z.inj_add; exact H|symmetry; exact EM].
Qed.

Local Close Scope Z_scope.

(** *** Values that are not negative *)

Local Open Scope Z_scope.

Lemma SFnonneg_cases x :
  SFnonneg x <->
  match x with
  | S754_zero _ | S754_infinity false | S754_finite false _ _ => True
  | _ => False
  end.
Proof. unfold SFnonneg. destruct x as [[|]|[|]| |[|] m e]; simpl; intuition discriminate. Qed.

Lemma binary_round_nonneg m e :
  SFnonneg (binary_round prec emax false m e).
Proof.
  unfold binary_round. destruct (shl_align m e _) as [mz ez].
  pose proof (binary_round_aux_sign false (Zpos mz) ez loc_Exact ltac:(lia)) as H.
  apply SFnonneg_cases.
  destruct (binary_round_aux prec emax false (Zpos mz) ez loc_Exact) as [s|s| |s m' e'];
    try contradiction; subst; exact I.
Qed.

Lemma SFadd_nonneg x y : SFnonneg x -> SFnonneg y -> SFnonneg (SF64add x y).
Proof.
  rewrite !SFnonneg_cases.
  destruct x as [[|]|[|]| |[|] mx ex], y as [[|]|[|]| |[|] my ey];
    try contradiction; intros _ _; try exact I.
  unfold SF64add, SFadd. cbn [cond_Zopp].
  match goal with |- match binary_normalize _ _ ?z _ _ with _ => _ end =>
    destruct z as [|p|p] eqn:E; try lia end.
  cbn [binary_normalize]. apply SFnonneg_cases, binary_round_nonneg.
Qed.

Lemma SFdiv_nonneg x y :
  SFnonneg x ->
  SFltb (S754_zero false) y = true -> SFltb y (S754_infinity false) = true ->
  SFnonneg (SF64div x y).
Proof.
  rewrite SFnonneg_cases. intros Hx Hy Hf. apply SFnonneg_cases.
  destruct y as [[|]|[|]| |[|] my ey]; try discriminate.
  destruct x as [[|]|[|]| |[|] mx ex]; try contradiction; try exact I.
  unfold SF64div, SFdiv, SFdiv_core_binary.
  set (m' := match _ - _ - _ with Zpos _ => _ | Z0 => _ | Zneg _ => _ end).
  assert (M : 0 <= m').
  { unfold m'. destruct (_ - _ - _); try lia. apply Z.shiftl_nonneg. lia. }
  pose proof (Z.div_eucl_eq m' (Zpos my) ltac:(lia)) as Q.
  pose proof (Z.mod_pos_bound m' (Zpos my) ltac:(lia)) as B.
  unfold Z.modulo in B.
  destruct (Z.div_eucl m' (Zpos my)) as [q r].
  assert (Hq : 0 <= q) by nia.
  pose proof (binary_round_aux_sign (xorb false false) q
                (Z.min (fexp prec emax (Zdigits2 (Zpos mx) + ex - (Zdigits2 (Zpos my) + ey)))
                   (ex - ey))
                (new_location (Zpos my) r) Hq) as H.
  simpl xorb in *.
  destruct (binary_round_aux _ _ _ _ _ _) as [s|s| |s m0 e0];
    try contradiction; subst; exact I.
Qed.

Lemma SFnonneg_number x : SFnonneg x -> x <> S754_nan.
Proof. rewrite SFnonneg_cases. intros H E. subst. exact H. Qed.

Local Close Scope Z_scope.

End F64.

(** ** The engagement rate *)

(** C1. The engagement rate of a video is
    [(likes + comments + shares) / views] when [views > 0], and [0] when
    [views == 0], whatever the three counters are. *)
Theorem engagement_rate_cases (video : Video) :
  ((0 <? views (stats video)) = true ->
     calculateEngagementRate video
     = (likes (stats video) + comments (stats video) + shares (stats video))
       / views (stats video)) /\
  ((views (stats video) =? 0) = true -> calculateEngagementRate video = 0).
Proof.
  unfold calculateEngagementRate. destruct (stats video) as [l c s v]. simpl.
  split; intros H.
  - rewrite H. reflexivity.
  - rewrite (F64.eqb_zero_not_gt _ H). reflexivity.
Qed.

(** ** Property keys *)

Lemma uint_of_string_dash a b :
  NilEmpty.uint_of_string (a ++ String "-" b) = None.
Proof.
  induction a as [|c a IH]; simpl.
  - destruct (NilEmpty.uint_of_string b); reflexivity.
  - rewrite IH. reflexivity.
Qed.

(** A key with a dash in it is no array index. *)
Lemma array_index_dash a b : array_index (a ++ "-" ++ b) = None.
Proof. unfold array_index. simpl. rewrite uint_of_string_dash. reflexivity. Qed.

Lemma array_index_decimal n :
  (n < 4294967295)%N -> array_index (decimal n) = Some n.
Proof.
  intros H. unfold array_index, decimal.
  rewrite NilEmpty.usu, DecimalN.Unsigned.of_to, String.eqb_refl.
  apply N.ltb_lt in H. rewrite H. reflexivity.
Qed.

Lemma array_index_inv k n :
  array_index k = Some n -> k = decimal n /\ (n < 4294967295)%N.
Proof.
  unfold array_index. destruct (NilEmpty.uint_of_string k) as [d|]; [|discriminate].
  destruct (String.eqb_spec (decimal (N.of_uint d)) k) as [E|E]; [|discriminate].
  destruct (N.ltb_spec (N.of_uint d) 4294967295) as [L|L]; [|discriminate].
  simpl. intros [= <-]. auto.
Qed.

Lemma digit_prefix_uint d :
  digit_prefix (NilEmpty.string_of_uint d) = NilEmpty.string_of_uint d.
Proof. induction d; simpl; rewrite ?IHd; reflexivity. Qed.

Lemma decimal_not_empty n : decimal n <> "".
Proof.
  unfold decimal. destruct n as [|p]; [discriminate|].
  intros E. pose proof (DecimalN.Unsigned.of_to (Npos p)) as H.
  destruct (N.to_uint (Npos p)) eqn:U; try discriminate.
Qed.

Lemma decimal_head n :
  exists c s, decimal n = String c s /\ is_digit c = true.
Proof.
  pose proof (decimal_not_empty n) as H. unfold decimal in *.
  destruct (N.to_uint n); simpl in *; try congruence; eauto.
Qed.

(** [parseInt] reads back the decimal digits of an integer. *)
Lemma parseInt_decimal n : parseInt (decimal n) = Number_of_Z (Z.of_N n).
Proof.
  destruct (decimal_head n) as (c & s & E & D).
  unfold parseInt.
  assert (S1 : match decimal n with
               | String "-" s' => (true, s')
               | String "+" s' => (false, s')
               | _ => (false, decimal n)
               end = (false, decimal n)).
  { rewrite E. destruct c as [[] [] [] [] [] [] [] []]; try discriminate D; reflexivity. }
  rewrite S1. unfold decimal at 1. rewrite digit_prefix_uint.
  fold (decimal n). rewrite E. rewrite <- E.
  unfold decimal. rewrite NilEmpty.usu, DecimalN.Unsigned.of_to. reflexivity.
Qed.

Lemma decimal_inj a b : decimal a = decimal b -> a = b.
Proof.
  unfold decimal. intros E.
  assert (U : N.to_uint a = N.to_uint b).
  { pose proof (NilEmpty.usu (N.to_uint a)) as Ha. rewrite E, NilEmpty.usu in Ha.
    congruence. }
  rewrite <- (DecimalN.Unsigned.of_to a), <- (DecimalN.Unsigned.of_to b), U. reflexivity.
Qed.

Lemma head_ok_safe k : head_ok k = true -> safe_key k = true.
Proof.
  destruct k as [|c k]; [reflexivity|]. unfold head_ok, safe_key. intros H.
  destruct c as [[] [] [] [] [] [] [] []]; try discriminate H; reflexivity.
Qed.

Lemma head_ok_app a b :
  head_ok a = true -> (a = "" -> head_ok b = true) -> head_ok (a ++ b) = true.
Proof. destruct a; simpl; auto. Qed.

Lemma head_ok_decimal n : head_ok (decimal n) = true.
Proof.
  destruct (decimal_head n) as (c & s & E & D). rewrite E. simpl.
  unfold is_digit in D. apply andb_true_iff in D. destruct D as [_ D].
  apply N.leb_le in D. apply N.ltb_lt. lia.
Qed.

Lemma head_ok_substring0 n s : head_ok s = true -> head_ok (substring 0 n s) = true.
Proof. destruct n, s; simpl; auto. Qed.

Lemma head_ok_zeros n : head_ok (zeros n) = true.
Proof. destruct n; reflexivity. Qed.

Lemma app_cons_not_empty a c b : a ++ String c b <> "".
Proof. destruct a; discriminate. Qed.

Lemma head_ok_format n k s : head_ok (format_digits n k s) = true.
Proof.
  unfold format_digits.
  pose proof (decimal_not_empty (Z.to_N s)) as NE.
  pose proof (head_ok_decimal (Z.to_N s)) as HD.
  destruct ((k <=? n)%Z && (n <=? 21)%Z).
  { apply head_ok_app; [assumption|contradiction]. }
  destruct ((0 <? n)%Z && (n <=? 21)%Z).
  { apply head_ok_app; [apply head_ok_substring0; assumption|reflexivity]. }
  destruct ((-6 <? n)%Z && (n <=? 0)%Z); [reflexivity|].
  destruct (k =? 1)%Z.
  { apply head_ok_app; [assumption|contradiction]. }
  apply head_ok_app.
  - apply head_ok_app; [apply head_ok_substring0; assumption|reflexivity].
  - intros E. exfalso. revert E. apply app_cons_not_empty.
Qed.

Lemma head_ok_Number_toString x : head_ok (Number_toString x) = true.
Proof.
  unfold Number_toString.
  destruct (Prim2SF x) as [s|s| |s m e]; try reflexivity.
  - destruct s; reflexivity.
  - destruct s; [reflexivity|]. simpl.
    destruct ((e <=? 0)%Z && (Zpos m mod 2 ^ (- e) =? 0)%Z).
    + apply head_ok_decimal.
    + destruct (shortest m e) as [[n k] d]. apply head_ok_format.
Qed.

Lemma safe_Number_toString x : safe_key (Number_toString x) = true.
Proof. apply head_ok_safe, head_ok_Number_toString. Qed.

Lemma safe_slot_key d h :
  safe_key (Number_toString d ++ "-" ++ Number_toString h) = true.
Proof.
  apply head_ok_safe, head_ok_app; [apply head_ok_Number_toString|reflexivity].
Qed.

(** ** Accumulation tables *)

Lemma realm_ok_own r b p v :
  realm_ok r = true -> realm_own r b p = Some v -> is_nan v = true.
Proof.
  induction r as [|[[b' p'] v'] r IH]; simpl; [discriminate|].
  intros H. apply andb_true_iff in H. destruct H as [H1 H2].
  destruct (builtin_eqb b b' && String.eqb p p'); [intros [= <-]; assumption|auto].
Qed.

Lemma safe_key_inherited r k :
  safe_key k = true ->
  inherited_get r k
  = match realm_own r ObjectPrototype k with Some v => Primitive v | None => Undefined end.
Proof.
  unfold safe_key, inherited_get. intros H. apply andb_true_iff in H.
  destruct H as [H1 H2]. apply negb_true_iff in H1, H2. rewrite H1, H2. reflexivity.
Qed.

Lemma unsafe_key_inherited r k :
  safe_key k = false -> exists b, inherited_get r k = Builtin b.
Proof.
  unfold safe_key, inherited_get. intros H.
  destruct (String.eqb k "__proto__"); [eauto|].
  destruct (existsb (String.eqb k) Object_prototype_members); [eauto|discriminate].
Qed.

Section Accumulate.
Context {G : Type}.
Variables (init : G) (step : G -> G) (foreign : list (string * (float -> float))).

(** A pass that returns has left the realm as it was and updated the
    table, provided the key is safe or the body ends with a [push]. *)
Lemma accumulate_returns table key pushes r r' table' :
  safe_key key = true \/ pushes = true ->
  accumulate table key init step foreign pushes r = (r', Returns table') ->
  r' = r /\ table' = upsert table key init step.
Proof.
  unfold accumulate, upsert. intros S.
  destruct (own_get table key) as [g|]; [intros [= <- <-]; auto|].
  destruct (inherited_get r key) as [|v|b] eqn:I.
  - intros [= <- <-]; auto.
  - destruct (truthy v); [discriminate|intros [= <- <-]; auto].
  - destruct S as [S|S].
    + rewrite safe_key_inherited in I by assumption.
      destruct (realm_own r ObjectPrototype key); discriminate.
    + subst pushes. discriminate.
Qed.

Lemma accumulate_ok table key pushes r :
  realm_ok r = true -> safe_key key = true ->
  accumulate table key init step foreign pushes r
  = (r, Returns (upsert table key init step)).
Proof.
  unfold accumulate, upsert. intros R S.
  destruct (own_get table key) as [g|]; [reflexivity|].
  rewrite safe_key_inherited by assumption.
  destruct (realm_own r ObjectPrototype key) as [v|] eqn:O; [|reflexivity].
  unfold truthy. rewrite (realm_ok_own _ _ _ _ R O). reflexivity.
Qed.

(** An own key is never unsafe, since an unsafe key is never stored. *)
Lemma accumulate_throws_unsafe table key r :
  own_get table key = None -> safe_key key = false ->
  exists r', accumulate table key init step foreign true r = (r', Throws TypeError).
Proof.
  unfold accumulate. intros O S. rewrite O.
  destruct (unsafe_key_inherited r key S) as [b ->]. eauto.
Qed.
End Accumulate.

Section ForEach.
Context {A S : Type}.
Variables (body : S -> A -> M S) (pure : S -> A -> S).

Lemma forEach_returns l : forall s r r' s',
  (forall s x r r' s', In x l ->
     body s x r = (r', Returns s') -> r' = r /\ s' = pure s x) ->
  forEach l body s r = (r', Returns s') ->
  r' = r /\ s' = fold_left pure l s.
Proof.
  induction l as [|x l IH]; intros s r r' s' Hb; simpl.
  - unfold ret. intros [= <- <-]. auto.
  - unfold bind at 1. destruct (body s x r) as [r1 [s1|e]] eqn:B; [|discriminate].
    apply Hb in B; [|left; reflexivity]. destruct B as [-> ->].
    apply IH. intros; eapply Hb; eauto. right; assumption.
Qed.

Lemma forEach_ok l : forall s r,
  (forall s x, In x l -> body s x r = (r, Returns (pure s x))) ->
  forEach l body s r = (r, Returns (fold_left pure l s)).
Proof.
  induction l as [|x l IH]; intros s r Hb; simpl.
  - reflexivity.
  - unfold bind at 1. rewrite Hb by (left; reflexivity).
    apply IH. intros; apply Hb. right; assumption.
Qed.
End ForEach.

(** ** Own properties *)

Section Own.
Context {V : Type}.
Implicit Types (o : JSObject V) (k : string) (v : V).

Lemma own_get_set o k v k' :
  own_get (own_set o k v) k' = if String.eqb k' k then Some v else own_get o k'.
Proof.
  induction o as [|[k0 v0] o IH]; simpl.
  - reflexivity.
  - destruct (String.eqb_spec k k0) as [E|E]; simpl.
    + subst k0. destruct (String.eqb_spec k' k); reflexivity.
    + rewrite IH. destruct (String.eqb_spec k' k0) as [E0|E0]; [|reflexivity].
      subst k0. destruct (String.eqb_spec k' k); [congruence|reflexivity].
Qed.

Lemma keys_own_set o k v :
  map fst (own_set o k v) = if has_key o k then map fst o else (map fst o ++ [k])%list.
Proof.
  unfold has_key. induction o as [|[k0 v0] o IH]; simpl.
  - reflexivity.
  - destruct (String.eqb_spec k k0) as [E|E]; simpl; [reflexivity|].
    rewrite IH. destruct (own_get o k); reflexivity.
Qed.

Lemma own_get_In o k v : own_get o k = Some v -> In (k, v) o.
Proof.
  induction o as [|[k0 v0] o IH]; simpl; [discriminate|].
  destruct (String.eqb_spec k k0) as [E|E].
  - intros [= ->]. subst. left; reflexivity.
  - intros H. right. auto.
Qed.

Lemma own_get_None o k : own_get o k = None -> ~ In k (map fst o).
Proof.
  induction o as [|[k0 v0] o IH]; simpl; [tauto|].
  destruct (String.eqb_spec k k0) as [E|E]; [discriminate|].
  intros H [E'|I]; [congruence|]. exact (IH H I).
Qed.

Lemma In_own_get o k v :
  NoDup (map fst o) -> In (k, v) o -> own_get o k = Some v.
Proof.
  induction o as [|[k0 v0] o IH]; simpl; [tauto|].
  intros N [E|I].
  - inversion E; subst. rewrite String.eqb_refl. reflexivity.
  - inversion N as [|? ? N1 N2]; subst.
    destruct (String.eqb_spec k k0) as [E|E].
    + subst k0. exfalso. apply N1. apply (in_map fst) in I. exact I.
    + auto.
Qed.
End Own.

(** ** Grouping *)

Lemma filter_filter {A} (p q : A -> bool) l :
  filter p (filter q l) = filter (fun x => q x && p x) l.
Proof.
  induction l as [|x l IH]; simpl; [reflexivity|].
  destruct (q x); simpl; [destruct (p x)|]; rewrite IH; reflexivity.
Qed.

Lemma first_seen_In k l : In k (first_seen l) <-> In k l.
Proof.
  induction l as [|k0 l IH]; simpl; [tauto|].
  rewrite filter_In, IH. destruct (String.eqb_spec k k0) as [E|E]; simpl.
  - subst. tauto.
  - split; [intros [H|[H _]]; auto|intros [H|H]; [congruence|auto]].
Qed.

Lemma NoDup_filter {A} (p : A -> bool) l : NoDup l -> NoDup (filter p l).
Proof.
  induction 1 as [|x l H N IH]; simpl; [constructor|].
  destruct (p x); [constructor|]; auto.
  rewrite filter_In. tauto.
Qed.

Lemma first_seen_NoDup l : NoDup (first_seen l).
Proof.
  induction l as [|k l IH]; simpl; constructor.
  - rewrite filter_In, String.eqb_refl. simpl. intros [_ H]. discriminate.
  - apply NoDup_filter, IH.
Qed.

Section Grouping.
Context {A G : Type}.
Variables (key : A -> string) (init : A -> G) (step : A -> G -> G).

Local Abbreviation group_step := (group_step key init step).
Local Abbreviation members := (members key).
Local Abbreviation group_of := (group_of init step).
Local Abbreviation groups := (groups key init step).

Lemma fold_group_get l : forall table k,
  own_get (fold_left group_step l table) k
  = match own_get table k with
    | Some g => Some (fold_left (fun g x => step x g) (members k l) g)
    | None => group_of (members k l)
    end.
Proof.
  induction l as [|x l IH]; intros table k; simpl.
  - destruct (own_get table k); reflexivity.
  - rewrite IH. unfold group_step, upsert. rewrite own_get_set.
    rewrite (String.eqb_sym k (key x)).
    destruct (String.eqb_spec (key x) k) as [E|E]; simpl.
    + subst k. destruct (own_get table (key x)); reflexivity.
    + reflexivity.
Qed.

Lemma has_key_group_step table x k :
  has_key (group_step table x) k = String.eqb k (key x) || has_key table k.
Proof.
  unfold has_key, group_step, upsert. rewrite own_get_set.
  destruct (String.eqb k (key x)); reflexivity.
Qed.

Lemma fold_group_keys l : forall table,
  map fst (fold_left group_step l table)
  = (map fst table
     ++ filter (fun k => negb (has_key table k)) (first_seen (map key l)))%list.
Proof.
  induction l as [|x l IH]; intros table; simpl.
  - rewrite app_nil_r. reflexivity.
  - rewrite IH. rewrite filter_filter.
    assert (K : map fst (group_step table x)
                = if has_key table (key x) then map fst table
                  else (map fst table ++ [key x])%list).
    { unfold group_step, upsert. apply keys_own_set. }
    rewrite K.
    destruct (has_key table (key x)) eqn:H; simpl.
    + f_equal. apply filter_ext. intros k. rewrite has_key_group_step.
      destruct (String.eqb k (key x)); reflexivity.
    + rewrite <- app_assoc. simpl. do 2 f_equal. apply filter_ext. intros k.
      rewrite has_key_group_step.
      destruct (String.eqb k (key x)); reflexivity.
Qed.

Lemma groups_keys l : map fst (groups l) = first_seen (map key l).
Proof.
  unfold groups. rewrite fold_group_keys. simpl.
  induction (first_seen (map key l)) as [|k ks IH]; simpl; congruence.
Qed.

Lemma groups_get l k : own_get (groups l) k = group_of (members k l).
Proof. unfold groups. rewrite fold_group_get. reflexivity. Qed.

Lemma groups_NoDup l : NoDup (map fst (groups l)).
Proof. rewrite groups_keys. apply first_seen_NoDup. Qed.

Lemma groups_In l k g :
  In (k, g) (groups l) <-> group_of (members k l) = Some g.
Proof.
  rewrite <- groups_get. split.
  - apply In_own_get, groups_NoDup.
  - apply own_get_In.
Qed.
End Grouping.

(** A table whose groups all start from the same initial group. *)
Lemma groups_const {A G} (key : A -> string) (init : G) (step : A -> G -> G) l :
  groups key (fun _ => init) step l
  = map (fun k => (k, fold_left (fun g x => step x g) (members key k l) init))
        (first_seen (map key l)).
Proof.
  pose proof (groups_keys key (fun _ => init) step l) as K.
  assert (V : forall k g, In (k, g) (groups key (fun _ => init) step l) ->
              g = fold_left (fun g x => step x g) (members key k l) init).
  { intros k g I. apply groups_In in I. unfold group_of in I.
    assert (N : members key k l <> []).
    { intros E. rewrite E in I. discriminate. }
    destruct (members key k l); [contradiction|]. congruence. }
  revert K V. generalize (first_seen (map key l)).
  induction (groups key (fun _ => init) step l) as [|[k g] t IH];
    intros ks K V; simpl in *.
  - subst ks. reflexivity.
  - destruct ks as [|k' ks]; [discriminate|]. inversion K; subst. simpl.
    rewrite (V k' g) by (left; reflexivity). f_equal.
    apply IH; [reflexivity|]. intros; apply V; right; assumption.
Qed.

(** ** Sorting *)

Section Sort.
Context {A : Type}.
Variable score : A -> float.

Local Abbreviation descending := (descending score).
Local Abbreviation ge_score := (ge_score score).

Lemma insert_descending x y l :
  insert descending x (y :: l)
  = if score x <? score y then y :: insert descending x l else x :: y :: l.
Proof. simpl. unfold descending at 1. rewrite F64.sub_pos_iff. reflexivity. Qed.

Lemma insert_perm (c : A -> A -> float) x l : Permutation (insert c x l) (x :: l).
Proof.
  induction l as [|y l IH]; simpl; [reflexivity|].
  destruct (0 <? c x y); [|reflexivity].
  rewrite IH. apply perm_swap.
Qed.

Lemma Array_sort_perm (c : A -> A -> float) l : Permutation (Array_sort c l) l.
Proof.
  induction l as [|x l IH]; simpl; [reflexivity|].
  rewrite insert_perm. constructor. exact IH.
Qed.

Lemma insert_sorted x l :
  is_nan (score x) = false ->
  Forall (fun y => is_nan (score y) = false) l ->
  Sorted ge_score l -> Sorted ge_score (insert descending x l).
Proof.
  intros Nx Nl S. induction S as [|y l S IH H].
  - simpl. repeat constructor.
  - inversion Nl as [|? ? Ny Nl']; subst. rewrite insert_descending.
    destruct (score x <? score y) eqn:L.
    + constructor; [apply IH; assumption|].
      destruct l as [|z l].
      * simpl. constructor. apply F64.ltb_leb, L.
      * rewrite insert_descending.
        destruct (score x <? score z); constructor.
        -- inversion H; assumption.
        -- apply F64.ltb_leb, L.
    + constructor; [constructor; assumption|].
      constructor. apply F64.ltb_false_leb; assumption.
Qed.

(** On scores that are all numbers the sort yields a list of
    non-increasing score. *)
Lemma Array_sort_sorted l :
  Forall (fun y => is_nan (score y) = false) l ->
  Sorted ge_score (Array_sort descending l).
Proof.
  induction 1 as [|x l Nx Nl IH]; simpl; [constructor|].
  apply insert_sorted; [assumption| |assumption].
  eapply Permutation_Forall; [|exact Nl].
  symmetry. apply Array_sort_perm.
Qed.

(** The elements of one score keep their relative order. *)
Lemma insert_stable v x l :
  filter (fun e => score e =? v) (insert descending x l)
  = filter (fun e => score e =? v) (x :: l).
Proof.
  induction l as [|y l IH]; [reflexivity|].
  rewrite insert_descending.
  destruct (score x <? score y) eqn:L; [|reflexivity].
  cbn [filter]. rewrite IH. cbn [filter].
  destruct (score x =? v) eqn:Ex, (score y =? v) eqn:Ey; try reflexivity.
  rewrite (F64.eqb_class _ _ _ Ex Ey) in L. discriminate.
Qed.

Lemma Array_sort_stable v l :
  filter (fun e => score e =? v) (Array_sort descending l)
  = filter (fun e => score e =? v) l.
Proof.
  induction l as [|x l IH]; [reflexivity|].
  simpl Array_sort. rewrite insert_stable. cbn [filter]. rewrite IH. reflexivity.
Qed.
End Sort.

(** ** Enumeration order *)

Section Entries.
Context {V : Type}.
Implicit Types (o : JSObject V) (p : string * V).

Lemma insert_index_perm i p l :
  Permutation (insert_index i p l) ((i, p) :: l).
Proof.
  induction l as [|[j q] l IH]; simpl; [reflexivity|].
  destruct (i <? j)%N; [reflexivity|].
  rewrite IH. apply perm_swap.
Qed.

Lemma insert_index_sorted i p l :
  Sorted index_le l -> Sorted index_le (insert_index i p l).
Proof.
  induction 1 as [|[j q] l S IH H]; simpl.
  - repeat constructor.
  - destruct (N.ltb_spec i j) as [L|L].
    + repeat constructor; try assumption. unfold index_le. simpl. lia.
    + constructor; [assumption|].
      destruct l as [|[j' q'] l]; simpl.
      * constructor. exact L.
      * destruct (i <? j')%N; constructor; [exact L|].
        inversion H; assumption.
Qed.

Lemma indexed_entries_sorted o : Sorted index_le (indexed_entries o).
Proof.
  induction o as [|p o IH]; simpl; [constructor|].
  destruct (array_index (fst p)); [apply insert_index_sorted|]; assumption.
Qed.

Lemma indexed_entries_perm o :
  Permutation (map snd (indexed_entries o)) (filter (fun p => is_index (fst p)) o).
Proof.
  induction o as [|p o IH]; simpl; [reflexivity|].
  unfold is_index at 1. destruct (array_index (fst p)) as [i|]; [|exact IH].
  rewrite insert_index_perm. simpl. constructor. exact IH.
Qed.

Lemma indexed_entries_index o i p :
  In (i, p) (indexed_entries o) -> array_index (fst p) = Some i.
Proof.
  induction o as [|q o IH]; simpl; [tauto|].
  destruct (array_index (fst q)) as [j|] eqn:E; [|exact IH].
  intros H. apply (Permutation_in _ (insert_index_perm j q _)) in H.
  destruct H as [H|H]; [congruence|auto].
Qed.

Lemma filter_partition_perm (f : string * V -> bool) o :
  Permutation (filter f o ++ filter (fun p => negb (f p)) o) o.
Proof.
  induction o as [|p o IH]; simpl; [reflexivity|].
  destruct (f p); simpl.
  - constructor. exact IH.
  - rewrite <- Permutation_middle. constructor. exact IH.
Qed.

(** Enumeration neither drops nor repeats a property. *)
Lemma Object_entries_perm o : Permutation (Object_entries o) o.
Proof.
  unfold Object_entries. rewrite indexed_entries_perm.
  apply filter_partition_perm.
Qed.

(** Keys that are no array indices are enumerated in creation order. *)
Lemma Object_entries_named o :
  (forall p, In p o -> is_index (fst p) = false) -> Object_entries o = o.
Proof.
  intros H. unfold Object_entries.
  induction o as [|p o IH]; simpl; [reflexivity|].
  pose proof (H p (or_introl eq_refl)) as Hp. rewrite Hp. simpl.
  unfold is_index in Hp. destruct (array_index (fst p)); [discriminate|].
  assert (E : indexed_entries o = []).
  { assert (Ho : forall q, In q o -> is_index (fst q) = false)
      by (intros; apply H; right; assumption).
    clear -Ho. induction o as [|q o IH]; simpl; [reflexivity|].
    pose proof (Ho q (or_introl eq_refl)) as Hq. unfold is_index in Hq.
    destruct (array_index (fst q)); [discriminate|].
    apply IH. intros; apply Ho; right; assumption. }
  rewrite E in *. simpl in *. f_equal.
  apply IH. intros; apply H; right; assumption.
Qed.

(** Keys that are all array indices are enumerated in ascending order
    of index. *)
Lemma Object_entries_indexed o :
  (forall p, In p o -> is_index (fst p) = true) ->
  Object_entries o = map snd (indexed_entries o).
Proof.
  intros H. unfold Object_entries.
  replace (filter (fun p => negb (is_index (fst p))) o) with (@nil (string * V)).
  - apply app_nil_r.
  - symmetry. induction o as [|p o IH]; simpl; [reflexivity|].
    rewrite (H p (or_introl eq_refl)). simpl.
    apply IH. intros; apply H; right; assumption.
Qed.

Lemma indexed_entries_split o E1 e E2 :
  map snd (indexed_entries o) = (E1 ++ e :: E2)%list ->
  forall i j h,
    array_index (fst e) = Some i -> In h E2 -> array_index (fst h) = Some j ->
    (i <= j)%N.
Proof.
  pose proof (indexed_entries_sorted o) as S.
  pose proof (indexed_entries_index o) as I.
  revert S I. generalize (indexed_entries o) as l. intros l S I Hm i j h Ei Hh Ej.
  apply Sorted_StronglySorted in S;
    [|intros a b c; unfold index_le; lia].
  revert E1 Hm. induction S as [|[i0 p0] l S IH F]; intros E1 Hm.
  - destruct E1; discriminate.
  - destruct E1 as [|e1 E1]; simpl in Hm; inversion Hm; subst.
    + clear IH. apply in_map_iff in Hh. destruct Hh as ([j' h'] & Eh & Hh').
      simpl in Eh. subst h'.
      rewrite Forall_forall in F. specialize (F _ Hh'). unfold index_le in F.
      simpl in F.
      rewrite (I i0 e (or_introl eq_refl)) in Ei.
      rewrite (I j' h (or_intror Hh')) in Ej.
      inversion Ei; inversion Ej; subst. exact F.
    + apply (IH (fun i p H => I i p (or_intror H)) E1). assumption.
Qed.
End Entries.

(** ** The loops of the analyzer *)

Lemma durationGroups_ok videos r :
  realm_ok r = true ->
  durationGroups videos r = (r, Returns (duration_table videos)).
Proof.
  intros R. unfold durationGroups, duration_table, groups.
  apply forEach_ok. intros table v _.
  apply accumulate_ok; [assumption|apply safe_Number_toString].
Qed.

Lemma analyzeDuration_ok videos r :
  realm_ok r = true ->
  analyzeDuration videos r
  = (r, Returns (fold_left bestDuration_step
                   (Object_entries (duration_table videos)) bestDuration_init)).
Proof.
  intros R. unfold analyzeDuration, bind. rewrite durationGroups_ok by assumption.
  reflexivity.
Qed.

Lemma fold_left_flat_map {A B C} (f : A -> C -> A) (g : B -> list C) l : forall a,
  fold_left f (flat_map g l) a = fold_left (fun a x => fold_left f (g x) a) l a.
Proof.
  induction l as [|x l IH]; intros a; simpl; [reflexivity|].
  rewrite fold_left_app. apply IH.
Qed.

Lemma fold_left_map {A B C} (f : A -> C -> A) (g : B -> C) l : forall a,
  fold_left f (map g l) a = fold_left (fun a x => f a (g x)) l a.
Proof. induction l as [|x l IH]; intros a; simpl; auto. Qed.

Lemma fold_left_ext_eq {A B} (f g : A -> B -> A) l :
  (forall a x, f a x = g a x) -> forall a, fold_left f l a = fold_left g l a.
Proof.
  intros E. induction l as [|x l IH]; intros a; simpl; [reflexivity|].
  rewrite E. apply IH.
Qed.

Lemma hashtag_table_nested videos :
  hashtag_table videos
  = fold_left
      (fun table v =>
         fold_left (fun table tag => upsert table tag tagStats_init (tagStats_step v))
           v.(hashtags) table)
      videos [].
Proof.
  unfold hashtag_table, groups, tag_uses. rewrite fold_left_flat_map.
  apply fold_left_ext_eq. intros table v. rewrite fold_left_map. reflexivity.
Qed.

(** A run of the hashtag loops that returns has built [hashtag_table]
    and left the realm alone. *)
Lemma hashtagStats_returns videos r r' table :
  hashtagStats videos r = (r', Returns table) ->
  r' = r /\ table = hashtag_table videos.
Proof.
  rewrite hashtag_table_nested. unfold hashtagStats.
  apply (forEach_returns _
    (fun table v =>
       fold_left (fun table tag => upsert table tag tagStats_init (tagStats_step v))
         v.(hashtags) table)).
  intros t v r0 r0' t' _.
  apply forEach_returns. intros t1 tag r1 r1' t1' _.
  apply accumulate_returns. right; reflexivity.
Qed.

Lemma hashtagStats_ok videos r :
  realm_ok r = true ->
  (forall u, In u (tag_uses videos) -> safe_key (snd u) = true) ->
  hashtagStats videos r = (r, Returns (hashtag_table videos)).
Proof.
  intros R S. rewrite hashtag_table_nested. unfold hashtagStats.
  apply forEach_ok. intros t v Iv.
  apply forEach_ok. intros t1 tag It.
  apply accumulate_ok; [assumption|].
  apply (S (v, tag)). unfold tag_uses. apply in_flat_map. exists v. split; [assumption|].
  apply in_map. assumption.
Qed.

Lemma musicStats_returns videos r r' table :
  musicStats videos r = (r', Returns table) ->
  r' = r /\ table = music_table videos.
Proof.
  unfold musicStats, music_table, groups.
  apply forEach_returns. intros t v r0 r0' t' _.
  apply accumulate_returns. right; reflexivity.
Qed.

Lemma musicStats_ok videos r :
  realm_ok r = true ->
  (forall v, In v videos -> safe_key v.(music) = true) ->
  musicStats videos r = (r, Returns (music_table videos)).
Proof.
  intros R S. unfold musicStats, music_table, groups.
  apply forEach_ok. intros t v Iv.
  apply accumulate_ok; auto.
Qed.

(** ** The aggregators *)

Section Aggregators.

Variable LocalTZA : Z -> Z.
Variable log10_approx : float -> float.

Local Abbreviation slot_key := (slot_key LocalTZA).
Local Abbreviation timeSlotGroup_init := (timeSlotGroup_init LocalTZA).
Local Abbreviation slot_table := (slot_table LocalTZA).

Lemma timeSlots_ok videos r :
  realm_ok r = true ->
  timeSlots LocalTZA videos r = (r, Returns (slot_table videos)).
Proof.
  intros R. unfold timeSlots, slot_table, groups.
  apply forEach_ok. intros table v _.
  apply accumulate_ok; [assumption|apply safe_slot_key].
Qed.

Lemma analyzePostingTimes_ok videos r :
  realm_ok r = true ->
  analyzePostingTimes LocalTZA videos r
  = (r, Returns (Array_slice0 5
                   (Array_sort by_avgEngagement
                      (map timeSlot_of_entry (Object_entries (slot_table videos)))))).
Proof.
  intros R. unfold analyzePostingTimes, bind. rewrite timeSlots_ok by assumption.
  reflexivity.
Qed.

Lemma analyzeHashtags_returns videos r r' res :
  analyzeHashtags log10_approx videos r = (r', Returns res) ->
  r' = r /\
  res = Array_sort by_hashtag_score
          (map (hashtag_of_entry log10_approx) (Object_entries (hashtag_table videos))).
Proof.
  unfold analyzeHashtags, bind.
  destruct (hashtagStats videos r) as [r1 [t|e]] eqn:H; [|discriminate].
  apply hashtagStats_returns in H. destruct H as [-> ->].
  unfold ret. intros [= <- <-]. auto.
Qed.

Lemma analyzeMusic_returns videos r r' res :
  analyzeMusic log10_approx videos r = (r', Returns res) ->
  r' = r /\
  res = Array_sort by_music_score
          (map (music_of_entry log10_approx) (Object_entries (music_table videos))).
Proof.
  unfold analyzeMusic, bind.
  destruct (musicStats videos r) as [r1 [t|e]] eqn:H; [|discriminate].
  apply musicStats_returns in H. destruct H as [-> ->].
  unfold ret. intros [= <- <-]. auto.
Qed.

Lemma analyzeHashtags_ok videos r :
  realm_ok r = true ->
  (forall u, In u (tag_uses videos) -> safe_key (snd u) = true) ->
  analyzeHashtags log10_approx videos r
  = (r, Returns (Array_sort by_hashtag_score
                   (map (hashtag_of_entry log10_approx)
                      (Object_entries (hashtag_table videos))))).
Proof.
  intros R S. unfold analyzeHashtags, bind. rewrite hashtagStats_ok by assumption.
  reflexivity.
Qed.

Lemma analyzeMusic_ok videos r :
  realm_ok r = true ->
  (forall v, In v videos -> safe_key v.(music) = true) ->
  analyzeMusic log10_approx videos r
  = (r, Returns (Array_sort by_music_score
                   (map (music_of_entry log10_approx)
                      (Object_entries (music_table videos))))).
Proof.
  intros R S. unfold analyzeMusic, bind. rewrite musicStats_ok by assumption.
  reflexivity.
Qed.

(** *** Empty input *)

(** C7. On the empty list every aggregator returns: [analyzeDuration]
    the placeholder [{duration: 0, avgEngagement: 0}] without
    [sampleSize], the three others the empty sequence. *)
Theorem empty_batch_results (r : Realm) :
  analyzeDuration [] r
  = (r, Returns {| BestDuration.duration := 0;
                   BestDuration.avgEngagement := 0;
                   BestDuration.sampleSize := None |})
  /\ analyzePostingTimes LocalTZA [] r = (r, Returns [])
  /\ analyzeHashtags log10_approx [] r = (r, Returns [])
  /\ analyzeMusic log10_approx [] r = (r, Returns []).
Proof. repeat split. Qed.

(** C4. [generateRecommendations] has no guard: with an empty
    [bestPostingTimes] the slot handed to [formatTimeRecommendation] is
    [undefined] and reading its [day] throws; so does the whole batch
    analysis of the empty list. *)
Theorem empty_posting_times_throws (r : Realm)
    (optimalDuration : BestDuration.t)
    (topHashtags : list HashtagResult.t) (topMusic : list MusicResult.t) :
  generateRecommendations
    {| AnalysisResults.optimalDuration := optimalDuration;
       AnalysisResults.bestPostingTimes := [];
       AnalysisResults.topHashtags := topHashtags;
       AnalysisResults.topMusic := topMusic |} r
  = (r, Throws TypeError)
  /\ analyzeVideoBatch LocalTZA log10_approx [] r = (r, Throws TypeError).
Proof. split; reflexivity. Qed.

(** *** Groups without views *)

Lemma Math_log10_zero x :
  (x =? 0) = true -> Math_log10 log10_approx x = neg_infinity.
Proof.
  intros H. unfold Math_log10.
  destruct (F64.eqb_zero_cases x H) as (N & I & O).
  rewrite N, I, O, H. reflexivity.
Qed.

Lemma hashtag_score_zero_views entry :
  (HashtagResult.totalViews (hashtag_of_entry log10_approx entry) =? 0) = true ->
  HashtagResult.performanceScore (hashtag_of_entry log10_approx entry)
  = HashtagResult.avgEngagement (hashtag_of_entry log10_approx entry) * neg_infinity.
Proof.
  destruct entry as [k g]. simpl. intros H. rewrite Math_log10_zero by assumption.
  reflexivity.
Qed.

Lemma music_score_zero_views entry :
  (MusicResult.totalViews (music_of_entry log10_approx entry) =? 0) = true ->
  MusicResult.performanceScore (music_of_entry log10_approx entry)
  = MusicResult.avgEngagement (music_of_entry log10_approx entry) * neg_infinity.
Proof.
  destruct entry as [k g]. simpl. intros H. rewrite Math_log10_zero by assumption.
  reflexivity.
Qed.

(** C6. In a result that [analyzeHashtags] or [analyzeMusic] returns, an
    entry whose [totalViews] is [0] has the score
    [avgEngagement * -Infinity], which is not a finite number; the call
    returns it without throwing. *)
Theorem zero_views_score_not_finite (videos : list Video) (r r' : Realm) :
  (forall res e,
     analyzeHashtags log10_approx videos r = (r', Returns res) ->
     In e res ->
     (HashtagResult.totalViews e =? 0) = true ->
     HashtagResult.performanceScore e = HashtagResult.avgEngagement e * neg_infinity
     /\ is_finite (HashtagResult.performanceScore e) = false)
  /\
  (forall res e,
     analyzeMusic log10_approx videos r = (r', Returns res) ->
     In e res ->
     (MusicResult.totalViews e =? 0) = true ->
     MusicResult.performanceScore e = MusicResult.avgEngagement e * neg_infinity
     /\ is_finite (MusicResult.performanceScore e) = false).
Proof.
  split; intros res e H I Z.
  - apply analyzeHashtags_returns in H. destruct H as [_ ->].
    apply (Permutation_in _ (Array_sort_perm _ _)) in I.
    apply in_map_iff in I. destruct I as (entry & <- & _).
    rewrite (hashtag_score_zero_views entry Z).
    split; [reflexivity|apply F64.mul_neg_infinity_not_finite].
  - apply analyzeMusic_returns in H. destruct H as [_ ->].
    apply (Permutation_in _ (Array_sort_perm _ _)) in I.
    apply in_map_iff in I. destruct I as (entry & <- & _).
    rewrite (music_score_zero_views entry Z).
    split; [reflexivity|apply F64.mul_neg_infinity_not_finite].
Qed.

End Aggregators.

(** ** Sums and counts as the loops compute them *)

Lemma durationGroup_fold l : forall g,
  fold_left (fun g v => durationGroup_step v g) l g
  = {| DurationGroup.count := fold_left (fun c _ => c + 1) l g.(DurationGroup.count);
       DurationGroup.totalEngagement :=
         fold_left (fun a v => a + calculateEngagementRate v) l
           g.(DurationGroup.totalEngagement);
       DurationGroup.videos := (g.(DurationGroup.videos) ++ l)%list |}.
Proof.
  induction l as [|v l IH]; intros g; simpl.
  - rewrite app_nil_r. destruct g; reflexivity.
  - rewrite IH. simpl. rewrite <- app_assoc. reflexivity.
Qed.

Lemma tagStats_fold l : forall g,
  fold_left (fun g v => tagStats_step v g) l g
  = {| TagStats.count := fold_left (fun c _ => c + 1) l g.(TagStats.count);
       TagStats.totalEngagement :=
         fold_left (fun a v => a + calculateEngagementRate v) l
           g.(TagStats.totalEngagement);
       TagStats.totalViews :=
         fold_left (fun a v => a + v.(stats).(views)) l g.(TagStats.totalViews);
       TagStats.videos := (g.(TagStats.videos) ++ map id l)%list |}.
Proof.
  induction l as [|v l IH]; intros g; simpl.
  - rewrite app_nil_r. destruct g; reflexivity.
  - rewrite IH. simpl. rewrite <- app_assoc. reflexivity.
Qed.

(** The group of a key of [durationGroups]. *)
Lemma duration_table_In videos k g :
  In (k, g) (duration_table videos) ->
  let l := members duration_key k videos in
  l <> [] /\
  g = {| DurationGroup.count := count_of l;
         DurationGroup.totalEngagement := sum_engagement l;
         DurationGroup.videos := l |}.
Proof.
  unfold duration_table. intros I. apply groups_In in I. unfold group_of in I.
  destruct (members duration_key k videos) as [|v l] eqn:E; [discriminate|].
  inversion I as [I']. rewrite durationGroup_fold. simpl.
  split; [discriminate|reflexivity].
Qed.

Lemma sum_engagement_zero l :
  (forall v, In v l -> (calculateEngagementRate v =? 0) = true) ->
  (sum_engagement l =? 0) = true.
Proof.
  unfold sum_engagement. intros H.
  assert (Z : (0 =? 0) = true) by reflexivity. revert Z.
  generalize 0 at 1 3. revert H.
  induction l as [|v l IH]; intros H a Z; simpl; [exact Z|].
  apply IH.
  - intros; apply H; right; assumption.
  - apply F64.add_zero; [exact Z|apply H; left; reflexivity].
Qed.

Lemma bestDuration_fold_init entries :
  (forall k g, In (k, g) entries ->
     (0 <? g.(DurationGroup.totalEngagement) / g.(DurationGroup.count)) = false) ->
  fold_left bestDuration_step entries bestDuration_init = bestDuration_init.
Proof.
  induction entries as [|[k g] entries IH]; intros H; simpl; [reflexivity|].
  rewrite (H k g (or_introl eq_refl)). apply IH.
  intros; eapply H; right; eassumption.
Qed.

Lemma members_In {A} (key : A -> string) k l x :
  In x (members key k l) -> In x l.
Proof. unfold members. rewrite filter_In. tauto. Qed.

(** C10. When the engagement rate of every video is [0] (as when all
    have no views), [analyzeDuration] returns the placeholder
    [{duration: 0, avgEngagement: 0}] without [sampleSize], also on a
    non-empty list: no average exceeds the initial [0]. *)
Theorem all_zero_rates_placeholder (videos : list Video) (r : Realm) :
  realm_ok r = true ->
  (forall v, In v videos -> (calculateEngagementRate v =? 0) = true) ->
  analyzeDuration videos r
  = (r, Returns {| BestDuration.duration := 0;
                   BestDuration.avgEngagement := 0;
                   BestDuration.sampleSize := None |}).
Proof.
  intros R H. rewrite analyzeDuration_ok by assumption.
  rewrite bestDuration_fold_init; [reflexivity|].
  intros k g I.
  apply (Permutation_in _ (Object_entries_perm _)) in I.
  apply duration_table_In in I. destruct I as [_ ->]. simpl.
  apply F64.div_zero_not_pos, sum_engagement_zero.
  intros v Iv. apply H. eapply members_In. exact Iv.
Qed.

(** Two videos without views: a non-empty list that yields the
    placeholder. *)
Lemma all_zero_rates_placeholder_witness :
  analyzeDuration [unseen_video; unseen_video] pristine
  = (pristine, Returns {| BestDuration.duration := 0;
                          BestDuration.avgEngagement := 0;
                          BestDuration.sampleSize := None |}).
Proof.
  apply all_zero_rates_placeholder.
  - reflexivity.
  - intros v [<-|[<-|[]]]; reflexivity.
Defined.

(** ** Hashtag and music groups *)

Lemma members_pairs (v : Video) (tag : string) (tags : list string) :
  map fst (members snd tag (map (pair v) tags))
  = repeat v (count_occ string_dec tags tag).
Proof.
  unfold members. induction tags as [|t tags IH]; simpl; [reflexivity|].
  destruct (String.eqb_spec t tag) as [E|E], (string_dec t tag) as [E'|E'];
    try congruence; simpl; rewrite IH; reflexivity.
Qed.

Lemma members_tag_uses tag videos :
  map fst (members snd tag (tag_uses videos)) = uses_of tag videos.
Proof.
  unfold tag_uses, uses_of.
  induction videos as [|v videos IH]; simpl; [reflexivity|].
  unfold members in *. rewrite filter_app, map_app, IH.
  f_equal. apply members_pairs.
Qed.

Lemma tag_uses_keys videos : map snd (tag_uses videos) = flat_map hashtags videos.
Proof.
  unfold tag_uses. induction videos as [|v videos IH]; simpl; [reflexivity|].
  rewrite map_app, IH, map_map. simpl. rewrite map_id. reflexivity.
Qed.

Lemma tally_fold l :
  fold_left (fun g v => tagStats_step v g) l tagStats_init = tally l.
Proof. rewrite tagStats_fold. reflexivity. Qed.

Lemma hashtag_table_spec videos :
  hashtag_table videos
  = map (fun tag => (tag, tally (uses_of tag videos)))
        (first_seen (flat_map hashtags videos)).
Proof.
  unfold hashtag_table. rewrite groups_const, tag_uses_keys.
  apply map_ext. intros tag. f_equal.
  rewrite <- members_tag_uses, <- tally_fold, fold_left_map. reflexivity.
Qed.

Lemma music_table_spec videos :
  music_table videos
  = map (fun track => (track, tally (plays_of track videos)))
        (first_seen (map music videos)).
Proof.
  unfold music_table. rewrite groups_const.
  apply map_ext. intros track. f_equal. apply tally_fold.
Qed.

(** ** Rankings *)

Section Ranking.

Variable log10_approx : float -> float.

Local Abbreviation ranked_hashtag := (ranked_hashtag log10_approx).
Local Abbreviation ranked_music := (ranked_music log10_approx).

Lemma hashtag_entries_spec videos :
  map (hashtag_of_entry log10_approx) (hashtag_table videos)
  = map (ranked_hashtag videos) (first_seen (flat_map hashtags videos)).
Proof. rewrite hashtag_table_spec, map_map. reflexivity. Qed.

Lemma music_entries_spec videos :
  map (music_of_entry log10_approx) (music_table videos)
  = map (ranked_music videos) (first_seen (map music videos)).
Proof. rewrite music_table_spec, map_map. reflexivity. Qed.

Lemma hashtag_ranking_perm videos :
  Permutation
    (Array_sort by_hashtag_score
       (map (hashtag_of_entry log10_approx) (Object_entries (hashtag_table videos))))
    (map (ranked_hashtag videos) (first_seen (flat_map hashtags videos))).
Proof.
  rewrite Array_sort_perm, <- hashtag_entries_spec.
  apply Permutation_map, Object_entries_perm.
Qed.

Lemma music_ranking_perm videos :
  Permutation
    (Array_sort by_music_score
       (map (music_of_entry log10_approx) (Object_entries (music_table videos))))
    (map (ranked_music videos) (first_seen (map music videos))).
Proof.
  rewrite Array_sort_perm, <- music_entries_spec.
  apply Permutation_map, Object_entries_perm.
Qed.

Lemma sorted_of_numbers {A} (score : A -> float) (l : list A) :
  (forall e, In e (Array_sort (descending score) l) -> is_nan (score e) = false) ->
  Sorted (ge_score score) (Array_sort (descending score) l).
Proof.
  intros H. apply Array_sort_sorted. apply Forall_forall. intros e I.
  apply H. apply (Permutation_in _ (Permutation_sym (Array_sort_perm _ _))). exact I.
Qed.

(** C2 (amended). In a realm run so far by the analyzer only, on a list
    in which no hashtag (no music track) is the name of a property that
    objects inherit, [analyzeHashtags] ([analyzeMusic]) returns one entry
    for each distinct key of the input and no other, the entry of a key
    holding the average, total views, use count and score of its group;
    the sequence is in non-increasing order of score when no score is
    [NaN]. *)
Theorem ranking_per_key_sorted (videos : list Video) (r : Realm) :
  realm_ok r = true ->
  ((forall v tag, In v videos -> In tag v.(hashtags) -> safe_key tag = true) ->
   exists res,
     analyzeHashtags log10_approx videos r = (r, Returns res)
     /\ Permutation res
          (map (ranked_hashtag videos) (first_seen (flat_map hashtags videos)))
     /\ ((forall e, In e res -> is_nan (HashtagResult.performanceScore e) = false) ->
         Sorted (ge_score HashtagResult.performanceScore) res))
  /\
  ((forall v, In v videos -> safe_key v.(music) = true) ->
   exists res,
     analyzeMusic log10_approx videos r = (r, Returns res)
     /\ Permutation res (map (ranked_music videos) (first_seen (map music videos)))
     /\ ((forall e, In e res -> is_nan (MusicResult.performanceScore e) = false) ->
         Sorted (ge_score MusicResult.performanceScore) res)).
Proof.
  intros R. split; intros S.
  - eexists. split; [|split].
    + apply analyzeHashtags_ok; [assumption|].
      intros [v tag] I. unfold tag_uses in I. apply in_flat_map in I.
      destruct I as (v' & Iv & It). apply in_map_iff in It.
      destruct It as (tag' & E & It). inversion E; subst. simpl. eauto.
    + apply hashtag_ranking_perm.
    + apply (sorted_of_numbers HashtagResult.performanceScore).
  - eexists. split; [|split].
    + apply analyzeMusic_ok; assumption.
    + apply music_ranking_perm.
    + apply (sorted_of_numbers MusicResult.performanceScore).
Qed.

Lemma fold_left_repeat {A B} (f : A -> B -> A) (x : B) k : forall a,
  fold_left f (repeat x k) a = Nat.iter k (fun a => f a x) a.
Proof.
  induction k as [|k IH]; intros a; [reflexivity|].
  cbn [repeat fold_left]. rewrite IH, Nat.iter_succ_r. reflexivity.
Qed.

Lemma uses_of_snoc tag videos v :
  uses_of tag (videos ++ [v])
  = (uses_of tag videos ++ repeat v (count_occ string_dec v.(hashtags) tag))%list.
Proof.
  unfold uses_of. rewrite flat_map_app. simpl. rewrite app_nil_r. reflexivity.
Qed.

(** C8. A video whose tag list holds a hashtag [k] times adds [1] to the
    use count of the hashtag [k] times, and its view count and its
    engagement rate [k] times to the totals: in what [analyzeHashtags]
    returns for a batch that ends with the video, the entry of the
    hashtag holds the totals of the videos before it with these [k]
    additions. *)
Theorem repeated_tag_counts_each_time
    (videos : list Video) (video : Video) (tag : string) (k : nat)
    (r r' : Realm) (res : list HashtagResult.t) :
  count_occ string_dec video.(hashtags) tag = S k ->
  analyzeHashtags log10_approx (videos ++ [video]) r = (r', Returns res) ->
  exists e,
    In e res
    /\ HashtagResult.tag e = tag
    /\ HashtagResult.useCount e
       = Nat.iter (S k) (fun c => c + 1) (count_of (uses_of tag videos))
    /\ HashtagResult.totalViews e
       = Nat.iter (S k) (fun t => t + video.(stats).(views))
           (sum_views (uses_of tag videos))
    /\ HashtagResult.avgEngagement e
       = Nat.iter (S k) (fun t => t + calculateEngagementRate video)
           (sum_engagement (uses_of tag videos))
         / HashtagResult.useCount e.
Proof.
  intros K H. apply analyzeHashtags_returns in H. destruct H as [_ ->].
  exists (ranked_hashtag (videos ++ [video]) tag). split.
  - apply (Permutation_in _ (Permutation_sym (hashtag_ranking_perm _))).
    apply in_map. apply first_seen_In. rewrite flat_map_app. apply in_or_app. right.
    simpl. rewrite app_nil_r.
    apply (count_occ_In string_dec). rewrite K. apply Nat.lt_0_succ.
  - unfold ranked_hashtag. cbn [HashtagResult.tag HashtagResult.useCount
      HashtagResult.totalViews HashtagResult.avgEngagement].
    rewrite uses_of_snoc, K.
    unfold count_of, sum_views, sum_engagement.
    rewrite !fold_left_app, !fold_left_repeat. auto.
Qed.

End Ranking.

(** ** Posting-time slots *)

Section Firsts.
Context {A G : Type}.
Variables (key : A -> string) (init : A -> G) (step : A -> G -> G).

Local Abbreviation firsts := (firsts key).

Lemma firsts_keys l : map key (firsts l) = first_seen (map key l).
Proof.
  induction l as [|x l IH]; simpl; [reflexivity|]. f_equal.
  rewrite <- IH. clear IH. induction (firsts l) as [|y f IH]; simpl; [reflexivity|].
  destruct (String.eqb (key y) (key x)); simpl; rewrite IH; reflexivity.
Qed.

Lemma firsts_head l x :
  In x (firsts l) -> exists l', members key (key x) l = x :: l'.
Proof.
  induction l as [|y l IH]; simpl; [tauto|]. unfold members. simpl.
  intros [E|I].
  - subst y. rewrite String.eqb_refl. eauto.
  - apply filter_In in I. destruct I as [I N]. apply negb_true_iff in N.
    rewrite String.eqb_sym in N. rewrite N. apply IH. exact I.
Qed.

Lemma table_of_values (t : JSObject G) (val : A -> G) : forall fs,
  NoDup (map fst t) ->
  map fst t = map key fs ->
  (forall x, In x fs -> own_get t (key x) = Some (val x)) ->
  t = map (fun x => (key x, val x)) fs.
Proof.
  induction t as [|[k g] t IH]; intros [|x fs] N K H; try discriminate; [reflexivity|].
  simpl in K. inversion K as [[K1 K2]]. inversion N as [|? ? N1 N2]; subst.
  simpl. f_equal.
  - f_equal. pose proof (H x (or_introl eq_refl)) as Hx. simpl in Hx.
    rewrite String.eqb_refl in Hx. congruence.
  - apply IH; try assumption. intros y Iy.
    pose proof (H y (or_intror Iy)) as Hy. simpl in Hy.
    destruct (String.eqb_spec (key y) (key x)) as [E|E]; [|exact Hy].
    exfalso. apply N1. rewrite K2, <- E. apply in_map. exact Iy.
Qed.

(** The table of a pass: a group for each first element of a key. *)
Lemma groups_firsts l :
  groups key init step l
  = map (fun x => (key x,
                   fold_left (fun g y => step y g) (members key (key x) l) (init x)))
        (firsts l).
Proof.
  apply table_of_values.
  - apply groups_NoDup.
  - rewrite groups_keys, firsts_keys. reflexivity.
  - intros x I. rewrite groups_get.
    destruct (firsts_head l x I) as [l' E]. rewrite E. reflexivity.
Qed.
End Firsts.

Lemma Sorted_firstn {A} (R : A -> A -> Prop) n : forall l,
  Sorted R l -> Sorted R (firstn n l).
Proof.
  induction n as [|n IH]; intros l S; [constructor|].
  destruct S as [|x l S H]; simpl; [constructor|].
  constructor; [apply IH; assumption|].
  destruct H as [|y l H]; [destruct n; constructor|].
  destruct n; constructor. assumption.
Qed.

Section PostingTimes.

Variable LocalTZA : Z -> Z.

Local Abbreviation slot_entry := (slot_entry LocalTZA).
Local Abbreviation slot_entries := (slot_entries LocalTZA).

Lemma timeSlotGroup_fold l : forall g,
  fold_left (fun g v => timeSlotGroup_step v g) l g
  = {| TimeSlotGroup.count := fold_left (fun c _ => c + 1) l g.(TimeSlotGroup.count);
       TimeSlotGroup.totalEngagement :=
         fold_left (fun a v => a + calculateEngagementRate v) l
           g.(TimeSlotGroup.totalEngagement);
       TimeSlotGroup.day := g.(TimeSlotGroup.day);
       TimeSlotGroup.hour := g.(TimeSlotGroup.hour) |}.
Proof.
  induction l as [|v l IH]; intros g; simpl.
  - destruct g; reflexivity.
  - rewrite IH. reflexivity.
Qed.

Lemma slot_table_named videos p :
  In p (slot_table LocalTZA videos) -> is_index (fst p) = false.
Proof.
  intros I. apply (in_map fst) in I. unfold slot_table in I.
  rewrite groups_keys in I. apply (proj1 (first_seen_In _ _)) in I.
  apply in_map_iff in I.
  destruct I as (v & <- & _). unfold is_index, slot_key.
  rewrite array_index_dash. reflexivity.
Qed.

Lemma slot_entries_spec videos :
  map timeSlot_of_entry (Object_entries (slot_table LocalTZA videos))
  = slot_entries videos.
Proof.
  rewrite Object_entries_named by apply slot_table_named.
  unfold slot_table, slot_entries. rewrite groups_firsts, map_map.
  apply map_ext. intros v. unfold timeSlot_of_entry.
  rewrite timeSlotGroup_fold. reflexivity.
Qed.

Lemma slot_entries_length videos :
  List.length (slot_entries videos)
  = List.length (first_seen (map (slot_key LocalTZA) videos)).
Proof.
  unfold slot_entries. rewrite length_map, <- firsts_keys, length_map. reflexivity.
Qed.

End PostingTimes.

(** ** The best duration *)

Lemma selection_step best seen entry :
  selection best seen ->
  selection (bestDuration_step best entry) (seen ++ [entry]).
Proof.
  destruct entry as [k g]. unfold bestDuration_step.
  fold (group_average g).
  intros [[-> H]|(E1 & e & E2 & -> & -> & P & H1 & H2)]; cbn [BestDuration.avgEngagement selected bestDuration_init].
  - destruct (0 <? group_average g) eqn:L.
    + right. exists seen, (k, g), []. repeat split; try assumption.
      * intros h I. simpl. eapply F64.lt_not_lt_le; [exact L|auto].
      * intros h [].
    + left. split; [reflexivity|]. intros h I. apply in_app_or in I.
      destruct I as [I|[<-|[]]]; auto.
  - destruct (group_average (snd e) <? group_average g) eqn:L.
    + right. exists (E1 ++ e :: E2)%list, (k, g), []. repeat split.
      * simpl. eapply F64.ltb_trans; eassumption.
      * intros h I. simpl. apply in_app_or in I. destruct I as [I|[<-|I]].
        -- eapply F64.lt_not_le_le; [exact L|auto].
        -- apply F64.lt_not_ge. exact L.
        -- eapply F64.lt_not_lt_le; [exact L|auto].
      * intros h [].
    + right. exists E1, e, (E2 ++ [(k, g)])%list. repeat split; try assumption.
      * rewrite <- app_assoc. reflexivity.
      * intros h I. apply in_app_or in I. destruct I as [I|[<-|[]]]; auto.
Qed.

Lemma selection_fold entries : forall best seen,
  selection best seen ->
  selection (fold_left bestDuration_step entries best) (seen ++ entries).
Proof.
  induction entries as [|entry entries IH]; intros best seen S; simpl.
  - rewrite app_nil_r. exact S.
  - replace (seen ++ entry :: entries)%list with ((seen ++ [entry]) ++ entries)%list
      by (rewrite <- app_assoc; reflexivity).
    apply IH, selection_step, S.
Qed.

Lemma selection_all entries :
  selection (fold_left bestDuration_step entries bestDuration_init) entries.
Proof.
  apply (selection_fold entries bestDuration_init []).
  left. split; [reflexivity|]. intros h [].
Qed.

Lemma duration_table_has videos v :
  In v videos ->
  In (duration_key v,
      {| DurationGroup.count := count_of (duration_group videos v);
         DurationGroup.totalEngagement := sum_engagement (duration_group videos v);
         DurationGroup.videos := duration_group videos v |})
     (duration_table videos).
Proof.
  intros I. unfold duration_table. apply groups_In. unfold group_of, duration_group.
  destruct (members duration_key (duration_key v) videos) as [|v0 l] eqn:E.
  - exfalso. assert (I' : In v (members duration_key (duration_key v) videos)).
    { unfold members. apply filter_In. split; [assumption|apply String.eqb_refl]. }
    rewrite E in I'. exact I'.
  - rewrite durationGroup_fold. reflexivity.
Qed.

Lemma duration_table_entry videos k g :
  In (k, g) (duration_table videos) ->
  exists v, In v videos /\ duration_key v = k
    /\ g = {| DurationGroup.count := count_of (duration_group videos v);
              DurationGroup.totalEngagement := sum_engagement (duration_group videos v);
              DurationGroup.videos := duration_group videos v |}.
Proof.
  intros I. apply duration_table_In in I. destruct I as [N E].
  destruct (members duration_key k videos) as [|v l] eqn:M; [contradiction|].
  assert (Iv : In v (members duration_key k videos)) by (rewrite M; left; reflexivity).
  unfold members in Iv. apply filter_In in Iv. destruct Iv as [Iv K].
  apply String.eqb_eq in K. exists v. repeat split; try assumption.
  unfold duration_group. rewrite K, M. exact E.
Qed.

(** The selection on keys that are all array indices: the group of the
    greatest average, and of the smallest index among those that reach
    it. *)
Lemma best_duration_by_index (videos : list Video) (r : Realm) :
  realm_ok r = true ->
  (forall v, In v videos -> is_index (duration_key v) = true) ->
  exists best,
    analyzeDuration videos r = (r, Returns best)
    /\ match best.(BestDuration.sampleSize) with
       | None =>
           best = bestDuration_init
           /\ forall v, In v videos ->
                (0 <? average_engagement (duration_group videos v)) = false
       | Some n =>
           exists v,
             In v videos
             /\ best.(BestDuration.duration) = parseInt (duration_key v)
             /\ best.(BestDuration.avgEngagement)
                = average_engagement (duration_group videos v)
             /\ n = count_of (duration_group videos v)
             /\ (0 <? average_engagement (duration_group videos v)) = true
             /\ forall v', In v' videos ->
                  (average_engagement (duration_group videos v)
                   <? average_engagement (duration_group videos v')) = false
                  /\ forall i i',
                       array_index (duration_key v) = Some i ->
                       array_index (duration_key v') = Some i' ->
                       (i' < i)%N ->
                       (average_engagement (duration_group videos v)
                        <=? average_engagement (duration_group videos v')) = false
       end.
Proof.
  intros R Hidx.
  eexists. split; [apply analyzeDuration_ok; assumption|].
  pose proof (selection_all (Object_entries (duration_table videos))) as S.
  assert (Hin : forall v', In v' videos ->
            exists h, In h (Object_entries (duration_table videos))
              /\ fst h = duration_key v'
              /\ group_average (snd h) = average_engagement (duration_group videos v')).
  { intros v' I'. eexists. split; [|split].
    - apply (Permutation_in _ (Permutation_sym (Object_entries_perm _))).
      apply duration_table_has. exact I'.
    - reflexivity.
    - reflexivity. }
  destruct S as [[E H]|(E1 & e & E2 & E & B & P & H1 & H2)].
  - rewrite E. simpl. split; [reflexivity|].
    intros v' I'. destruct (Hin v' I') as (h & Ih & _ & <-). auto.
  - rewrite B. cbn [selected BestDuration.sampleSize BestDuration.duration
      BestDuration.avgEngagement].
    assert (Ie : In e (duration_table videos)).
    { apply (Permutation_in _ (Object_entries_perm _)). rewrite E.
      apply in_or_app. right. left. reflexivity. }
    destruct e as [k g]. apply duration_table_entry in Ie.
    destruct Ie as (v & Iv & K & G). exists v. simpl fst. simpl snd.
    assert (A : group_average g = average_engagement (duration_group videos v))
      by (rewrite G; reflexivity).
    rewrite <- A. subst k. repeat split; try assumption.
    + rewrite G. reflexivity.
    + destruct (Hin v' H) as (h & Ih & _ & <-).
      rewrite E in Ih. apply in_app_or in Ih. destruct Ih as [Ih|[<-|Ih]].
      * apply F64.leb_false_ltb. auto.
      * apply F64.ltb_irrefl.
      * auto.
    + intros i i' Ei Ei' L.
      destruct (Hin v' H) as (h & Ih & Kh & <-).
      rewrite E in Ih. apply in_app_or in Ih. destruct Ih as [Ih|[<-|Ih]].
      * auto.
      * simpl in Kh. rewrite Kh in Ei. rewrite Ei in Ei'. inversion Ei'. lia.
      * exfalso. rewrite Object_entries_indexed in E.
        -- pose proof (indexed_entries_split _ _ _ _ E i i' h) as Q.
           simpl in Q. rewrite Kh in Q. specialize (Q Ei Ih Ei'). lia.
        -- intros [k' g'] I0. apply duration_table_entry in I0.
           destruct I0 as (v0 & I0 & <- & _). apply Hidx. exact I0.
Qed.

(** ** Runs in a used realm *)

Lemma steady_ret {A} (a : A) : steady (ret a).
Proof. intros r R. auto. Qed.

Lemma steady_throw {A} (e : exn) : steady (@throw A e).
Proof. intros r R. auto. Qed.

Lemma steady_bind {A B} (c : M A) (f : A -> M B) :
  steady c -> (forall a, steady (f a)) -> steady (bind c f).
Proof.
  intros Hc Hf r R. unfold bind.
  destruct (Hc r R) as [R1 E1]. destruct (Hc pristine eq_refl) as [R0 _].
  destruct (c r) as [r1 o1], (c pristine) as [r0 o0]. simpl in *. subst o0.
  destruct o1 as [a|e]; [|auto].
  destruct (Hf a r1 R1) as [R2 E2]. destruct (Hf a r0 R0) as [_ E0].
  split; [assumption|congruence].
Qed.

Lemma steady_forEach {A S} (body : S -> A -> M S) l :
  (forall s x, steady (body s x)) -> forall s, steady (forEach l body s).
Proof.
  intros Hb. induction l as [|x l IH]; intros s; simpl.
  - apply steady_ret.
  - apply steady_bind; auto.
Qed.

Lemma realm_number_nan r b p : realm_ok r = true -> is_nan (realm_number r b p) = true.
Proof.
  intros R. unfold realm_number, realm_get.
  destruct (realm_own r b p) as [v|] eqn:O; [exact (realm_ok_own _ _ _ _ R O)|].
  destruct b; [reflexivity|].
  destruct (realm_own r ObjectPrototype p) as [v|] eqn:O'; [|reflexivity].
  exact (realm_ok_own _ _ _ _ R O').
Qed.

Lemma foreign_writes_ok b foreign :
  (forall p f x, In (p, f) foreign -> is_nan x = true -> is_nan (f x) = true) ->
  forall r, realm_ok r = true ->
  realm_ok
    (fold_left (fun r '(p, f) => realm_set r b p (f (realm_number r b p))) foreign r)
  = true.
Proof.
  induction foreign as [|[p f] foreign IH]; intros H r R; simpl; [assumption|].
  apply IH.
  - intros; eapply H; [right|]; eassumption.
  - simpl. rewrite R, andb_true_r.
    apply (H p f); [left; reflexivity|]. apply realm_number_nan, R.
Qed.

Lemma steady_accumulate {G} (table : JSObject G) key init step foreign pushes :
  (forall p f x, In (p, f) foreign -> is_nan x = true -> is_nan (f x) = true) ->
  steady (accumulate table key init step foreign pushes).
Proof.
  intros F r R. unfold accumulate.
  destruct (own_get table key) as [g|]; [auto|].
  destruct (safe_key key) eqn:S.
  - rewrite !safe_key_inherited by assumption. simpl.
    destruct (realm_own r ObjectPrototype key) as [v|] eqn:O; [|auto].
    unfold truthy. rewrite (realm_ok_own _ _ _ _ R O). auto.
  - unfold inherited_get. unfold safe_key in S.
    destruct (String.eqb key "__proto__").
    + split; [|destruct pushes; reflexivity].
      destruct pushes; apply foreign_writes_ok; assumption.
    + destruct (existsb (String.eqb key) Object_prototype_members); [|discriminate].
      split; [|destruct pushes; reflexivity].
      destruct pushes; apply foreign_writes_ok; assumption.
Qed.

Lemma increments_keep_nan (rate total : float) p f x :
  In (p, f)
     [ ("count", fun c => c + 1);
       ("totalEngagement", fun t => t + rate);
       ("totalViews", fun t => t + total) ] ->
  is_nan x = true -> is_nan (f x) = true.
Proof.
  intros [E|[E|[E|[]]]] N; inversion E; subst; apply F64.add_nan_l, N.
Qed.

Lemma steady_analyzeDuration videos : steady (analyzeDuration videos).
Proof.
  unfold analyzeDuration. apply steady_bind; [|intros; apply steady_ret].
  apply steady_forEach. intros s v. apply steady_accumulate.
  intros p f x I. apply (increments_keep_nan (calculateEngagementRate v) 0 p f x).
  simpl in *. tauto.
Qed.

Section Batch.

Variable LocalTZA : Z -> Z.
Variable log10_approx : float -> float.

Lemma steady_analyzePostingTimes videos : steady (analyzePostingTimes LocalTZA videos).
Proof.
  unfold analyzePostingTimes. apply steady_bind; [|intros; apply steady_ret].
  apply steady_forEach. intros s v. apply steady_accumulate.
  intros p f x I. apply (increments_keep_nan (calculateEngagementRate v) 0 p f x).
  simpl in *. tauto.
Qed.

Lemma steady_analyzeHashtags videos : steady (analyzeHashtags log10_approx videos).
Proof.
  unfold analyzeHashtags. apply steady_bind; [|intros; apply steady_ret].
  apply steady_forEach. intros s v. apply steady_forEach. intros s' tag.
  apply steady_accumulate. apply increments_keep_nan.
Qed.

Lemma steady_analyzeMusic videos : steady (analyzeMusic log10_approx videos).
Proof.
  unfold analyzeMusic. apply steady_bind; [|intros; apply steady_ret].
  apply steady_forEach. intros s v.
  apply steady_accumulate. apply increments_keep_nan.
Qed.

Lemma steady_generateRecommendations a : steady (generateRecommendations a).
Proof.
  unfold generateRecommendations. apply steady_bind; [|intros; apply steady_ret].
  unfold formatTimeRecommendation.
  destruct (nth_error _ 0); [apply steady_ret|apply steady_throw].
Qed.

Lemma steady_analyzeVideoBatch videos :
  steady (analyzeVideoBatch LocalTZA log10_approx videos).
Proof.
  unfold analyzeVideoBatch.
  apply steady_bind; [apply steady_analyzeDuration|intros].
  apply steady_bind; [apply steady_analyzePostingTimes|intros].
  apply steady_bind; [apply steady_analyzeHashtags|intros].
  apply steady_bind; [apply steady_analyzeMusic|intros].
  apply steady_bind; [apply steady_generateRecommendations|intros].
  apply steady_ret.
Qed.

(** C9. Run again on the same list, in the realm the first run has
    left, the batch analysis has the outcome of the first run: the same
    value, or the same exception. *)
Theorem batch_analysis_repeatable (videos : list Video) (r : Realm) :
  realm_ok r = true ->
  snd (analyzeVideoBatch LocalTZA log10_approx videos
         (fst (analyzeVideoBatch LocalTZA log10_approx videos r)))
  = snd (analyzeVideoBatch LocalTZA log10_approx videos r).
Proof.
  intros R.
  destruct (steady_analyzeVideoBatch videos r R) as [R1 E1].
  destruct (steady_analyzeVideoBatch videos _ R1) as [_ E2].
  congruence.
Qed.

End Batch.

(** ** Small integers as Numbers *)

Lemma Prim2SF_Number_of_Z_pos p :
  (Zpos p < 2 ^ 53)%Z ->
  Prim2SF (Number_of_Z (Zpos p))
  = S754_finite false (int_mantissa p) (int_exponent p).
Proof.
  intros H. unfold Number_of_Z. rewrite F64.binary_normalize_int by assumption.
  apply Prim2SF_SF2Prim, F64.int_valid, H.
Qed.

(** An integer from [0] to [2^53 - 1] prints as its decimal digits. *)
Lemma Number_toString_int q :
  (0 <= q < 2 ^ 53)%Z -> Number_toString (Number_of_Z q) = decimal (Z.to_N q).
Proof.
  intros [H0 H1]. destruct q as [|p|p]; [reflexivity| |lia].
  unfold Number_toString. rewrite Prim2SF_Number_of_Z_pos by assumption.
  destruct (F64.int_mantissa_value p H1) as [D E].
  unfold int_exponent. rewrite E.
  replace (- (Zpos (digits2_pos p) - 53))%Z with (53 - Zpos (digits2_pos p))%Z by lia.
  rewrite Z.mod_mul, Z.div_mul by (apply Z.pow_nonzero; lia).
  replace (Zpos (digits2_pos p) - 53 <=? 0)%Z with true
    by (symmetry; apply Z.leb_le; lia).
  reflexivity.
Qed.

Local Open Scope Z_scope.

(** Integers below [2^53] compare as their Number values do. *)
Lemma Number_of_Z_ltb a b :
  0 <= a < 2 ^ 53 -> 0 <= b < 2 ^ 53 ->
  (Number_of_Z a <? Number_of_Z b)%float = (a <? b).
Proof.
  intros [A0 A1] [B0 B1]. rewrite ltb_spec.
  destruct a as [|p|p], b as [|q|q]; try lia;
    rewrite ?Prim2SF_Number_of_Z_pos by assumption; try reflexivity.
  destruct (F64.int_mantissa_value p A1) as [Dp Vp].
  destruct (F64.int_mantissa_value q B1) as [Dq Vq].
  pose proof (F64.digits2_pos_spec p) as [P1 P2].
  pose proof (F64.digits2_pos_spec q) as [Q1 Q2].
  unfold SFltb, SFcompare, int_exponent.
  change (Pos.compare_cont Eq (int_mantissa p) (int_mantissa q))
    with (Pos.compare (int_mantissa p) (int_mantissa q)).
  destruct (Z.compare_spec (Zpos (digits2_pos p) - 53) (Zpos (digits2_pos q) - 53))
    as [E|L|G].
  - assert (E' : Zpos (digits2_pos p) = Zpos (digits2_pos q)) by lia.
    rewrite E' in Vp.
    assert (K : 0 < 2 ^ (53 - Zpos (digits2_pos q))) by (apply Z.pow_pos_nonneg; lia).
    destruct (Pos.compare_spec (int_mantissa p) (int_mantissa q)) as [M|M|M];
      symmetry; (apply Z.ltb_lt || apply Z.ltb_ge); nia.
  - symmetry. apply Z.ltb_lt.
    assert (2 ^ Zpos (digits2_pos p) <= 2 ^ (Zpos (digits2_pos q) - 1))
      by (apply Z.pow_le_mono_r; lia). lia.
  - symmetry. apply Z.ltb_ge.
    assert (2 ^ Zpos (digits2_pos q) <= 2 ^ (Zpos (digits2_pos p) - 1))
      by (apply Z.pow_le_mono_r; lia). lia.
Qed.

Lemma Number_of_Z_number q : 0 <= q < 2 ^ 53 -> is_nan (Number_of_Z q) = false.
Proof.
  intros [H0 H1]. rewrite F64.is_nan_spec.
  destruct q as [|p|p]; [reflexivity| |lia].
  rewrite Prim2SF_Number_of_Z_pos by assumption. reflexivity.
Qed.

Lemma Prim2SF_index_bound : Prim2SF 4294967295 = S754_finite false 9007199252643840 (-21).
Proof. reflexivity. Qed.

(** The floor of a Number from [0] to below [2^32 - 1] is an integer [q]
    of that range, and the property key it makes is the canonical decimal
    string of [q]. *)
Lemma Math_floor_index d :
  (0 <=? d)%float = true -> (d <? 4294967295)%float = true ->
  exists q,
    0 <= q < 4294967295
    /\ (Math_floor d =? Number_of_Z q)%float = true
    /\ Number_toString (Math_floor d) = decimal (Z.to_N q).
Proof.
  rewrite leb_spec, ltb_spec, Prim2SF_index_bound. change (Prim2SF 0) with (S754_zero false).
  intros H0 H1.
  pose proof (Prim2SF_valid d) as V.
  unfold Math_floor, Number_toString at 1.
  destruct (Prim2SF d) as [s|s| |s m e] eqn:P.
  - exists 0. split; [lia|]. split.
    + rewrite eqb_spec, P. destruct s; reflexivity.
    + unfold Number_toString. rewrite P. reflexivity.
  - destruct s; discriminate.
  - discriminate.
  - destruct s; [discriminate|].
    cbn [valid_binary] in V. unfold bounded in V. apply andb_true_iff in V.
    destruct V as [C _]. apply F64.canonical_bounds in C. destruct C as (C1 & C2 & C3).
    assert (He : e < 0 /\ Zpos m / 2 ^ (- e) < 4294967295).
    { unfold SFltb, SFcompare in H1.
      destruct (Z.compare_spec e (-21)) as [E|L|G]; try discriminate.
      - subst e. split; [lia|].
        destruct (Pos.compare_cont Eq m 9007199252643840) eqn:M; try discriminate.
        apply (proj1 (Pos.compare_lt_iff m 9007199252643840)) in M.
        apply Pos2Z.pos_lt_pos in M.
        apply Z.div_lt_upper_bound; [reflexivity|].
        change (2 ^ (- -21) * 4294967295) with 9007199252643840. exact M.
      - split; [lia|]. apply Z.div_lt_upper_bound; [apply Z.pow_pos_nonneg; lia|].
        assert (2 ^ 22 <= 2 ^ (- e)) by (apply Z.pow_le_mono_r; lia).
        assert (2 ^ 53 = 2 ^ 31 * 2 ^ 22) by reflexivity. nia. }
    destruct He as [He Hq].
    replace (0 <=? e) with false by (symmetry; apply Z.leb_gt; lia).
    assert (Q0 : 0 <= Zpos m / 2 ^ (- e)) by (apply Z.div_pos; [lia|apply Z.pow_pos_nonneg; lia]).
    exists (Zpos m / 2 ^ (- e)). split; [lia|].
    assert (Q53 : 0 <= Zpos m / 2 ^ (- e) < 2 ^ 53) by (split; [lia|]; simpl; lia).
    split.
    + apply F64.eqb_refl_number, Number_of_Z_number, Q53.
    + apply Number_toString_int, Q53.
Qed.

Local Close Scope Z_scope.

(** ** Whole-second durations *)

Lemma duration_key_index v :
  whole_second_index v = true ->
  exists q,
    (0 <= q < 4294967295)%Z
    /\ (Math_floor v.(duration) =? Number_of_Z q) = true
    /\ duration_key v = decimal (Z.to_N q)
    /\ array_index (duration_key v) = Some (Z.to_N q).
Proof.
  unfold whole_second_index. intros H. apply andb_true_iff in H. destruct H as [H0 H1].
  destruct (Math_floor_index _ H0 H1) as (q & Q & E & K).
  exists q. unfold duration_key. rewrite K. repeat split; try assumption; try lia.
  apply array_index_decimal. lia.
Qed.

(** Videos whose whole seconds are array indices are filed under the
    same key exactly when their whole seconds are equal. *)
Lemma duration_key_same_second v v' :
  whole_second_index v = true -> whole_second_index v' = true ->
  String.eqb (duration_key v') (duration_key v)
  = (Math_floor v'.(duration) =? Math_floor v.(duration)).
Proof.
  intros W W'.
  destruct (duration_key_index v W) as (q & Q & F & K & _).
  destruct (duration_key_index v' W') as (q' & Q' & F' & K' & _).
  assert (B : (0 <= q < 2 ^ 53)%Z) by (split; [lia|]; simpl; lia).
  assert (B' : (0 <= q' < 2 ^ 53)%Z) by (split; [lia|]; simpl; lia).
  rewrite K, K'.
  destruct (Z.eq_dec q' q) as [E|E].
  - subst q'. rewrite String.eqb_refl. symmetry.
    apply (F64.eqb_trans _ _ _ F'). rewrite F64.eqb_sym. exact F.
  - destruct (String.eqb_spec (decimal (Z.to_N q')) (decimal (Z.to_N q))) as [D|D].
    + apply decimal_inj in D. apply Z2N.inj in D; lia.
    + symmetry.
      destruct (Math_floor (duration v') =? Math_floor (duration v)) eqn:S;
        [|reflexivity].
      exfalso. apply E.
      assert (N : (Number_of_Z q' =? Number_of_Z q) = true).
      { apply (F64.eqb_trans _ (Math_floor (duration v')));
          [rewrite F64.eqb_sym; exact F'|].
        apply (F64.eqb_trans _ _ _ S F). }
      pose proof (F64.eqb_refl_number _ (Number_of_Z_number q B)) as Rq.
      pose proof (F64.eqb_class _ _ _ N Rq) as L1.
      pose proof (F64.eqb_class _ _ _ Rq N) as L2.
      rewrite Number_of_Z_ltb in L1, L2 by assumption.
      apply Z.ltb_ge in L1, L2. lia.
Qed.

Lemma duration_group_same_second videos v :
  (forall v', In v' videos -> whole_second_index v' = true) ->
  whole_second_index v = true ->
  duration_group videos v = same_second videos v.
Proof.
  intros W Wv. unfold duration_group, same_second, members.
  apply filter_ext_in. intros v' I. apply duration_key_same_second; auto.
Qed.

(** C3 (amended). In a realm run so far by the analyzer only, on videos
    whose duration is from [0] to below [2^32 - 1], [analyzeDuration]
    groups the videos by [Math.floor] of the duration (12.9 and 12.1 fall
    under key 12, 13.0 under key 13) and averages the engagement in each
    group.  When an average exceeds [0] it returns the group of the
    greatest average, and among the groups that reach it the one of the
    smallest whole-second duration: every group of a smaller duration has
    a strictly smaller average.  When no average exceeds [0] it returns
    the placeholder. *)
Theorem best_duration_smallest_key_wins (videos : list Video) (r : Realm) :
  realm_ok r = true ->
  (forall v, In v videos -> whole_second_index v = true) ->
  (forall v, v.(duration) = 12.9 \/ v.(duration) = 12.1 -> duration_key v = "12")
  /\ (forall v, v.(duration) = 13 -> duration_key v = "13")
  /\ exists best,
       analyzeDuration videos r = (r, Returns best)
       /\ match best.(BestDuration.sampleSize) with
          | None =>
              best = bestDuration_init
              /\ forall v, In v videos ->
                   (0 <? average_engagement (same_second videos v)) = false
          | Some n =>
              exists v,
                In v videos
                /\ (best.(BestDuration.duration) =? Math_floor v.(duration)) = true
                /\ best.(BestDuration.avgEngagement)
                   = average_engagement (same_second videos v)
                /\ n = count_of (same_second videos v)
                /\ (0 <? average_engagement (same_second videos v)) = true
                /\ forall v', In v' videos ->
                     (average_engagement (same_second videos v)
                      <? average_engagement (same_second videos v')) = false
                     /\ ((Math_floor v'.(duration) <? Math_floor v.(duration)) = true ->
                         (average_engagement (same_second videos v)
                          <=? average_engagement (same_second videos v')) = false)
          end.
Proof.
  intros R W. split; [|split].
  - intros v [E|E]; unfold duration_key; rewrite E; reflexivity.
  - intros v E. unfold duration_key. rewrite E. reflexivity.
  - destruct (best_duration_by_index videos r R) as (best & E & B).
    { intros v I. destruct (duration_key_index v (W v I)) as (q & _ & _ & _ & A).
      unfold is_index. rewrite A. reflexivity. }
    exists best. split; [exact E|].
    assert (G : forall v, In v videos -> duration_group videos v = same_second videos v).
    { intros v I. apply duration_group_same_second; auto. }
    destruct (BestDuration.sampleSize best) as [n|].
    + destruct B as (v & I & D & A & N & P & H). exists v.
      destruct (duration_key_index v (W v I)) as (q & Q & Fq & Kq & Aq).
      rewrite <- (G v I).
      split; [exact I|]. split.
      { rewrite D, Kq, parseInt_decimal, Z2N.id by lia.
        rewrite F64.eqb_sym. exact Fq. }
      split; [exact A|]. split; [exact N|]. split; [exact P|].
      intros v' I'. rewrite <- (G v' I'). destruct (H v' I') as [H1 T].
      split; [exact H1|]. intros L.
      destruct (duration_key_index v' (W v' I')) as (q' & Q' & Fq' & Kq' & Aq').
      apply (T _ _ Aq Aq').
      rewrite (F64.eqb_ltb_l _ _ _ Fq'), (F64.eqb_ltb_r _ _ _ Fq) in L.
      rewrite Number_of_Z_ltb in L by (simpl; lia).
      apply Z.ltb_lt in L. lia.
    + destruct B as [B0 B1]. split; [exact B0|].
      intros v I. rewrite <- (G v I). apply B1, I.
Qed.

(** ** Counting *)

Local Open Scope Z_scope.

(** Below [2^53] adding [1] to an integer is exact. *)
Lemma Number_of_Z_succ n :
  0 <= n -> n + 1 < 2 ^ 53 -> (Number_of_Z n + 1)%float = Number_of_Z (n + 1).
Proof.
  intros H0 H1. destruct n as [|p|p]; [reflexivity| |lia].
  apply Prim2SF_inj. rewrite add_spec.
  rewrite Prim2SF_Number_of_Z_pos by lia.
  change (Prim2SF 1) with (S754_finite false 4503599627370496 (-52)).
  rewrite F64.SFadd_int_one by exact H1.
  change (Zpos p + 1) with (Zpos (p + 1)).
  rewrite Prim2SF_Number_of_Z_pos by (rewrite Pos2Z.inj_add; exact H1). reflexivity.
Qed.

(** The count the loops keep: exact up to [2^53], where it stays. *)
Lemma increments_from (A : Type) (l : list A) : forall n,
  0 <= n <= 2 ^ 53 ->
  fold_left (fun c _ => (c + 1)%float) l (Number_of_Z n)
  = Number_of_Z (Z.min (n + Z.of_nat (List.length l)) (2 ^ 53)).
Proof.
  induction l as [|x l IH]; intros n Hn.
  - simpl. rewrite Z.add_0_r, Z.min_l by lia. reflexivity.
  - cbn [fold_left List.length]. rewrite Nat2Z.inj_succ.
    destruct (Z.eq_dec n (2 ^ 53)) as [E|E].
    + subst n. change (Number_of_Z (2 ^ 53) + 1)%float with (Number_of_Z (2 ^ 53)).
      rewrite IH by lia. f_equal. lia.
    + destruct (Z.eq_dec n (2 ^ 53 - 1)) as [E'|E'].
      * subst n. change (Number_of_Z (2 ^ 53 - 1) + 1)%float with (Number_of_Z (2 ^ 53)).
        rewrite IH by lia. f_equal. lia.
      * rewrite Number_of_Z_succ by lia. rewrite IH by lia. f_equal. lia.
Qed.

Lemma count_of_value (A : Type) (l : list A) :
  count_of l = Number_of_Z (Z.min (Z.of_nat (List.length l)) (2 ^ 53)).
Proof.
  unfold count_of. change 0%float with (Number_of_Z 0).
  rewrite increments_from by (simpl; lia). reflexivity.
Qed.

Local Close Scope Z_scope.

(** ** Well-formed statistics *)

Lemma add_nonneg a b :
  (0 <=? a) = true -> (0 <=? b) = true -> (0 <=? a + b) = true.
Proof. rewrite !leb_spec, add_spec. apply F64.SFadd_nonneg. Qed.

Lemma div_nonneg a b :
  (0 <=? a) = true -> (0 <? b) = true -> (b <? infinity) = true ->
  (0 <=? a / b) = true.
Proof. rewrite !leb_spec, !ltb_spec, div_spec. apply F64.SFdiv_nonneg. Qed.

Lemma nonneg_number a : (0 <=? a) = true -> is_nan a = false.
Proof.
  rewrite leb_spec, F64.is_nan_spec. intros H.
  apply F64.SFnonneg_number in H. destruct (Prim2SF a); congruence.
Qed.

Lemma rate_nonneg video :
  well_formed video = true -> (0 <=? calculateEngagementRate video) = true.
Proof.
  unfold well_formed, counter_ok, calculateEngagementRate.
  destruct (stats video) as [l c s v]. simpl.
  rewrite !andb_true_iff. intros [[[[L _] [C _]] [S _]] [V F]].
  destruct (0 <? v) eqn:P; [|reflexivity].
  apply div_nonneg; try assumption. apply add_nonneg; [apply add_nonneg|]; assumption.
Qed.

Lemma sum_from_nonneg l : forall a,
  (0 <=? a) = true ->
  (forall v, In v l -> well_formed v = true) ->
  (0 <=? fold_left (fun a v => a + calculateEngagementRate v) l a) = true.
Proof.
  induction l as [|v l IH]; intros a Z H; simpl; [exact Z|].
  apply IH.
  - apply add_nonneg; [exact Z|apply rate_nonneg, H; left; reflexivity].
  - intros; apply H; right; assumption.
Qed.

Lemma sum_engagement_nonneg l :
  (forall v, In v l -> well_formed v = true) -> (0 <=? sum_engagement l) = true.
Proof. apply sum_from_nonneg. reflexivity. Qed.

Lemma count_of_positive (A : Type) (l : list A) :
  l <> [] -> (0 <? count_of l) = true /\ (count_of l <? infinity) = true.
Proof.
  intros N. rewrite count_of_value.
  assert (B : (1 <= Z.min (Z.of_nat (List.length l)) (2 ^ 53) <= 2 ^ 53)%Z).
  { destruct l; [contradiction|]. cbn [List.length]. lia. }
  destruct (Z.min (Z.of_nat (List.length l)) (2 ^ 53)) as [|p|p] eqn:E; try lia.
  destruct (Z.eq_dec (Zpos p) (2 ^ 53)) as [E'|E'].
  - rewrite E'. split; reflexivity.
  - rewrite !ltb_spec, Prim2SF_Number_of_Z_pos by lia. split; reflexivity.
Qed.

(** The average engagement of a non-empty group of well-formed videos
    is a Number, and is not negative. *)
Lemma average_engagement_nonneg l :
  l <> [] -> (forall v, In v l -> well_formed v = true) ->
  (0 <=? average_engagement l) = true.
Proof.
  intros N H. unfold average_engagement.
  destruct (count_of_positive _ l N) as [P F].
  apply div_nonneg; [apply sum_engagement_nonneg|..]; assumption.
Qed.

(** ** Slots and their keys *)

Section Slots.

Variable LocalTZA : Z -> Z.

Local Abbreviation slot_of_video := (slot_of_video LocalTZA).

Lemma one_digit d :
  (0 <= d < 7)%Z -> exists c, decimal (Z.to_N d) = String c "" /\ is_digit c = true.
Proof.
  intros H.
  assert (C : (d = 0 \/ d = 1 \/ d = 2 \/ d = 3 \/ d = 4 \/ d = 5 \/ d = 6)%Z) by lia.
  repeat (destruct C as [->|C]; [eexists; split; reflexivity|]).
  subst. eexists; split; reflexivity.
Qed.

Lemma slot_key_value v :
  slot_key LocalTZA v
  = match Date_new v.(createTime) with
    | None => "NaN-NaN"
    | Some t =>
        decimal (Z.to_N ((LocalTime LocalTZA t / msPerDay + 4) mod 7))
        ++ "-" ++ decimal (Z.to_N ((LocalTime LocalTZA t / msPerHour) mod 24))
    end.
Proof.
  unfold slot_key. destruct (Date_new (createTime v)) as [t|]; [|reflexivity].
  unfold getDay, getHours.
  pose proof (Z.mod_pos_bound (LocalTime LocalTZA t / msPerDay + 4) 7 eq_refl).
  pose proof (Z.mod_pos_bound (LocalTime LocalTZA t / msPerHour) 24 eq_refl).
  rewrite !Number_toString_int by (simpl; lia). reflexivity.
Qed.

(** Videos of one key are videos of one slot. *)
Lemma slot_key_slot v v' :
  slot_key LocalTZA v = slot_key LocalTZA v' -> slot_of_video v = slot_of_video v'.
Proof.
  rewrite !slot_key_value. unfold slot_of_video, getDay, getHours.
  destruct (Date_new (createTime v)) as [t|], (Date_new (createTime v')) as [t'|];
    [| | |reflexivity].
  - pose proof (Z.mod_pos_bound (LocalTime LocalTZA t / msPerDay + 4) 7 eq_refl) as D.
    pose proof (Z.mod_pos_bound (LocalTime LocalTZA t' / msPerDay + 4) 7 eq_refl) as D'.
    pose proof (Z.mod_pos_bound (LocalTime LocalTZA t / msPerHour) 24 eq_refl) as H.
    pose proof (Z.mod_pos_bound (LocalTime LocalTZA t' / msPerHour) 24 eq_refl) as H'.
    destruct (one_digit _ D) as (c & E & _). destruct (one_digit _ D') as (c' & E' & _).
    intros K. rewrite E, E' in K. simpl in K. inversion K as [[K1 K2]].
    subst c'. rewrite <- E' in E. apply decimal_inj in E. apply decimal_inj in K2.
    apply Z2N.inj in E; [|apply D|apply D'].
    apply Z2N.inj in K2; [|apply H|apply H'].
    rewrite E, K2. reflexivity.
  - pose proof (Z.mod_pos_bound (LocalTime LocalTZA t / msPerDay + 4) 7 eq_refl) as D.
    destruct (one_digit _ D) as (c & E & Dc). rewrite E. simpl. intros K.
    inversion K; subst; discriminate.
  - pose proof (Z.mod_pos_bound (LocalTime LocalTZA t' / msPerDay + 4) 7 eq_refl) as D.
    destruct (one_digit _ D) as (c & E & Dc). rewrite E. simpl. intros K.
    inversion K; subst; discriminate.
Qed.

Lemma firsts_In {A} (key : A -> string) l x : In x (firsts key l) -> In x l.
Proof.
  induction l as [|y l IH]; simpl; [tauto|].
  intros [E|I]; [left; exact E|]. right. apply IH. apply filter_In in I. tauto.
Qed.

Lemma NoDup_map_of {A B C} (f : A -> B) (g : B -> C) l :
  NoDup (map (fun x => g (f x)) l) -> NoDup (map f l).
Proof.
  induction l as [|x l IH]; simpl; intros N; [constructor|].
  inversion N as [|? ? N1 N2]; subst. constructor; [|auto].
  intros I. apply N1. apply in_map_iff in I. destruct I as (y & E & I).
  apply in_map_iff. exists y. split; [congruence|assumption].
Qed.

(** No two entries are of the same slot. *)
Lemma slot_entries_NoDup videos :
  NoDup (map slot_of_entry (slot_entries LocalTZA videos)).
Proof.
  unfold slot_entries. rewrite map_map.
  apply (NoDup_map_of slot_of_video
           (fun s => Number_toString (fst s) ++ "-" ++ Number_toString (snd s))).
  change (NoDup (map (slot_key LocalTZA) (firsts (slot_key LocalTZA) videos))).
  rewrite firsts_keys. apply first_seen_NoDup.
Qed.

(** The slot of every video has its entry, which counts and averages the
    videos of the slot. *)
Lemma slot_entries_cover videos v :
  In v videos ->
  exists v0,
    In (slot_entry LocalTZA videos v0) (slot_entries LocalTZA videos)
    /\ slot_of_entry (slot_entry LocalTZA videos v0) = slot_of_video v
    /\ In v (members (slot_key LocalTZA) (slot_key LocalTZA v0) videos).
Proof.
  intros I.
  assert (K : In (slot_key LocalTZA v) (map (slot_key LocalTZA) (firsts (slot_key LocalTZA) videos))).
  { rewrite firsts_keys. apply first_seen_In. apply in_map. exact I. }
  apply in_map_iff in K. destruct K as (v0 & E & I0).
  exists v0. split; [|split].
  - unfold slot_entries. apply in_map. exact I0.
  - apply (slot_key_slot v0 v E).
  - unfold members. apply filter_In. split; [exact I|].
    apply String.eqb_eq. symmetry. exact E.
Qed.

Lemma slot_entries_numbers videos e :
  (forall v, In v videos -> well_formed v = true) ->
  In e (slot_entries LocalTZA videos) ->
  is_nan (TimeSlot.avgEngagement e) = false.
Proof.
  intros W I. unfold slot_entries in I. apply in_map_iff in I.
  destruct I as (v0 & <- & I0). simpl.
  apply nonneg_number. apply average_engagement_nonneg.
  - apply firsts_In in I0. intros E.
    assert (I1 : In v0 (members (slot_key LocalTZA) (slot_key LocalTZA v0) videos)).
    { unfold members. apply filter_In. split; [exact I0|apply String.eqb_refl]. }
    rewrite E in I1. exact I1.
  - intros v Iv. apply W. eapply members_In. exact Iv.
Qed.

(** C5. On well-formed videos, in a realm run so far by the analyzer
    only, [analyzePostingTimes] returns the first five of the ranked
    entries of the slots: at most five entries, all of them when the
    videos fall in fewer slots, and no other.  There is one entry for
    each distinct (day, hour) slot of the input; the ranking is in
    non-increasing order of average engagement, and entries of equal
    average stand in the order in which their slots first occur. *)
Theorem posting_times_top5 (videos : list Video) (r : Realm) :
  realm_ok r = true ->
  (forall v, In v videos -> well_formed v = true) ->
  exists ranked,
    analyzePostingTimes LocalTZA videos r = (r, Returns (firstn 5 ranked))
    /\ (List.length (firstn 5 ranked) <= 5)%nat
    /\ List.length (firstn 5 ranked)
       = Nat.min 5 (List.length (slot_entries LocalTZA videos))
    /\ Permutation ranked (slot_entries LocalTZA videos)
    /\ NoDup (map slot_of_entry (slot_entries LocalTZA videos))
    /\ (forall v, In v videos ->
          exists e, In e (slot_entries LocalTZA videos)
                    /\ slot_of_entry e = slot_of_video v)
    /\ Sorted (ge_score TimeSlot.avgEngagement) ranked
    /\ Sorted (ge_score TimeSlot.avgEngagement) (firstn 5 ranked)
    /\ (forall a,
          filter (fun e => TimeSlot.avgEngagement e =? a) ranked
          = filter (fun e => TimeSlot.avgEngagement e =? a) (slot_entries LocalTZA videos)).
Proof.
  intros R W.
  exists (Array_sort (descending TimeSlot.avgEngagement) (slot_entries LocalTZA videos)).
  assert (P : Permutation
                (Array_sort (descending TimeSlot.avgEngagement)
                   (slot_entries LocalTZA videos))
                (slot_entries LocalTZA videos)) by apply Array_sort_perm.
  assert (S : Sorted (ge_score TimeSlot.avgEngagement)
                (Array_sort (descending TimeSlot.avgEngagement)
                   (slot_entries LocalTZA videos))).
  { apply Array_sort_sorted. apply Forall_forall. intros e I.
    apply (slot_entries_numbers videos e W I). }
  split; [|split; [|split; [|split; [|split; [|split; [|split; [|split]]]]]]].
  - rewrite analyzePostingTimes_ok by assumption. rewrite slot_entries_spec. reflexivity.
  - apply firstn_le_length.
  - rewrite length_firstn, (Permutation_length P). reflexivity.
  - exact P.
  - apply slot_entries_NoDup.
  - intros v I. destruct (slot_entries_cover videos v I) as (v0 & I0 & E & _). eauto.
  - exact S.
  - apply Sorted_firstn, S.
  - intros a. apply Array_sort_stable.
Qed.

End Slots.

(** ** Sample runs *)

(** The scenario of one video posted on a Monday at 14:00. *)
Example monday_scenario :
  analyzeDuration [monday_video] pristine
  = (pristine, Returns {| BestDuration.duration := 15;
                          BestDuration.avgEngagement := 0.2;
                          BestDuration.sampleSize := Some 1 |})
  /\ analyzePostingTimes utc [monday_video] pristine
     = (pristine, Returns [ {| TimeSlot.count := 1;
                               TimeSlot.totalEngagement := 0.2;
                               TimeSlot.day := 1;
                               TimeSlot.hour := 14;
                               TimeSlot.avgEngagement := 0.2 |} ])
  /\ analyzeMusic log10_digits [monday_video] pristine
     = (pristine, Returns [ {| MusicResult.music := "trackX";
                               MusicResult.avgEngagement := 0.2;
                               MusicResult.totalViews := 100;
                               MusicResult.useCount := 1;
                               MusicResult.performanceScore := 0.4 |} ]).
Proof. repeat split; vm_compute; reflexivity. Qed.

Example number_keys :
  map Number_toString [12; 0; neg_zero; nan; infinity; -3; 1e21; 1.5e21; 0x1p63; 0.1]
  = ["12"; "0"; "0"; "NaN"; "Infinity"; "-3"; "1e+21"; "1.5e+21";
     "9223372036854776000"; "0.1"]
  /\ map parseInt ["12"; "1.5e+21"; "NaN"; "-3"] = [12; 1; nan; -3]
  /\ map array_index ["12"; "4294967294"; "4294967295"; "01"; "1-14"]
     = [Some 12%N; Some 4294967294%N; None; None; None].
Proof. repeat split; vm_compute; reflexivity. Qed.

(** *** C2 *)

(** A hashtag used only by a video without views has the score
    [0 * -Infinity], which is [NaN]; the comparator then answers [NaN]
    for every pair that holds it and the sort moves nothing.  The
    sequence returned is not in non-increasing order of score: the
    lowest score comes first and the highest last. *)
Lemma ranking_not_sorted_with_nan_score :
  match snd (analyzeHashtags log10_digits
               [small_video; unseen_tagged_video; popular_video] pristine) with
  | Returns [e1; e2; e3] =>
      is_nan (HashtagResult.performanceScore e2) = true
      /\ (HashtagResult.performanceScore e1 <? HashtagResult.performanceScore e3) = true
      /\ ~ Sorted (ge_score HashtagResult.performanceScore) [e1; e2; e3]
  | _ => False
  end.
Proof.
  vm_compute. repeat split.
  intros S. inversion S as [|? ? _ H]; subst. inversion H as [|? ? L]; subst.
  vm_compute in L. discriminate.
Qed.

(** A hashtag that is the name of an inherited property makes the call
    throw. *)
Example inherited_name_throws :
  snd (analyzeHashtags log10_digits
         [ {| id := "w"; stats := stats monday_video; duration := 1; createTime := 0;
              hashtags := ["constructor"]; music := "m" |} ] pristine)
  = Throws TypeError.
Proof. reflexivity. Qed.

(** The rankings of the two sample videos: three hashtags and two
    tracks, in order of score. *)
Lemma ranking_per_key_sorted_witness :
  realm_ok pristine = true
  /\ (exists res,
        analyzeHashtags log10_digits [monday_video; tuesday_video] pristine
        = (pristine, Returns res)
        /\ Permutation res
             (map (ranked_hashtag log10_digits [monday_video; tuesday_video])
                ["a"; "b"; "c"])
        /\ Sorted (ge_score HashtagResult.performanceScore) res)
  /\ (exists res,
        analyzeMusic log10_digits [monday_video; tuesday_video] pristine
        = (pristine, Returns res)
        /\ Permutation res
             (map (ranked_music log10_digits [monday_video; tuesday_video])
                ["trackX"; "trackY"])
        /\ Sorted (ge_score MusicResult.performanceScore) res).
Proof.
  split; [reflexivity|].
  destruct (ranking_per_key_sorted log10_digits [monday_video; tuesday_video]
              pristine eq_refl) as [H M].
  split.
  - destruct H as (res & E & P & S).
    { intros v tag [<-|[<-|[]]] I; simpl in I;
        repeat (destruct I as [<-|I]; [reflexivity|]); destruct I. }
    exists res. repeat split; try assumption. apply S.
    vm_compute in E. injection E as <-.
    intros e I. simpl in I.
    repeat (destruct I as [<-|I]; [reflexivity|]). destruct I.
  - destruct M as (res & E & P & S).
    { intros v [<-|[<-|[]]]; reflexivity. }
    exists res. repeat split; try assumption. apply S.
    vm_compute in E. injection E as <-.
    intros e I. simpl in I.
    repeat (destruct I as [<-|I]; [reflexivity|]). destruct I.
Defined.

(** *** C8 *)

(** A video that lists the hashtag [b] twice, after one that lists it
    once: the hashtag is counted three times. *)
Lemma repeated_tag_counts_each_time_witness :
  count_occ string_dec tuesday_video.(hashtags) "b" = 2%nat
  /\ exists res e,
       analyzeHashtags log10_digits ([monday_video] ++ [tuesday_video]) pristine
       = (pristine, Returns res)
       /\ In e res
       /\ HashtagResult.tag e = "b"
       /\ HashtagResult.useCount e = 3
       /\ HashtagResult.totalViews e = 2100.
Proof.
  split; [reflexivity|].
  eassert (E : analyzeHashtags log10_digits ([monday_video] ++ [tuesday_video]) pristine
               = (pristine, Returns _)) by (vm_compute; reflexivity).
  destruct (repeated_tag_counts_each_time log10_digits [monday_video] tuesday_video
              "b" 1 pristine pristine _ eq_refl E) as (e & I & T & U & V & _).
  match type of E with _ = (_, Returns ?l) => exists l end.
  exists e. split; [exact E|]. split; [exact I|]. split; [exact T|].
  split; [rewrite U|rewrite V]; vm_compute; reflexivity.
Defined.

(** *** C3 *)

(** Two groups of the same average: the group of 20 seconds is
    encountered first, and [analyzeDuration] returns the group of 10
    seconds, which [Object.entries] enumerates first. *)
Lemma first_encountered_group_loses_tie :
  average_engagement (same_second [long_video; short_video] long_video)
  = average_engagement (same_second [long_video; short_video] short_video)
  /\ analyzeDuration_first_encountered [long_video; short_video]
     = {| BestDuration.duration := 20;
          BestDuration.avgEngagement := 0.5;
          BestDuration.sampleSize := Some 1 |}
  /\ analyzeDuration [long_video; short_video] pristine
     = (pristine, Returns {| BestDuration.duration := 10;
                             BestDuration.avgEngagement := 0.5;
                             BestDuration.sampleSize := Some 1 |}).
Proof. repeat split; vm_compute; reflexivity. Qed.

(** Of the groups of 20 and of 10 seconds, which tie, the one of 10
    seconds is returned. *)
Lemma best_duration_smallest_key_wins_witness :
  realm_ok pristine = true
  /\ (forall v, In v [long_video; short_video; tuesday_video] ->
        whole_second_index v = true)
  /\ exists best,
       analyzeDuration [long_video; short_video; tuesday_video] pristine
       = (pristine, Returns best)
       /\ best.(BestDuration.duration) = 10
       /\ best.(BestDuration.sampleSize) = Some 1.
Proof.
  assert (I : forall v, In v [long_video; short_video; tuesday_video] ->
                whole_second_index v = true).
  { intros v [<-|[<-|[<-|[]]]]; reflexivity. }
  split; [reflexivity|]. split; [exact I|].
  destruct (best_duration_smallest_key_wins [long_video; short_video; tuesday_video]
              pristine eq_refl I) as (_ & _ & best & E & _).
  exists best. split; [exact E|].
  vm_compute in E. injection E as <-. split; reflexivity.
Defined.

(** *** C5 *)

(** Three videos in two slots: two entries, in order. *)
Lemma posting_times_top5_witness :
  realm_ok pristine = true
  /\ (forall v, In v [monday_video; tuesday_video; long_video] -> well_formed v = true)
  /\ exists ranked,
       analyzePostingTimes utc [monday_video; tuesday_video; long_video] pristine
       = (pristine, Returns (firstn 5 ranked))
       /\ List.length (firstn 5 ranked) = 2%nat
       /\ Sorted (ge_score TimeSlot.avgEngagement) (firstn 5 ranked).
Proof.
  assert (W : forall v, In v [monday_video; tuesday_video; long_video] ->
                well_formed v = true).
  { intros v [<-|[<-|[<-|[]]]]; reflexivity. }
  split; [reflexivity|]. split; [exact W|].
  destruct (posting_times_top5 utc [monday_video; tuesday_video; long_video]
              pristine eq_refl W) as (ranked & E & _ & L & _ & _ & _ & _ & S & _).
  exists ranked. split; [exact E|]. split; [rewrite L; reflexivity|exact S].
Defined.

(** *** C9 *)

(** The batch of the two sample videos, run twice from a fresh realm. *)
Lemma batch_analysis_repeatable_witness :
  realm_ok pristine = true
  /\ snd (analyzeVideoBatch utc log10_digits [monday_video; tuesday_video]
            (fst (analyzeVideoBatch utc log10_digits [monday_video; tuesday_video]
                    pristine)))
     = snd (analyzeVideoBatch utc log10_digits [monday_video; tuesday_video] pristine).
Proof.
  split; [reflexivity|].
  apply (batch_analysis_repeatable utc log10_digits [monday_video; tuesday_video]
           pristine eq_refl).
Defined.

(** A run that throws on an inherited name leaves [NaN] counters on a
    built-in object; the second run throws as the first did. *)
Example polluted_realm_same_outcome :
  let videos :=
    [ {| id := "w"; stats := stats monday_video; duration := 1; createTime := 0;
         hashtags := ["a"]; music := "__proto__" |} ] in
  let first := analyzeVideoBatch utc log10_digits videos pristine in
  fst first
  = [ (ObjectPrototype, "totalViews", nan);
      (ObjectPrototype, "totalEngagement", nan);
      (ObjectPrototype, "count", nan) ]
  /\ snd first = Throws TypeError
  /\ snd (analyzeVideoBatch utc log10_digits videos (fst first)) = Throws TypeError.
Proof. repeat split. Qed.

(** *** C6 *)

(** The entry of a hashtag whose only video has no views. *)
Lemma zero_views_score_not_finite_witness :
  exists e,
    analyzeHashtags log10_digits [unseen_tagged_video] pristine = (pristine, Returns [e])
    /\ (HashtagResult.totalViews e =? 0) = true
    /\ HashtagResult.performanceScore e = HashtagResult.avgEngagement e * neg_infinity
    /\ is_finite (HashtagResult.performanceScore e) = false.
Proof.
  eassert (E : analyzeHashtags log10_digits [unseen_tagged_video] pristine
               = (pristine, Returns [_])) by (vm_compute; reflexivity).
  match type of E with _ = (_, Returns [?x]) => exists x end.
  split; [exact E|]. split; [reflexivity|].
  apply (proj1 (zero_views_score_not_finite log10_digits [unseen_tagged_video]
                  pristine pristine) _ _ E (or_introl eq_refl) eq_refl).
Defined.

(** * Further properties of the methods *)

(** ** Keys that name inherited properties *)

Section ForEachOutcome.
Context {A S : Type}.
Variables (body : S -> A -> M S) (bad : A -> bool) (Inv : S -> Prop).

Hypothesis good_step : forall s x r,
  Inv s -> realm_ok r = true -> bad x = false ->
  exists s', body s x r = (r, Returns s') /\ Inv s'.

Hypothesis bad_step : forall s x r,
  Inv s -> realm_ok r = true -> bad x = true ->
  exists r', body s x r = (r', Throws TypeError) /\ realm_ok r' = true.

Lemma forEach_good l : forall s r,
  Inv s -> realm_ok r = true -> existsb bad l = false ->
  exists s', forEach l body s r = (r, Returns s') /\ Inv s'.
Proof.
  induction l as [|x l IH]; intros s r I R B; simpl in *.
  - exists s. auto.
  - apply orb_false_iff in B. destruct B as [Bx Bl].
    destruct (good_step s x r I R Bx) as (s1 & E & I1).
    unfold bind at 1. rewrite E. apply IH; assumption.
Qed.

Lemma forEach_bad l : forall s r,
  Inv s -> realm_ok r = true -> existsb bad l = true ->
  exists r', forEach l body s r = (r', Throws TypeError) /\ realm_ok r' = true.
Proof.
  induction l as [|x l IH]; intros s r I R B; simpl in *; [discriminate|].
  unfold bind at 1. destruct (bad x) eqn:Bx.
  - destruct (bad_step s x r I R Bx) as (r' & E & R'). rewrite E. eauto.
  - destruct (good_step s x r I R Bx) as (s1 & E & I1). rewrite E.
    apply IH; assumption.
Qed.

End ForEachOutcome.

(** No key of the table names an inherited property. *)
Lemma upsert_keeps_safe {G} (table : JSObject G) key (init : G) step :
  safe_key key = true ->
  (forall k, safe_key k = false -> own_get table k = None) ->
  forall k, safe_key k = false -> own_get (upsert table key init step) k = None.
Proof.
  intros S I k U. unfold upsert. rewrite own_get_set.
  destruct (String.eqb_spec k key) as [->|_]; [congruence|auto].
Qed.

Lemma tag_pass_good (v : Video) (table : JSObject TagStats.t) key r :
  (forall k, safe_key k = false -> own_get table k = None) ->
  realm_ok r = true -> negb (safe_key key) = false ->
  exists table',
    accumulate table key tagStats_init (tagStats_step v) (tagStats_foreign v) true r
    = (r, Returns table')
    /\ forall k, safe_key k = false -> own_get table' k = None.
Proof.
  intros I R S. apply negb_false_iff in S. eexists. split.
  - apply accumulate_ok; assumption.
  - apply upsert_keeps_safe; assumption.
Qed.

Lemma tag_pass_bad (v : Video) (table : JSObject TagStats.t) key r :
  (forall k, safe_key k = false -> own_get table k = None) ->
  realm_ok r = true -> negb (safe_key key) = true ->
  exists r',
    accumulate table key tagStats_init (tagStats_step v) (tagStats_foreign v) true r
    = (r', Throws TypeError)
    /\ realm_ok r' = true.
Proof.
  intros I R S. apply negb_true_iff in S.
  destruct (accumulate_throws_unsafe tagStats_init (tagStats_step v) (tagStats_foreign v)
              table key r (I key S) S) as [r' E].
  exists r'. split; [exact E|].
  pose proof (steady_accumulate table key tagStats_init (tagStats_step v)
                (tagStats_foreign v) true
                (increments_keep_nan (calculateEngagementRate v) v.(stats).(views))
                r R) as [R' _].
  rewrite E in R'. exact R'.
Qed.

Section InheritedNames.

Variable log10_approx : float -> float.

Lemma analyzeHashtags_throws (videos : list Video) (r : Realm) :
  realm_ok r = true ->
  (exists v tag, In v videos /\ In tag v.(hashtags) /\ safe_key tag = false) ->
  exists r',
    analyzeHashtags log10_approx videos r = (r', Throws TypeError)
    /\ realm_ok r' = true.
Proof.
  intros R (v & tag & Iv & It & U).
  destruct (forEach_bad
              (fun s v =>
                 forEach v.(hashtags)
                   (fun s tag =>
                      accumulate s tag tagStats_init (tagStats_step v)
                        (tagStats_foreign v) true) s)
              (fun v => existsb (fun tag => negb (safe_key tag)) v.(hashtags))
              (fun s : JSObject TagStats.t =>
                 forall k, safe_key k = false -> own_get s k = None))
    with (l := videos) (s := @nil (string * TagStats.t)) (r := r) as (r' & E & R').
  - intros s x r0 I R0 B.
    apply (forEach_good _ (fun tag => negb (safe_key tag)) _
             (tag_pass_good x)); assumption.
  - intros s x r0 I R0 B.
    apply (forEach_bad _ (fun tag => negb (safe_key tag)) _
             (tag_pass_good x) (tag_pass_bad x)); assumption.
  - intros k _. reflexivity.
  - exact R.
  - apply existsb_exists. exists v. split; [exact Iv|].
    apply existsb_exists. exists tag. split; [exact It|]. rewrite U. reflexivity.
  - exists r'. split; [|exact R'].
    unfold analyzeHashtags, bind, hashtagStats. rewrite E. reflexivity.
Qed.

Lemma analyzeMusic_throws (videos : list Video) (r : Realm) :
  realm_ok r = true ->
  (exists v, In v videos /\ safe_key v.(music) = false) ->
  exists r',
    analyzeMusic log10_approx videos r = (r', Throws TypeError)
    /\ realm_ok r' = true.
Proof.
  intros R (v & Iv & U).
  destruct (forEach_bad
              (fun s v =>
                 accumulate s v.(music) tagStats_init (tagStats_step v)
                   (tagStats_foreign v) true)
              (fun v => negb (safe_key v.(music)))
              (fun s : JSObject TagStats.t =>
                 forall k, safe_key k = false -> own_get s k = None))
    with (l := videos) (s := @nil (string * TagStats.t)) (r := r) as (r' & E & R').
  - intros s x r0 I R0 B. apply tag_pass_good; assumption.
  - intros s x r0 I R0 B. apply tag_pass_bad; assumption.
  - intros k _. reflexivity.
  - exact R.
  - apply existsb_exists. exists v. split; [exact Iv|]. rewrite U. reflexivity.
  - exists r'. split; [|exact R'].
    unfold analyzeMusic, bind, musicStats. rewrite E. reflexivity.
Qed.

(** X4. When a hashtag (a music identifier) of the input is
    ["__proto__"] or the name of a member of [Object.prototype],
    [analyzeHashtags] ([analyzeMusic]) throws a [TypeError]; what it
    has written to built-in objects by then are [NaN] counters only. *)
Theorem inherited_name_key_throws (videos : list Video) (r : Realm) :
  realm_ok r = true ->
  ((exists v tag, In v videos /\ In tag v.(hashtags) /\ safe_key tag = false) ->
   exists r',
     analyzeHashtags log10_approx videos r = (r', Throws TypeError)
     /\ realm_ok r' = true)
  /\
  ((exists v, In v videos /\ safe_key v.(music) = false) ->
   exists r',
     analyzeMusic log10_approx videos r = (r', Throws TypeError)
     /\ realm_ok r' = true).
Proof.
  intros R. split; [apply analyzeHashtags_throws|apply analyzeMusic_throws]; exact R.
Qed.

End InheritedNames.

(** ** Recommendations *)

Lemma In_firstn {A} n : forall (l : list A) x, In x (firstn n l) -> In x l.
Proof.
  intros l x I. rewrite <- (firstn_skipn n l). apply in_or_app. left. exact I.
Qed.

Lemma small_index (q : Z) : (0 <= q < 24)%Z -> (0 <= q < 2 ^ 53)%Z.
Proof. intros H. change (2 ^ 53)%Z with 9007199254740992%Z. lia. Qed.

(** X1. [formatTimeRecommendation] on a slot whose day is an integer
    from 0 to 6 and whose hour is an integer from 0 to 23 returns the
    French name of the day, [" à "], the hour in decimal digits and
    ["h00"]; it does not throw. *)
Theorem time_recommendation_text (slot : TimeSlot.t) (d h : Z) (r : Realm) :
  (0 <= d < 7)%Z -> (0 <= h < 24)%Z ->
  slot.(TimeSlot.day) = Number_of_Z d ->
  slot.(TimeSlot.hour) = Number_of_Z h ->
  formatTimeRecommendation (Some slot) r
  = (r, Returns (nth (Z.to_nat d) days "undefined"
                 ++ " à " ++ decimal (Z.to_N h) ++ "h00")).
Proof.
  intros Hd Hh Ed Eh. unfold formatTimeRecommendation, ret, Array_get.
  rewrite Ed, Eh.
  rewrite (Number_toString_int h) by (apply small_index; assumption).
  rewrite (Number_toString_int d) by (apply small_index; lia).
  rewrite array_index_decimal by lia.
  assert (D : (d = 0 \/ d = 1 \/ d = 2 \/ d = 3 \/ d = 4 \/ d = 5 \/ d = 6)%Z) by lia.
  destruct D as [->|[->|[->|[->|[->|[->| ->]]]]]]; reflexivity.
Qed.

(** X2. [generateRecommendations] throws exactly when
    [bestPostingTimes] is empty.  Otherwise it returns, whatever the
    slots hold, and leaves the realm alone: [bestTimes] are the first
    three posting times, [recommended] the first five hashtags,
    [trending] the first three tracks, and [optimal] is the optimal
    duration it was given. *)
Theorem recommendations_throw_iff_no_slot (a : AnalysisResults.t) (r : Realm) :
  match a.(AnalysisResults.bestPostingTimes) with
  | [] => generateRecommendations a r = (r, Throws TypeError)
  | _ :: _ =>
      exists rec,
        generateRecommendations a r = (r, Returns rec)
        /\ Timing.bestTimes (Recommendations.timing rec)
           = firstn 3 a.(AnalysisResults.bestPostingTimes)
        /\ DurationAdvice.optimal (Recommendations.duration rec)
           = a.(AnalysisResults.optimalDuration)
        /\ HashtagAdvice.recommended (Recommendations.hashtags rec)
           = firstn 5 a.(AnalysisResults.topHashtags)
        /\ MusicAdvice.trending (Recommendations.music rec)
           = firstn 3 a.(AnalysisResults.topMusic)
  end.
Proof.
  unfold generateRecommendations, bind.
  destruct (AnalysisResults.bestPostingTimes a) as [|slot slots]; [reflexivity|].
  simpl. eexists. split; [reflexivity|]. repeat split.
Qed.

(** ** The engagement rate and the duration key *)

(** X10. The engagement rate of a video whose four counters are
    finite and not negative is a Number that is not negative: it is
    never [NaN]. *)
Theorem engagement_rate_not_negative (video : Video) :
  well_formed video = true ->
  (0 <=? calculateEngagementRate video) = true
  /\ is_nan (calculateEngagementRate video) = false.
Proof.
  intros W. pose proof (rate_nonneg video W) as H.
  split; [exact H|apply nonneg_number, H].
Qed.

(** X11. An integer from [0] to [2^53 - 1], turned into the property
    key of [durationGroups] and read back by [parseInt], is the
    integer. *)
Theorem whole_second_key_round_trip (q : Z) :
  (0 <= q < 2 ^ 53)%Z ->
  parseInt (Number_toString (Number_of_Z q)) = Number_of_Z q.
Proof.
  intros H. rewrite Number_toString_int by assumption.
  rewrite parseInt_decimal, Z2N.id by lia. reflexivity.
Qed.

(** ** The aggregators on arbitrary lists *)

Lemma uses_of_length tag videos :
  List.length (uses_of tag videos)
  = list_sum (map (fun v => count_occ string_dec v.(hashtags) tag) videos).
Proof.
  unfold uses_of. induction videos as [|v videos IH]; simpl; [reflexivity|].
  rewrite length_app, repeat_length, IH. reflexivity.
Qed.

Lemma plays_of_length track videos :
  List.length (plays_of track videos) = count_occ string_dec (map music videos) track.
Proof.
  unfold plays_of. induction videos as [|v videos IH]; simpl; [reflexivity|].
  destruct (String.eqb_spec (music v) track) as [E|E], (string_dec (music v) track) as [E'|E'];
    try contradiction; simpl; rewrite IH; reflexivity.
Qed.

Section Further.

Variable LocalTZA : Z -> Z.
Variable log10_approx : float -> float.

(** X7. In what [analyzeHashtags] returns, the tag of every entry
    occurs in the input and [useCount] is the number of its occurrences
    over all tag lists, repetitions within a list included; in what
    [analyzeMusic] returns, [useCount] is the number of videos with the
    music identifier.  The counts are exact up to [2^53]. *)
Theorem use_counts_exact (videos : list Video) (r r' : Realm) :
  (forall res e,
     analyzeHashtags log10_approx videos r = (r', Returns res) ->
     In e res ->
     In (HashtagResult.tag e) (flat_map hashtags videos)
     /\ HashtagResult.useCount e
        = Number_of_Z
            (Z.min (Z.of_nat (list_sum (map (fun v => count_occ string_dec v.(hashtags)
                                                        (HashtagResult.tag e)) videos)))
                   (2 ^ 53)))
  /\
  (forall res e,
     analyzeMusic log10_approx videos r = (r', Returns res) ->
     In e res ->
     In (MusicResult.music e) (map music videos)
     /\ MusicResult.useCount e
        = Number_of_Z
            (Z.min (Z.of_nat (count_occ string_dec (map music videos) (MusicResult.music e)))
                   (2 ^ 53))).
Proof.
  split; intros res e H I.
  - apply analyzeHashtags_returns in H. destruct H as [_ ->].
    apply (Permutation_in _ (hashtag_ranking_perm log10_approx videos)) in I.
    apply in_map_iff in I. destruct I as (tag & <- & I).
    apply (proj1 (first_seen_In _ _)) in I. split; [exact I|].
    cbn [ranked_hashtag HashtagResult.useCount HashtagResult.tag].
    rewrite count_of_value, uses_of_length. reflexivity.
  - apply analyzeMusic_returns in H. destruct H as [_ ->].
    apply (Permutation_in _ (music_ranking_perm log10_approx videos)) in I.
    apply in_map_iff in I. destruct I as (track & <- & I).
    apply (proj1 (first_seen_In _ _)) in I. split; [exact I|].
    cbn [ranked_music MusicResult.useCount MusicResult.music].
    rewrite count_of_value, plays_of_length. reflexivity.
Qed.


(** X6. On every list, whatever the durations, [analyzeDuration]
    returns and leaves the realm alone.  It returns either the
    placeholder, when no group has an average above [0], or a group of
    the list whose average is above [0] and is exceeded by the average
    of no group; [duration] is [parseInt] of the key of the group and
    [sampleSize] the number of its videos (exact up to [2^53]). *)
Theorem best_duration_is_maximal (videos : list Video) (r : Realm) :
  realm_ok r = true ->
  exists best,
    analyzeDuration videos r = (r, Returns best)
    /\ match best.(BestDuration.sampleSize) with
       | None =>
           best = bestDuration_init
           /\ forall v, In v videos ->
                (0 <? average_engagement (duration_group videos v)) = false
       | Some n =>
           exists v,
             In v videos
             /\ best.(BestDuration.duration) = parseInt (duration_key v)
             /\ best.(BestDuration.avgEngagement)
                = average_engagement (duration_group videos v)
             /\ n = Number_of_Z
                      (Z.min (Z.of_nat (List.length (duration_group videos v))) (2 ^ 53))
             /\ (0 <? average_engagement (duration_group videos v)) = true
             /\ forall v', In v' videos ->
                  (average_engagement (duration_group videos v)
                   <? average_engagement (duration_group videos v')) = false
       end.
Proof.
  intros R. eexists. split; [apply analyzeDuration_ok; assumption|].
  pose proof (selection_all (Object_entries (duration_table videos))) as S.
  assert (Hin : forall v', In v' videos ->
            exists h, In h (Object_entries (duration_table videos))
              /\ group_average (snd h) = average_engagement (duration_group videos v')).
  { intros v' I'. eexists. split.
    - apply (Permutation_in _ (Permutation_sym (Object_entries_perm _))).
      apply duration_table_has. exact I'.
    - reflexivity. }
  destruct S as [[E H]|(E1 & e & E2 & E & B & P & H1 & H2)].
  - rewrite E. simpl. split; [reflexivity|].
    intros v' I'. destruct (Hin v' I') as (h & Ih & <-). auto.
  - rewrite B. cbn [selected BestDuration.sampleSize BestDuration.duration
      BestDuration.avgEngagement].
    assert (Ie : In e (duration_table videos)).
    { apply (Permutation_in _ (Object_entries_perm _)). rewrite E.
      apply in_or_app. right. left. reflexivity. }
    destruct e as [k g]. apply duration_table_entry in Ie.
    destruct Ie as (v & Iv & K & G). exists v. simpl fst. simpl snd.
    assert (A : group_average g = average_engagement (duration_group videos v))
      by (rewrite G; reflexivity).
    rewrite <- A. subst k. split; [exact Iv|]. split; [reflexivity|].
    split; [reflexivity|]. split; [rewrite G; apply count_of_value|].
    split; [exact P|].
    intros v' I'. destruct (Hin v' I') as (h & Ih & <-).
    rewrite E in Ih. apply in_app_or in Ih. destruct Ih as [Ih|[<-|Ih]].
    + apply F64.leb_false_ltb. auto.
    + apply F64.ltb_irrefl.
    + auto.
Qed.

End Further.

(** ** Posting times and the whole batch *)

Section Whole.

Variable LocalTZA : Z -> Z.
Variable log10_approx : float -> float.

(** X8. On every list, whatever the timestamps,
    [analyzePostingTimes] returns and leaves the realm alone.  Every
    entry has the day and hour of a video of the list, and counts the
    videos filed under its slot key; its day is an integer from 0 to 6
    and its hour one from 0 to 23, unless the timestamp of that video
    makes an invalid date, in which case both are [NaN]. *)
Theorem posting_time_entries_in_range (videos : list Video) (r : Realm) :
  realm_ok r = true ->
  exists res,
    analyzePostingTimes LocalTZA videos r = (r, Returns res)
    /\ forall e, In e res ->
         exists v,
           In v videos
           /\ TimeSlot.day e = getDay LocalTZA (Date_new v.(createTime))
           /\ TimeSlot.hour e = getHours LocalTZA (Date_new v.(createTime))
           /\ TimeSlot.count e
              = Number_of_Z
                  (Z.min (Z.of_nat (List.length
                                      (members (slot_key LocalTZA)
                                         (slot_key LocalTZA v) videos)))
                         (2 ^ 53))
           /\ ((exists d h,
                  (0 <= d < 7)%Z /\ (0 <= h < 24)%Z
                  /\ TimeSlot.day e = Number_of_Z d
                  /\ TimeSlot.hour e = Number_of_Z h)
               \/ (Date_new v.(createTime) = None
                   /\ TimeSlot.day e = nan /\ TimeSlot.hour e = nan)).
Proof.
  intros R.
  exists (firstn 5 (Array_sort (descending TimeSlot.avgEngagement)
                      (slot_entries LocalTZA videos))).
  split.
  - rewrite analyzePostingTimes_ok by assumption. rewrite slot_entries_spec. reflexivity.
  - intros e I. apply In_firstn in I.
    apply (Permutation_in _ (Array_sort_perm _ _)) in I.
    unfold slot_entries in I. apply in_map_iff in I. destruct I as (v & <- & I).
    apply firsts_In in I. exists v.
    cbn [slot_entry TimeSlot.day TimeSlot.hour TimeSlot.count].
    split; [exact I|]. split; [reflexivity|]. split; [reflexivity|].
    split; [apply count_of_value|].
    destruct (Date_new (createTime v)) as [t|]; [left|right; auto].
    exists ((LocalTime LocalTZA t / msPerDay + 4) mod 7)%Z,
           ((LocalTime LocalTZA t / msPerHour) mod 24)%Z.
    split; [apply Z.mod_pos_bound; reflexivity|].
    split; [apply Z.mod_pos_bound; reflexivity|]. split; reflexivity.
Qed.

Lemma posting_times_not_empty (v : Video) (videos : list Video) :
  firstn 5 (Array_sort (descending TimeSlot.avgEngagement)
              (slot_entries LocalTZA (v :: videos))) <> [].
Proof.
  intros E. apply (f_equal (@List.length _)) in E.
  rewrite length_firstn, (Permutation_length (Array_sort_perm _ _)) in E.
  rewrite slot_entries_length in E. simpl in E. discriminate.
Qed.

(** X3. On a non-empty list in which no hashtag and no music
    identifier names an inherited property, in a realm run so far by
    the analyzer only, [analyzeVideoBatch] returns and leaves the realm
    alone.  Its [analysisResults] hold what the four aggregators return
    on the list, there is at least one posting time, and the
    recommendations hold the first three posting times, the optimal
    duration, the first five hashtags and the first three tracks. *)
Theorem batch_returns_on_safe_input (videos : list Video) (r : Realm) :
  realm_ok r = true ->
  videos <> [] ->
  (forall v tag, In v videos -> In tag v.(hashtags) -> safe_key tag = true) ->
  (forall v, In v videos -> safe_key v.(music) = true) ->
  exists best slots tags tracks rec,
    analyzeDuration videos r = (r, Returns best)
    /\ analyzePostingTimes LocalTZA videos r = (r, Returns slots)
    /\ analyzeHashtags log10_approx videos r = (r, Returns tags)
    /\ analyzeMusic log10_approx videos r = (r, Returns tracks)
    /\ slots <> []
    /\ analyzeVideoBatch LocalTZA log10_approx videos r
       = (r, Returns
               {| Batch.analysisResults :=
                    {| AnalysisResults.optimalDuration := best;
                       AnalysisResults.bestPostingTimes := slots;
                       AnalysisResults.topHashtags := tags;
                       AnalysisResults.topMusic := tracks |};
                  Batch.recommendations := rec |})
    /\ Timing.bestTimes (Recommendations.timing rec) = firstn 3 slots
    /\ DurationAdvice.optimal (Recommendations.duration rec) = best
    /\ HashtagAdvice.recommended (Recommendations.hashtags rec) = firstn 5 tags
    /\ MusicAdvice.trending (Recommendations.music rec) = firstn 3 tracks.
Proof.
  intros R N St Sm.
  assert (Su : forall u, In u (tag_uses videos) -> safe_key (snd u) = true).
  { intros [v tag] I. unfold tag_uses in I. apply in_flat_map in I.
    destruct I as (v' & Iv & It). apply in_map_iff in It.
    destruct It as (tag' & E & It). inversion E; subst. simpl. eauto. }
  pose proof (analyzeDuration_ok videos r R) as Ed.
  pose proof (analyzePostingTimes_ok LocalTZA videos r R) as Ep.
  pose proof (analyzeHashtags_ok log10_approx videos r R Su) as Eh.
  pose proof (analyzeMusic_ok log10_approx videos r R Sm) as Em.
  rewrite slot_entries_spec in Ep.
  destruct videos as [|v videos]; [contradiction|].
  pose proof (posting_times_not_empty v videos) as Ne.
  unfold Array_slice0 in Ep.
  change by_avgEngagement with (descending TimeSlot.avgEngagement) in Ep.
  destruct (firstn 5 (Array_sort (descending TimeSlot.avgEngagement)
                        (slot_entries LocalTZA (v :: videos)))) as [|slot slots] eqn:F;
    [contradiction|].
  do 4 eexists.
  eexists. split; [exact Ed|]. split; [exact Ep|]. split; [exact Eh|].
  split; [exact Em|]. split; [discriminate|].
  unfold analyzeVideoBatch, bind. rewrite Ed, Ep, Eh, Em.
  unfold generateRecommendations, bind. simpl.
  split; [reflexivity|]. repeat split.
Qed.

End Whole.

(** ** Failures of the batch, and well-formed rankings *)

Lemma sum_views_from_nonneg l : forall a,
  (0 <=? a) = true ->
  (forall v, In v l -> well_formed v = true) ->
  (0 <=? fold_left (fun a v => a + v.(stats).(views)) l a) = true.
Proof.
  induction l as [|v l IH]; intros a Z H; simpl; [exact Z|].
  apply IH.
  - apply add_nonneg; [exact Z|].
    pose proof (H v (or_introl eq_refl)) as W. unfold well_formed in W.
    apply andb_true_iff in W. destruct W as [_ W]. unfold counter_ok in W.
    apply andb_true_iff in W. apply W.
  - intros; apply H; right; assumption.
Qed.

Lemma uses_of_In tag videos v : In v (uses_of tag videos) -> In v videos.
Proof.
  unfold uses_of. intros I. apply in_flat_map in I. destruct I as (v' & I' & I).
  apply repeat_spec in I. subst. exact I'.
Qed.

Lemma uses_of_not_empty tag videos :
  In tag (flat_map hashtags videos) -> uses_of tag videos <> [].
Proof.
  intros I E. apply in_flat_map in I. destruct I as (v & Iv & It).
  assert (P : In v (uses_of tag videos)).
  { unfold uses_of. apply in_flat_map. exists v. split; [exact Iv|].
    apply (count_occ_In string_dec) in It.
    destruct (count_occ string_dec (hashtags v) tag); [lia|left; reflexivity]. }
  rewrite E in P. exact P.
Qed.

Lemma plays_of_not_empty track videos :
  In track (map music videos) -> plays_of track videos <> [].
Proof.
  intros I E. apply in_map_iff in I. destruct I as (v & K & Iv).
  assert (P : In v (plays_of track videos)).
  { unfold plays_of. apply filter_In. split; [exact Iv|]. apply String.eqb_eq, K. }
  rewrite E in P. exact P.
Qed.

Section Failures.

Variable LocalTZA : Z -> Z.
Variable log10_approx : float -> float.

(** X12. For videos whose counters are finite and not negative,
    every entry that [analyzeHashtags] or [analyzeMusic] returns has an
    average engagement and a total of views that are not negative (and
    so not [NaN]). *)
Theorem ranking_averages_not_negative (videos : list Video) (r r' : Realm) :
  (forall v, In v videos -> well_formed v = true) ->
  (forall res e,
     analyzeHashtags log10_approx videos r = (r', Returns res) ->
     In e res ->
     (0 <=? HashtagResult.avgEngagement e) = true
     /\ (0 <=? HashtagResult.totalViews e) = true)
  /\
  (forall res e,
     analyzeMusic log10_approx videos r = (r', Returns res) ->
     In e res ->
     (0 <=? MusicResult.avgEngagement e) = true
     /\ (0 <=? MusicResult.totalViews e) = true).
Proof.
  intros W. split; intros res e H I.
  - apply analyzeHashtags_returns in H. destruct H as [_ ->].
    apply (Permutation_in _ (hashtag_ranking_perm log10_approx videos)) in I.
    apply in_map_iff in I. destruct I as (tag & <- & I).
    apply (proj1 (first_seen_In _ _)) in I.
    cbn [ranked_hashtag HashtagResult.avgEngagement HashtagResult.totalViews].
    split.
    + apply (average_engagement_nonneg (uses_of tag videos)).
      * apply uses_of_not_empty, I.
      * intros v Iv. apply W. eapply uses_of_In. exact Iv.
    + apply sum_views_from_nonneg; [reflexivity|].
      intros v Iv. apply W. eapply uses_of_In. exact Iv.
  - apply analyzeMusic_returns in H. destruct H as [_ ->].
    apply (Permutation_in _ (music_ranking_perm log10_approx videos)) in I.
    apply in_map_iff in I. destruct I as (track & <- & I).
    apply (proj1 (first_seen_In _ _)) in I.
    cbn [ranked_music MusicResult.avgEngagement MusicResult.totalViews].
    assert (P : forall v, In v (plays_of track videos) -> well_formed v = true).
    { intros v Iv. apply W. unfold plays_of in Iv. apply filter_In in Iv. apply Iv. }
    split.
    + apply (average_engagement_nonneg (plays_of track videos));
        [apply plays_of_not_empty, I|exact P].
    + apply sum_views_from_nonneg; [reflexivity|exact P].
Qed.

(** X5. When a hashtag or a music identifier of the input names an
    inherited property, [analyzeVideoBatch] throws a [TypeError] (the
    promise it returns is rejected), and has written [NaN] counters
    only. *)
Theorem batch_throws_on_inherited_name (videos : list Video) (r : Realm) :
  realm_ok r = true ->
  (exists v tag, In v videos /\ In tag v.(hashtags) /\ safe_key tag = false)
  \/ (exists v, In v videos /\ safe_key v.(music) = false) ->
  exists r',
    analyzeVideoBatch LocalTZA log10_approx videos r = (r', Throws TypeError)
    /\ realm_ok r' = true.
Proof.
  intros R H. unfold analyzeVideoBatch, bind.
  rewrite analyzeDuration_ok, analyzePostingTimes_ok by assumption.
  destruct H as [Ht|Hm].
  - destruct (analyzeHashtags_throws log10_approx videos r R Ht) as (r' & E & R').
    rewrite E. eauto.
  - destruct (analyzeHashtags log10_approx videos r) as [r1 [tags|e]] eqn:E.
    + apply analyzeHashtags_returns in E. destruct E as [-> _].
      destruct (analyzeMusic_throws log10_approx videos r R Hm) as (r' & E & R').
      rewrite E. eauto.
    + destruct e. exists r1. split; [reflexivity|].
      pose proof (steady_analyzeHashtags log10_approx videos r R) as [R1 _].
      rewrite E in R1. exact R1.
Qed.

End Failures.

(** ** The recommended slot *)

Section BestSlot.

Variable LocalTZA : Z -> Z.

Lemma ge_score_trans {A} (score : A -> float) :
  Relations_1.Transitive (ge_score score).
Proof.
  intros a b c Hab Hbc. unfold ge_score in *. apply (F64.leb_trans _ (score b)); assumption.
Qed.

(** X13. For videos whose counters are finite and not negative,
    the first posting time returned, the one [generateRecommendations]
    puts in its sentence, is a slot of the input whose average
    engagement is at least that of every slot of the input, also of
    those beyond the first five. *)
Theorem best_slot_has_greatest_average (videos : list Video) (r : Realm) :
  realm_ok r = true ->
  (forall v, In v videos -> well_formed v = true) ->
  exists res,
    analyzePostingTimes LocalTZA videos r = (r, Returns res)
    /\ forall top rest, res = top :: rest ->
         In top (slot_entries LocalTZA videos)
         /\ forall e, In e (slot_entries LocalTZA videos) ->
              (TimeSlot.avgEngagement e <=? TimeSlot.avgEngagement top) = true.
Proof.
  intros R W.
  exists (firstn 5 (Array_sort (descending TimeSlot.avgEngagement)
                      (slot_entries LocalTZA videos))).
  split.
  - rewrite analyzePostingTimes_ok by assumption. rewrite slot_entries_spec. reflexivity.
  - intros top rest E.
    pose proof (Array_sort_perm (descending TimeSlot.avgEngagement)
                  (slot_entries LocalTZA videos)) as P.
    assert (S : Sorted (ge_score TimeSlot.avgEngagement)
                  (Array_sort (descending TimeSlot.avgEngagement)
                     (slot_entries LocalTZA videos))).
    { apply Array_sort_sorted. apply Forall_forall. intros e I.
      apply (slot_entries_numbers LocalTZA videos e W I). }
    destruct (Array_sort (descending TimeSlot.avgEngagement)
                (slot_entries LocalTZA videos)) as [|top' ranked]; [discriminate|].
    simpl in E. injection E as -> _.
    assert (It : In top (slot_entries LocalTZA videos)).
    { apply (Permutation_in _ P). left. reflexivity. }
    split; [exact It|]. intros e I.
    apply (Permutation_in _ (Permutation_sym P)) in I. destruct I as [<-|I].
    + apply F64.eqb_leb, F64.eqb_refl_number.
      apply (slot_entries_numbers LocalTZA videos _ W It).
    + apply (Sorted_extends (ge_score_trans TimeSlot.avgEngagement)) in S.
      rewrite Forall_forall in S. apply (S e I).
Qed.

End BestSlot.

(** ** Sample runs of the further properties *)

(** The sentence for a Monday at 14:00. *)
Lemma time_recommendation_text_witness :
  formatTimeRecommendation (Some monday_slot) pristine
  = (pristine, Returns "lundi à 14h00").
Proof.
  exact (time_recommendation_text monday_slot 1 14 pristine
           (conj (Z.le_0_1) eq_refl) (conj (Zle_0_pos 14) eq_refl) eq_refl eq_refl).
Defined.

(** The batch of the two sample videos returns, with two posting
    times. *)
Lemma batch_returns_on_safe_input_witness :
  exists b,
    analyzeVideoBatch utc log10_digits [monday_video; tuesday_video] pristine
    = (pristine, Returns b)
    /\ List.length (AnalysisResults.bestPostingTimes (Batch.analysisResults b)) = 2%nat.
Proof.
  destruct (batch_returns_on_safe_input utc log10_digits [monday_video; tuesday_video]
              pristine eq_refl)
    as (best & slots & tags & tracks & rec & _ & Ep & _ & _ & _ & Eb & _).
  - discriminate.
  - intros v tag [<-|[<-|[]]] I; simpl in I;
      repeat (destruct I as [<-|I]; [reflexivity|]); destruct I.
  - intros v [<-|[<-|[]]]; reflexivity.
  - eexists. split; [exact Eb|]. simpl.
    vm_compute in Ep. injection Ep as <-. reflexivity.
Defined.

(** A hashtag [constructor] and a music identifier [__proto__]. *)
Lemma inherited_name_key_throws_witness :
  (exists r',
     analyzeHashtags log10_digits [inherited_name_video] pristine = (r', Throws TypeError)
     /\ realm_ok r' = true)
  /\ (exists r',
        analyzeMusic log10_digits [inherited_name_video] pristine = (r', Throws TypeError)
        /\ realm_ok r' = true).
Proof.
  destruct (inherited_name_key_throws log10_digits [inherited_name_video] pristine eq_refl)
    as [H M].
  split.
  - apply H. exists inherited_name_video, "constructor".
    split; [left; reflexivity|]. split; [left; reflexivity|reflexivity].
  - apply M. exists inherited_name_video. split; [left; reflexivity|reflexivity].
Defined.

Lemma batch_throws_on_inherited_name_witness :
  exists r',
    analyzeVideoBatch utc log10_digits [monday_video; inherited_name_video] pristine
    = (r', Throws TypeError)
    /\ realm_ok r' = true.
Proof.
  apply (batch_throws_on_inherited_name utc log10_digits
           [monday_video; inherited_name_video] pristine eq_refl).
  right. exists inherited_name_video.
  split; [right; left; reflexivity|reflexivity].
Defined.

(** Three sample videos in three groups of one. *)
Lemma best_duration_is_maximal_witness :
  exists best,
    analyzeDuration [long_video; short_video; tuesday_video] pristine
    = (pristine, Returns best)
    /\ BestDuration.sampleSize best = Some 1.
Proof.
  destruct (best_duration_is_maximal [long_video; short_video; tuesday_video]
              pristine eq_refl) as (best & E & _).
  exists best. split; [exact E|].
  vm_compute in E. injection E as <-. reflexivity.
Defined.

Lemma posting_time_entries_in_range_witness :
  exists res,
    analyzePostingTimes utc [monday_video; tuesday_video] pristine
    = (pristine, Returns res)
    /\ map TimeSlot.day res = [1; 2]
    /\ map TimeSlot.hour res = [14; 9].
Proof.
  destruct (posting_time_entries_in_range utc [monday_video; tuesday_video]
              pristine eq_refl) as (res & E & _).
  exists res. split; [exact E|].
  vm_compute in E. injection E as <-. split; reflexivity.
Defined.

Lemma best_slot_has_greatest_average_witness :
  exists res,
    analyzePostingTimes utc [tuesday_video; monday_video] pristine
    = (pristine, Returns res)
    /\ map TimeSlot.day res = [1; 2].
Proof.
  destruct (best_slot_has_greatest_average utc [tuesday_video; monday_video] pristine
              eq_refl) as (res & E & _).
  - intros v [<-|[<-|[]]]; reflexivity.
  - exists res. split; [exact E|].
    vm_compute in E. injection E as <-. reflexivity.
Defined.


Lemma engagement_rate_not_negative_witness :
  well_formed monday_video = true
  /\ (0 <=? calculateEngagementRate monday_video) = true
  /\ is_nan (calculateEngagementRate monday_video) = false.
Proof.
  split; [reflexivity|]. apply (engagement_rate_not_negative monday_video). reflexivity.
Defined.

Lemma whole_second_key_round_trip_witness :
  parseInt (Number_toString (Number_of_Z 15)) = Number_of_Z 15.
Proof.
  apply (whole_second_key_round_trip 15). split; [discriminate|reflexivity].
Defined.

Lemma ranking_averages_not_negative_witness :
  exists res,
    analyzeHashtags log10_digits [monday_video; unseen_video] pristine
    = (pristine, Returns res)
    /\ forall e, In e res ->
         (0 <=? HashtagResult.avgEngagement e) = true
         /\ (0 <=? HashtagResult.totalViews e) = true.
Proof.
  assert (W : forall v, In v [monday_video; unseen_video] -> well_formed v = true).
  { intros v [<-|[<-|[]]]; reflexivity. }
  eassert (E : analyzeHashtags log10_digits [monday_video; unseen_video] pristine
               = (pristine, Returns _)) by (vm_compute; reflexivity).
  match type of E with _ = (_, Returns ?l) => exists l end.
  split; [exact E|]. intros e I.
  apply (proj1 (ranking_averages_not_negative log10_digits [monday_video; unseen_video]
                  pristine pristine W) _ e E I).
Defined.

